(** * MVTec dataset indexer (datasets/mvtec.py): a shallow embedding

    The file models [MVTecDataset] of [datasets/mvtec.py]: the directory scan
    of [get_image_data], the stratified subsetting of [sub_datasets], the
    few-shot resampling of [__init__] and the retrieval of [__getitem__].

    Python values are modelled as follows.
    - [str] is [string]; Python compares strings by code point, which for
      UTF-8 encoded text is the byte order used by [String.leb].
    - an [int] supplied by the caller ([k_shot], [divide_num], [divide_iter],
      an index given to [__getitem__]) is a [Z]; a list position produced by
      [range(len(...))] or [enumerate] is a [nat].
    - a [list] is a [list]; a [dict] is an association list kept in insertion
      order, as CPython iterates it.
    - an exception is a value of [exn], carried by the [result] monad.
    - the file system, the two pseudo-random generators and the image
      library are parameters of the model. *)

From Stdlib Require Import List String Ascii ZArith Lia Bool Arith.
From Stdlib Require Import Permutation Sorted.
Import ListNotations.

Set Implicit Arguments.

(** ** The Python runtime used by the module *)

Module Py.

(** The exceptions the modelled code can raise. *)
Inductive exn : Type :=
| OSError      (* os.listdir on a missing path, PIL.Image.open on a bad file *)
| IndexError   (* list index out of range *)
| KeyError     (* missing dict key *)
| TypeError    (* subscripting None *)
| ValueError.  (* range() with a zero step *)

Inductive result (A : Type) : Type :=
| Ok (a : A)
| Raise (e : exn).

Arguments Ok {A} a.
Arguments Raise {A} e.

Definition bind {A B : Type} (r : result A) (k : A -> result B) : result B :=
  match r with
  | Ok a => k a
  | Raise e => Raise e
  end.

(** [for x in xs: acc = body(acc, x)] with exceptions. *)
Fixpoint foldM {A S : Type} (body : S -> A -> result S) (xs : list A) (s : S)
  : result S :=
  match xs with
  | [] => Ok s
  | x :: xs' => bind (body s x) (foldM body xs')
  end.

(** [[f(x) for x in xs]] with exceptions. *)
Fixpoint mapM {A B : Type} (f : A -> result B) (xs : list A) : result (list B) :=
  match xs with
  | [] => Ok []
  | x :: xs' =>
      bind (f x) (fun y => bind (mapM f xs') (fun ys => Ok (y :: ys)))
  end.

Definition of_option {A : Type} (e : exn) (o : option A) : result A :=
  match o with
  | Some a => Ok a
  | None => Raise e
  end.

(** *** Lists *)

(** [xs[i]] for a Python int [i]: negative positions count from the end. *)
Definition getitem {A : Type} (xs : list A) (i : Z) : result A :=
  let n := Z.of_nat (List.length xs) in
  if (0 <=? i)%Z then of_option IndexError (nth_error xs (Z.to_nat i))
  else if (0 <=? n + i)%Z then of_option IndexError (nth_error xs (Z.to_nat (n + i)))
  else Raise IndexError.

(** A slice bound as CPython adjusts it (step 1). *)
Definition slice_bound (n i : Z) : Z :=
  if (i <? 0)%Z then Z.max 0 (n + i) else Z.min n i.

(** [xs[lo:hi]]. *)
Definition slice {A : Type} (xs : list A) (lo hi : Z) : list A :=
  let n := Z.of_nat (List.length xs) in
  let lo' := slice_bound n lo in
  let hi' := slice_bound n hi in
  firstn (Z.to_nat (hi' - lo')) (skipn (Z.to_nat lo') xs).

(** [range(start, stop, step)]. *)
Definition range (start stop step : Z) : result (list Z) :=
  if (step =? 0)%Z then Raise ValueError
  else
    let count :=
      if (0 <? step)%Z
      then (if (start <? stop)%Z then (stop - start - 1) / step + 1 else 0)%Z
      else (if (stop <? start)%Z then (start - stop - 1) / (- step) + 1 else 0)%Z in
    Ok (map (fun j => (start + Z.of_nat j * step)%Z) (seq 0 (Z.to_nat count))).

(** [enumerate(xs)]. *)
Definition enumerate {A : Type} (xs : list A) : list (nat * A) :=
  combine (seq 0 (List.length xs)) xs.

(** *** Strings *)

Definition slash : ascii := "/"%char.

(** [s.startswith('/')]. *)
Definition startswith_slash (s : string) : bool :=
  match s with
  | String c _ => Ascii.eqb c slash
  | EmptyString => false
  end.

(** [s.endswith('/')]. *)
Fixpoint endswith_slash (s : string) : bool :=
  match s with
  | EmptyString => false
  | String c EmptyString => Ascii.eqb c slash
  | String _ rest => endswith_slash rest
  end.

(** [s.split('/')]: one piece more than there are separators. *)
Fixpoint split_slash (s : string) : list string :=
  match s with
  | EmptyString => [EmptyString]
  | String c rest =>
      if Ascii.eqb c slash then EmptyString :: split_slash rest
      else match split_slash rest with
           | piece :: more => String c piece :: more
           | [] => [String c EmptyString]
           end
  end.

(** ['/' in s]. *)
Fixpoint has_slash (s : string) : bool :=
  match s with
  | EmptyString => false
  | String c rest => Ascii.eqb c slash || has_slash rest
  end.

(** One round of the loop of [posixpath.join]. *)
Definition join2 (path b : string) : string :=
  if startswith_slash b then b
  else if String.eqb path EmptyString || endswith_slash path
       then (path ++ b)%string
       else (path ++ String slash b)%string.

(** [os.path.join(a, *p)]. *)
Definition os_path_join (a : string) (p : list string) : string :=
  fold_left join2 p a.

(** [x in xs] for a list of strings. *)
Definition str_in (x : string) (xs : list string) : bool :=
  existsb (String.eqb x) xs.

(** [sorted(xs)] for a list of strings: the stable insertion of every
    element into the sorted remainder. *)
Fixpoint insert_sorted (x : string) (xs : list string) : list string :=
  match xs with
  | [] => [x]
  | y :: ys => if String.leb x y then x :: xs else y :: insert_sorted x ys
  end.

Definition sorted (xs : list string) : list string :=
  fold_right insert_sorted [] xs.

(** *** Dictionaries with string keys, in insertion order *)

Definition dict (V : Type) : Type := list (string * V).

(** [d[k]] read as an option. *)
Fixpoint dict_find {V : Type} (k : string) (d : dict V) : option V :=
  match d with
  | [] => None
  | (k', v) :: d' => if String.eqb k k' then Some v else dict_find k d'
  end.

(** [d[k]]. *)
Definition dict_get {V : Type} (d : dict V) (k : string) : result V :=
  of_option KeyError (dict_find k d).

(** [d[k] = v]: an existing key keeps its place, a new key goes last. *)
Fixpoint dict_set {V : Type} (k : string) (v : V) (d : dict V) : dict V :=
  match d with
  | [] => [(k, v)]
  | (k', v') :: d' =>
      if String.eqb k k' then (k, v) :: d' else (k', v') :: dict_set k v d'
  end.

(** [d.keys()]. *)
Definition dict_keys {V : Type} (d : dict V) : list string := map fst d.

(** [d[k1][k2] = v] on a dict of dicts: the outer lookup may fail. *)
Definition dict_set2 {V : Type} (k1 k2 : string) (v : V) (d : dict (dict V))
  : result (dict (dict V)) :=
  bind (dict_get d k1) (fun inner => Ok (dict_set k1 (dict_set k2 v inner) d)).

End Py.

Declare Scope py_scope.
Delimit Scope py_scope with py.
Notation "x <- e ;; k" := (Py.bind e (fun x => k))
  (at level 61, e at next level, right associativity) : py_scope.
Notation "' p <- e ;; k" := (Py.bind e (fun p => k))
  (at level 61, p pattern, e at next level, right associativity) : py_scope.

Local Open Scope py_scope.
Local Open Scope string_scope.
Local Open Scope list_scope.

Import Py.

(** ** The module [datasets/mvtec.py] *)

Inductive DatasetSplit : Type := TRAIN | VAL | TEST.

(** [DatasetSplit.X.value]. *)
Definition split_value (s : DatasetSplit) : string :=
  match s with
  | TRAIN => "train"
  | VAL => "val"
  | TEST => "test"
  end.

Definition split_eqb (a b : DatasetSplit) : bool :=
  match a, b with
  | TRAIN, TRAIN | VAL, VAL | TEST, TEST => true
  | _, _ => false
  end.

Definition _CLASSNAMES : list string :=
  ["bottle"; "cable"; "capsule"; "carpet"; "grid";
   "hazelnut"; "leather"; "metal_nut"; "pill"; "screw";
   "tile"; "toothbrush"; "transistor"; "wood"; "zipper"].

(** [IMAGENET_MEAN] and [IMAGENET_STD], as the decimal literals of the
    source, in thousandths. *)
Definition IMAGENET_MEAN : list Z := [485; 456; 406]%Z.
Definition IMAGENET_STD : list Z := [229; 224; 225]%Z.

(** One entry of [data_to_iterate]: the list
    [[classname, anomaly, image_path, mask_path]]. *)
Record record : Type := mk_record {
  classname : string;
  anomaly : string;
  image_path : string;
  mask_path : option string
}.

(** A tensor: its shape and its entries in row-major order. *)
Record tensor (scalar : Type) : Type := mk_tensor {
  size : list nat;
  entries : list scalar
}.

(** The dict returned by [__getitem__]. *)
Record Sample (scalar : Type) : Type := mk_Sample {
  sample_image : tensor scalar;
  sample_mask : tensor scalar;
  is_anomaly : Z;
  sample_image_path : string
}.

(** [anomaly not in ["good", "fail"]] under [split == TEST]: the test of
    lines 144 and 164. *)
Definition wants_mask (split : DatasetSplit) (anomaly : string) : bool :=
  split_eqb split TEST && negb (str_in anomaly ["good"; "fail"]).

(** Two listings of one directory tree: the same directories exist and
    each holds the same names, in whatever order [os.listdir] gives them. *)
Definition same_contents (listdir1 listdir2 : string -> option (list string))
  : Prop :=
  forall p,
    match listdir1 p, listdir2 p with
    | Some xs, Some ys => Permutation xs ys
    | None, None => True
    | _, _ => False
    end.

(** ** A small concrete environment

    A directory tree, two generators and an image library on which the
    model can be run. *)

Module Toy.

(** The directory table: a path and the names [os.listdir] returns for it,
    in the order it returns them. *)
Definition tree : dict (list string) :=
  [ ("root/toy/test", ["good"; "crack"]);
    ("root/toy/test/good", ["001.png"; "000.png"]);
    ("root/toy/test/crack", ["000.png"; "001.png"]);
    ("root/toy/ground_truth/crack", ["001_mask.png"; "000_mask.png"]);
    ("root/toy/train", ["good"]);
    ("root/toy/train/good", ["b.png"; "a.png"; "c.png"]);
    ("root/few/test", ["crack"]);
    ("root/few/test/crack", ["000.png"; "001.png"]);
    ("root/few/ground_truth/crack", ["000_mask.png"]);
    ("root/many/test", ["crack"; "fail"]);
    ("root/many/test/crack", ["000.png"]);
    ("root/many/test/fail", ["000.png"]);
    ("root/many/ground_truth/crack", ["000_mask.png"; "001_mask.png"]);
    ("root/big/test", ["scratch"; "good"]);
    ("root/big/test/good", ["0.png"; "1.png"; "2.png"; "3.png"; "4.png"]);
    ("root/big/test/scratch", ["0.png"; "1.png"; "2.png"]);
    ("root/big/ground_truth/scratch", ["0.png"; "1.png"; "2.png"]) ].

Definition listdir (p : string) : option (list string) := dict_find p tree.

(** The same directories listed in another order. *)
Definition listdir' (p : string) : option (list string) :=
  option_map (@rev string) (dict_find p tree).

(** A tree that has no ground_truth directory at all. *)
Definition bare : dict (list string) :=
  [ ("root/nut/test", ["good"; "bent"]);
    ("root/nut/test/good", ["0.png"]);
    ("root/nut/test/bent", ["0.png"]);
    ("root/nut/val", ["bent"]);
    ("root/nut/val/bent", ["1.png"; "0.png"]) ].

Definition listdir_bare (p : string) : option (list string) :=
  dict_find p bare.

(** A generator for [random]: the state is a counter, a shuffle rotates
    the list by the counter. *)
Definition rng : Type := nat.

Definition random_seed (a : Z) : rng := Z.to_nat (Z.abs a).

Definition random_shuffle (g : rng) (xs : list nat) : list nat * rng :=
  let k := Nat.modulo g (List.length xs) in
  (skipn k xs ++ firstn k xs, S g).

(** A generator for [torch]. *)
Definition tgen : Type := nat.

Definition manual_seed (a : Z) : tgen := Z.to_nat (Z.abs a).

Definition randint (g : tgen) (low high size : Z) : list Z * tgen :=
  (map (fun j => (low + Z.of_nat (g + 2 * j) mod (high - low))%Z)
       (seq 0 (Z.to_nat size)),
   g + Z.to_nat size).

(** Images are their byte counts, scalars are integers. *)
Definition image : Type := nat.
Definition scalar : Type := Z.

Definition Image_open (p : string) : option image :=
  if String.eqb p "" then None else Some (String.length p).

Definition convert (img : image) (mode : string) : image := img.
Definition Resize (wh : Z * Z) (img : image) : image := img.
Definition CenterCrop (n : Z) (img : image) : image := img.

Definition ToTensor (img : image) : tensor scalar :=
  mk_tensor [3; 2; 2] (repeat (Z.of_nat img) 12).

Definition Normalize (mean std : list Z) (t : tensor scalar) : tensor scalar :=
  mk_tensor (size t) (map (fun x => (x - 1)%Z) (entries t)).

End Toy.

Section MVTec.

(** *** The environment *)

(** [os.listdir]: the names in a directory, or nothing when it raises. *)
Variable listdir : string -> option (list string).

(** The generator of the [random] module: [random.seed] and
    [random.shuffle]. *)
Variable rng : Type.
Variable random_seed : Z -> rng.
Variable random_shuffle : rng -> list nat -> list nat * rng.

(** The default generator of [torch]: [torch.manual_seed] and
    [torch.randint(low, high, (size,))]. *)
Variable tgen : Type.
Variable manual_seed : Z -> tgen.
Variable randint : tgen -> Z -> Z -> Z -> list Z * tgen.

(** [PIL] and [torchvision.transforms]. *)
Variable image : Type.
Variable scalar : Type.
Variable zero : scalar.
Variable Image_open : string -> option image.
Variable convert : image -> string -> image.
Variable Resize : Z * Z -> image -> image.
Variable CenterCrop : Z -> image -> image.
Variable ToTensor : image -> tensor scalar.
Variable Normalize : list Z -> list Z -> tensor scalar -> tensor scalar.

(** The state the module reads and writes outside its own objects. *)
Record World : Type := mk_World {
  py_random : rng;
  torch_random : tgen;
  stdout : list Z
}.

Definition set_py_random (g : rng) (w : World) : World :=
  mk_World g (torch_random w) (stdout w).

Definition set_torch_random (g : tgen) (w : World) : World :=
  mk_World (py_random w) g (stdout w).

(** [print(idx)]. *)
Definition print (idx : Z) (w : World) : World :=
  mk_World (py_random w) (torch_random w) (stdout w ++ [idx]).

Definition os_listdir (p : string) : result (list string) :=
  of_option OSError (listdir p).

(** [torch.zeros(shape)]. *)
Definition torch_zeros (shape : list nat) : tensor scalar :=
  mk_tensor shape (repeat zero (fold_right Nat.mul 1 shape)).

(** *** [get_image_data] *)

(** The types of [imgpaths_per_class] and [maskpaths_per_class], and of
    their entries for one class. *)
Abbreviation class_imgs := (dict (list string)).
Abbreviation class_masks := (dict (option (list string))).
Abbreviation imgpaths := (dict class_imgs).
Abbreviation maskpaths := (dict class_masks).

(** The body of the loop of line 133, for one anomaly type. *)
Definition scan_anomaly (split : DatasetSplit)
    (classname classpath maskpath : string)
    (st : imgpaths * maskpaths) (anomaly : string)
  : result (imgpaths * maskpaths) :=
  let '(imgpaths_per_class, maskpaths_per_class) := st in
  let anomaly_path := os_path_join classpath [anomaly] in
  anomaly_files <- os_listdir anomaly_path ;;
  let anomaly_files := sorted anomaly_files in
  imgpaths_per_class <-
    dict_set2 classname anomaly
      (map (fun x => os_path_join anomaly_path [x]) anomaly_files)
      imgpaths_per_class ;;
  if wants_mask split anomaly then
    let anomaly_mask_path := os_path_join maskpath [anomaly] in
    anomaly_mask_files <- os_listdir anomaly_mask_path ;;
    let anomaly_mask_files := sorted anomaly_mask_files in
    maskpaths_per_class <-
      dict_set2 classname anomaly
        (Some (map (fun x => os_path_join anomaly_mask_path [x])
                   anomaly_mask_files))
        maskpaths_per_class ;;
    Ok (imgpaths_per_class, maskpaths_per_class)
  else
    maskpaths_per_class <-
      dict_set2 classname "good" None maskpaths_per_class ;;
    Ok (imgpaths_per_class, maskpaths_per_class).

(** The body of the loop of line 123, for one class. *)
Definition scan_class (source : string) (split : DatasetSplit)
    (st : imgpaths * maskpaths) (classname : string)
  : result (imgpaths * maskpaths) :=
  let '(imgpaths_per_class, maskpaths_per_class) := st in
  let classpath := os_path_join source [classname; split_value split] in
  let maskpath := os_path_join source [classname; "ground_truth"] in
  anomaly_types <- os_listdir classpath ;;
  let imgpaths_per_class := dict_set classname [] imgpaths_per_class in
  let maskpaths_per_class := dict_set classname [] maskpaths_per_class in
  foldM (scan_anomaly split classname classpath maskpath) anomaly_types
        (imgpaths_per_class, maskpaths_per_class).

(** The body of the loop of line 161, for one image of an anomaly type. *)
Definition index_image (split : DatasetSplit)
    (maskpaths_per_class : maskpaths) (classname anomaly : string)
    (data_to_iterate : list record) (e : nat * string)
  : result (list record) :=
  let '(i, image_path) := e in
  if wants_mask split anomaly then
    per_class <- dict_get maskpaths_per_class classname ;;
    masks <- dict_get per_class anomaly ;;
    masks <- of_option TypeError masks ;;
    mask <- getitem masks (Z.of_nat i) ;;
    Ok (data_to_iterate ++ [mk_record classname anomaly image_path (Some mask)])
  else
    Ok (data_to_iterate ++ [mk_record classname anomaly image_path None]).

(** The body of the loop of line 159, for one anomaly type. *)
Definition index_anomaly (split : DatasetSplit)
    (imgpaths_per_class : imgpaths) (maskpaths_per_class : maskpaths)
    (classname : string) (data_to_iterate : list record) (anomaly : string)
  : result (list record) :=
  per_class <- dict_get imgpaths_per_class classname ;;
  paths <- dict_get per_class anomaly ;;
  foldM (index_image split maskpaths_per_class classname anomaly)
        (enumerate paths) data_to_iterate.

(** The body of the loop of line 158, for one class. *)
Definition index_class (split : DatasetSplit)
    (imgpaths_per_class : imgpaths) (maskpaths_per_class : maskpaths)
    (data_to_iterate : list record) (classname : string)
  : result (list record) :=
  per_class <- dict_get imgpaths_per_class classname ;;
  foldM (index_anomaly split imgpaths_per_class maskpaths_per_class classname)
        (sorted (dict_keys per_class)) data_to_iterate.

Definition get_image_data (source : string) (split : DatasetSplit)
    (classnames_to_use : list string)
  : result (imgpaths * list record) :=
  '(imgpaths_per_class, maskpaths_per_class) <-
    foldM (scan_class source split) classnames_to_use ([], []) ;;
  data_to_iterate <-
    foldM (index_class split imgpaths_per_class maskpaths_per_class)
          (sorted (dict_keys imgpaths_per_class)) [] ;;
  Ok (imgpaths_per_class, data_to_iterate).

(** *** [sub_datasets] *)

(** The body of the loop of line 80: [full_datasets[i][2].split('/')[-2]]
    names the group the position [i] is appended to. *)
Definition group_index (full_datasets : list record)
    (id_dict : dict (list nat)) (i : nat) : result (dict (list nat)) :=
  r <- getitem full_datasets (Z.of_nat i) ;;
  anomaly_type <- getitem (split_slash (image_path r)) (-2) ;;
  let id_dict :=
    if negb (str_in anomaly_type (dict_keys id_dict))
    then dict_set anomaly_type [] id_dict
    else id_dict in
  ids <- dict_get id_dict anomaly_type ;;
  Ok (dict_set anomaly_type (ids ++ [i]) id_dict).

(** Line 90: [[xs[i:i+divide_num] for i in range(0, len(xs), divide_num)]]. *)
Definition devide (type_id_list : list nat) (divide_num : Z)
  : result (list (list nat)) :=
  starts <- range 0 (Z.of_nat (List.length type_id_list)) divide_num ;;
  Ok (map (fun i => slice type_id_list i (i + divide_num)) starts).

(** Line 91: the chunks are visited in order ([devide_list[i]] for [i] in
    [range(len(devide_list))]); a chunk longer than [divide_iter]
    contributes its element at [divide_iter]. *)
Fixpoint pick (devide_list : list (list nat)) (divide_iter : Z)
  : result (list nat) :=
  match devide_list with
  | [] => Ok []
  | chunk :: rest =>
      if (Z.of_nat (List.length chunk) >? divide_iter)%Z then
        x <- getitem chunk divide_iter ;;
        xs <- pick rest divide_iter ;;
        Ok (x :: xs)
      else pick rest divide_iter
  end.

(** The body of the loop of line 87.  [random.shuffle] permutes
    [id_dict[k]] in place; that entry is not read again. *)
Definition sample_group (id_dict : dict (list nat)) (divide_num divide_iter : Z)
    (st : list nat * rng) (k : string) : result (list nat * rng) :=
  let '(sub_id_list, g) := st in
  type_id_list <- dict_get id_dict k ;;
  let '(type_id_list, g) := random_shuffle g type_id_list in
  devide_list <- devide type_id_list divide_num ;;
  sub_list <- pick devide_list divide_iter ;;
  Ok (sub_id_list ++ sub_list, g).

Definition sub_datasets (full_datasets : list record)
    (divide_num divide_iter seed : Z) (w : World)
  : result (list record * World) :=
  if (divide_num =? 0)%Z then Ok (full_datasets, w)
  else
    let w := set_py_random (random_seed seed) w in
    id_dict <-
      foldM (group_index full_datasets) (seq 0 (List.length full_datasets)) [] ;;
    '(sub_id_list, g) <-
      foldM (sample_group id_dict divide_num divide_iter) (dict_keys id_dict)
            ([], py_random w) ;;
    data <- mapM (fun id => getitem full_datasets (Z.of_nat id)) sub_id_list ;;
    Ok (data, set_py_random g w).

(** *** [__init__] *)

Record MVTecDataset : Type := mk_MVTecDataset {
  source : string;
  split : DatasetSplit;
  classnames_to_use : list string;
  imgpaths_per_class : imgpaths;
  data_to_iterate : list record;
  transform_img : image -> tensor scalar;
  transform_mask : image -> tensor scalar;
  imagesize : Z * Z * Z
}.

(** Lines 41 to 43: the subset step. *)
Definition init_subset (data : list record)
    (divide_num divide_iter seed : Z) (w : World)
  : result (list record * World) :=
  if (divide_num >? 1)%Z
  then sub_datasets data divide_num divide_iter seed w
  else Ok (data, w).

(** Lines 45 to 52: the few-shot step. *)
Definition init_few_shot (data : list record) (k_shot seed : Z) (w : World)
  : result (list record * World) :=
  if (k_shot >? 0)%Z then
    let w := set_torch_random (manual_seed seed) w in
    if (k_shot >=? Z.of_nat (List.length data))%Z then Ok (data, w)
    else
      let '(indices, g) :=
        randint (torch_random w) 0 (Z.of_nat (List.length data)) k_shot in
      data <- mapM (getitem data) indices ;;
      Ok (data, set_torch_random g w)
  else Ok (data, w).

Definition __init__ (source : string) (classname : option string)
    (resize imagesize : Z) (split : DatasetSplit)
    (clip_transformer : option (image -> tensor scalar))
    (k_shot seed divide_num divide_iter : Z) (w : World)
  : result (MVTecDataset * World) :=
  let classnames_to_use :=
    match classname with
    | Some c => [c]
    | None => _CLASSNAMES
    end in
  '(imgpaths_per_class, data) <- get_image_data source split classnames_to_use ;;
  '(data, w) <- init_subset data divide_num divide_iter seed w ;;
  '(data, w) <- init_few_shot data k_shot seed w ;;
  let transform_img :=
    match clip_transformer with
    | None =>
        fun img =>
          Normalize IMAGENET_MEAN IMAGENET_STD
            (ToTensor (CenterCrop imagesize (Resize (resize, resize) img)))
    | Some t => t
    end in
  let transform_mask :=
    fun img => ToTensor (CenterCrop imagesize (Resize (resize, resize) img)) in
  Ok (mk_MVTecDataset source split classnames_to_use imgpaths_per_class data
        transform_img transform_mask (3, imagesize, imagesize)%Z,
      w).

(** *** [__getitem__] and [__len__] *)

Definition is_some {A : Type} (o : option A) : bool :=
  match o with
  | Some _ => true
  | None => false
  end.

Definition PIL_Image_open (p : string) : result image :=
  of_option OSError (Image_open p).

Definition __getitem__ (self : MVTecDataset) (idx : Z) (w : World)
  : result (Sample scalar * World) :=
  r <- getitem (data_to_iterate self) idx ;;
  let '(mk_record classname anomaly image_path mask_path) := r in
  image <- PIL_Image_open image_path ;;
  let image := convert image "RGB" in
  let image := transform_img self image in
  let w := print idx w in
  mask <-
    match split_eqb (split self) TEST, mask_path with
    | true, Some mask_path =>
        mask <- PIL_Image_open mask_path ;;
        Ok (transform_mask self mask)
    | _, _ => Ok (torch_zeros (1 :: skipn 1 (size image)))
    end ;;
  Ok (mk_Sample image mask
        (if negb (String.eqb anomaly "good") then 1 else 0)%Z
        image_path,
      w).

Definition __len__ (self : MVTecDataset) : nat :=
  List.length (data_to_iterate self).

(** *** What the environment is assumed to do *)

(** A directory entry is a non-empty name without a separator. *)
Definition valid_name (x : string) : Prop :=
  x <> "" /\ has_slash x = false.

Definition listdir_names_valid : Prop :=
  forall p names, listdir p = Some names -> Forall valid_name names.

(** [random.shuffle] rearranges its argument. *)
Definition shuffle_permutes : Prop :=
  forall g xs, Permutation xs (fst (random_shuffle g xs)).

(** [torch.randint(low, high, (size,))] returns [size] integers of
    [[low, high)]. *)
Definition randint_in_range : Prop :=
  forall g low high n,
    (low < high)%Z -> (0 <= n)%Z ->
    List.length (fst (randint g low high n)) = Z.to_nat n /\
    Forall (fun i => (low <= i < high)%Z) (fst (randint g low high n)).

(** *** Paths of the directory layout *)

Definition class_path (source : string) (split : DatasetSplit) (c : string)
  : string :=
  os_path_join source [c; split_value split].

Definition truth_path (source c : string) : string :=
  os_path_join source [c; "ground_truth"].

Definition anomaly_dir (source : string) (split : DatasetSplit) (c a : string)
  : string :=
  os_path_join (class_path source split c) [a].

Definition mask_dir (source c a : string) : string :=
  os_path_join (truth_path source c) [a].

(** The first loop of [get_image_data] (lines 123 to 155) alone. *)
Definition scan (source : string) (split : DatasetSplit)
    (classnames_to_use : list string) : result (imgpaths * maskpaths) :=
  foldM (scan_class source split) classnames_to_use ([], []).

(** *** The order of the Index *)

Definition str_le (a b : string) : Prop := String.leb a b = true.
Definition str_lt (a b : string) : Prop := String.ltb a b = true.

(** Class first, anomaly type second. *)
Definition group_lt (x y : string * string) : Prop :=
  str_lt (fst x) (fst y) \/ (fst x = fst y /\ str_lt (snd x) (snd y)).

(** A run of the Index: a class, an anomaly type and the file names of
    its records, in the order of the records. *)
Definition run : Type := string * string * list string.

Definition run_key (r : run) : string * string := (fst (fst r), snd (fst r)).

Definition run_records (source : string) (split : DatasetSplit) (r : run)
  : list (string * string * string) :=
  let '(c, a, files) := r in
  map (fun x => (c, a, os_path_join (anomaly_dir source split c a) [x])) files.

Definition record_key (r : record) : string * string * string :=
  (classname r, anomaly r, image_path r).

(** *** The subset step as the specification words it *)

(** The distinct values of a list, in the order of their first
    appearance. *)
Definition first_seen (xs : list string) : list string :=
  fold_left (fun acc x => if str_in x acc then acc else acc ++ [x]) xs [].

(** The positions of the records of anomaly type [t], ascending. *)
Definition positions_of (t : string) (full : list record) : list nat :=
  map fst (filter (fun e => String.eqb (anomaly (snd e)) t) (enumerate full)).

(** "group record indices by anomaly-type". *)
Definition spec_groups (full : list record) : list (list nat) :=
  map (fun t => positions_of t full) (first_seen (map anomaly full)).

(** "partition each group into chunks of size divide_num": consecutive
    chunks, the last one possibly shorter; [fuel] bounds the number of
    chunks. *)
Fixpoint spec_chunks (fuel n : nat) (xs : list nat) : list (list nat) :=
  match fuel, xs with
  | S fuel', _ :: _ => firstn n xs :: spec_chunks fuel' n (skipn n xs)
  | _, _ => []
  end.

(** "keep, from each chunk that has an element at position divide_iter,
    that one element". *)
Definition spec_keep (i : nat) (chunks : list (list nat)) : list nat :=
  flat_map (fun chunk => match nth_error chunk i with
                         | Some x => [x]
                         | None => []
                         end) chunks.

(** "shuffle each group with the given seed", group after group on one
    generator. *)
Fixpoint spec_sample (n i : nat) (groups : list (list nat)) (g : rng)
  : list nat * rng :=
  match groups with
  | [] => ([], g)
  | group :: rest =>
      let '(shuffled, g1) := random_shuffle g group in
      let '(kept, g2) := spec_sample n i rest g1 in
      (spec_keep i (spec_chunks (List.length shuffled) n shuffled) ++ kept, g2)
  end.

(** The positions the subset step keeps. *)
Definition spec_kept (full : list record) (n i : nat) (seed : Z) : list nat :=
  fst (spec_sample n i (spec_groups full) (random_seed seed)).

(** *** The subset step at any integer [divide_iter] *)

(** "each chunk that has an element at position divide_iter", a position
    being read as Python reads it: a chunk has an element at a negative
    position when the position, counted from its end, is one of its
    own. *)
Definition spec_keep_at (i : Z) (chunks : list (list nat)) : list nat :=
  flat_map (fun chunk => match getitem chunk i with
                         | Ok x => [x]
                         | Raise _ => []
                         end) chunks.

Fixpoint spec_sample_at (n : nat) (i : Z) (groups : list (list nat)) (g : rng)
  : list nat * rng :=
  match groups with
  | [] => ([], g)
  | group :: rest =>
      let '(shuffled, g1) := random_shuffle g group in
      let '(kept, g2) := spec_sample_at n i rest g1 in
      (spec_keep_at i (spec_chunks (List.length shuffled) n shuffled) ++ kept, g2)
  end.

Definition spec_kept_at (full : list record) (n : nat) (i : Z) (seed : Z)
  : list nat :=
  fst (spec_sample_at n i (spec_groups full) (random_seed seed)).

(** "the subsetting step groups record indices by anomaly-type, shuffles
    each group with the given seed, partitions each group into consecutive
    chunks of size divide_num, and keeps, from each chunk that has an
    element at position divide_iter, exactly that one element; the
    resulting Index consists of exactly those kept records", for one call
    of the step. *)
Definition subset_as_worded (full : list record)
    (divide_num divide_iter seed : Z) (w : World) : Prop :=
  exists data w',
    init_subset full divide_num divide_iter seed w = Ok (data, w') /\
    Forall2 (fun r i => nth_error full i = Some r) data
            (spec_kept_at full (Z.to_nat divide_num) divide_iter seed).

(** *** The records of an Index *)

(** A record carries a mask path exactly when the scan wanted one. *)
Definition mask_rule (split : DatasetSplit) (r : record) : Prop :=
  is_some (mask_path r) = wants_mask split (anomaly r).

(** *** The scan, class by class *)

(** The paths of the sorted entries of a directory. *)
Definition entry_paths (dir : string) (names : list string) : list string :=
  map (fun x => os_path_join dir [x]) (sorted names).

(** The body of the loop of line 133 on the two inner dicts of the class
    being scanned. *)
Definition scan_anomaly_local (split : DatasetSplit) (classpath maskpath : string)
    (st : class_imgs * class_masks) (anomaly : string)
  : result (class_imgs * class_masks) :=
  let '(imgs, masks) := st in
  let anomaly_path := os_path_join classpath [anomaly] in
  anomaly_files <- os_listdir anomaly_path ;;
  let imgs := dict_set anomaly (entry_paths anomaly_path anomaly_files) imgs in
  if wants_mask split anomaly then
    let anomaly_mask_path := os_path_join maskpath [anomaly] in
    anomaly_mask_files <- os_listdir anomaly_mask_path ;;
    Ok (imgs,
        dict_set anomaly
          (Some (entry_paths anomaly_mask_path anomaly_mask_files)) masks)
  else Ok (imgs, dict_set "good" None masks).

(** The two inner dicts the scan builds for one class. *)
Definition scan_class_local (source : string) (split : DatasetSplit) (c : string)
  : result (class_imgs * class_masks) :=
  anomaly_types <- os_listdir (class_path source split c) ;;
  foldM (scan_anomaly_local split (class_path source split c)
                            (truth_path source c))
        anomaly_types ([], []).

(** What the inner dicts of a class hold once its anomaly types [types]
    are scanned. *)
Definition class_scanned (source : string) (split : DatasetSplit) (c : string)
    (types : list string) (imgs : class_imgs) (masks : class_masks) : Prop :=
  NoDup (dict_keys imgs) /\
  (forall a, In a (dict_keys imgs) <-> In a types) /\
  (forall a, In a types ->
     exists names,
       listdir (anomaly_dir source split c a) = Some names /\
       dict_find a imgs
         = Some (entry_paths (anomaly_dir source split c a) names)) /\
  (forall a, In a types -> wants_mask split a = true ->
     exists names,
       listdir (mask_dir source c a) = Some names /\
       dict_find a masks
         = Some (Some (entry_paths (mask_dir source c a) names))).

(** What the two dicts hold once the classes [classes] are scanned. *)
Definition scanned (source : string) (split : DatasetSplit)
    (classes : list string) (st : imgpaths * maskpaths) : Prop :=
  NoDup (dict_keys (fst st)) /\
  (forall c, In c (dict_keys (fst st)) <-> In c classes) /\
  (forall c, In c classes ->
     exists types imgs masks,
       listdir (class_path source split c) = Some types /\
       dict_find c (fst st) = Some imgs /\
       dict_find c (snd st) = Some masks /\
       class_scanned source split c types imgs masks).

(** Every directory the scan lists exists. *)
Definition listable (source : string) (split : DatasetSplit)
    (classes : list string) : Prop :=
  forall c, In c classes ->
    exists types,
      listdir (class_path source split c) = Some types /\
      forall a, In a types ->
        listdir (anomaly_dir source split c a) <> None /\
        (wants_mask split a = true -> listdir (mask_dir source c a) <> None).

(** *** The Index as a function of the directory tree *)

(** The record of image [i] of an anomaly type with masks. *)
Definition paired_record (c a : string) (masks : list string) (e : nat * string)
  : result record :=
  mask <- getitem masks (Z.of_nat (fst e)) ;;
  Ok (mk_record c a (snd e) (Some mask)).

Definition anomaly_records (source : string) (split : DatasetSplit) (c a : string)
  : result (list record) :=
  names <- os_listdir (anomaly_dir source split c a) ;;
  let paths := entry_paths (anomaly_dir source split c a) names in
  if wants_mask split a then
    mask_names <- os_listdir (mask_dir source c a) ;;
    mapM (paired_record c a (entry_paths (mask_dir source c a) mask_names))
         (enumerate paths)
  else Ok (map (fun p => mk_record c a p None) paths).

Definition class_records (source : string) (split : DatasetSplit) (c : string)
  : result (list record) :=
  types <- os_listdir (class_path source split c) ;;
  rs <- mapM (anomaly_records source split c)
             (sorted (nodup string_dec types)) ;;
  Ok (List.concat rs).

Definition expected_index (source : string) (split : DatasetSplit)
    (classes : list string) : result (list record) :=
  rs <- mapM (class_records source split)
             (sorted (nodup string_dec classes)) ;;
  Ok (List.concat rs).

(** *** The runs of the Index *)

(** The names in a directory; none when it cannot be listed. *)
Definition listing (p : string) : list string :=
  match listdir p with
  | Some names => names
  | None => []
  end.

Definition run_of (source : string) (split : DatasetSplit) (c a : string) : run :=
  (c, a, sorted (listing (anomaly_dir source split c a))).

Definition class_runs (source : string) (split : DatasetSplit) (c : string)
  : list run :=
  map (run_of source split c)
      (sorted (nodup string_dec (listing (class_path source split c)))).

Definition index_runs (source : string) (split : DatasetSplit)
    (classes : list string) : list run :=
  flat_map (class_runs source split) (sorted (nodup string_dec classes)).

(** *** The groups of [sub_datasets] *)

(** The second-to-last component of the image path of a record, the key
    of line 81; empty when the path has no separator. *)
Definition path_type (r : record) : string :=
  match getitem (split_slash (image_path r)) (-2) with
  | Ok t => t
  | Raise _ => ""
  end.

(** The positions of the records whose key is [t], ascending. *)
Definition positions_by (key : record -> string) (t : string)
    (full : list record) : list nat :=
  map fst (filter (fun e => String.eqb (key (snd e)) t) (enumerate full)).

(** [id_dict] after the loop of line 80, for records grouped by [key]. *)
Definition group_dict (key : record -> string) (full : list record)
  : dict (list nat) :=
  map (fun t => (t, positions_by key t full)) (first_seen (map key full)).

(** The number of records of anomaly type [t] in a list of records. *)
Definition count_type (t : string) (data : list record) : nat :=
  List.length (filter (fun r => String.eqb (anomaly r) t) data).

(** The body of the loop of line 87 once [id_dict[k]] is read. *)
Definition sample_ids (divide_num divide_iter : Z) (st : list nat * rng)
    (type_id_list : list nat) : result (list nat * rng) :=
  let '(sub_id_list, g) := st in
  let '(type_id_list, g) := random_shuffle g type_id_list in
  devide_list <- devide type_id_list divide_num ;;
  sub_list <- pick devide_list divide_iter ;;
  Ok (sub_id_list ++ sub_list, g).

(** *** Mask counts, as the specification words them *)

(** "when the number of sorted mask files differs from the number of
    sorted image files, Index construction produces silent positional
    misalignment and does not raise an error", for the anomaly type [a] of
    the class [c]. *)
Definition pairs_silently (source c a : string) : Prop :=
  forall types names mask_names,
    listdir (class_path source TEST c) = Some types ->
    In a types ->
    wants_mask TEST a = true ->
    listdir (anomaly_dir source TEST c a) = Some names ->
    listdir (mask_dir source c a) = Some mask_names ->
    List.length mask_names <> List.length names ->
    exists imgs data, get_image_data source TEST [c] = Ok (imgs, data).

(** ** Facts about the runtime *)

Unset Implicit Arguments.
Set Default Proof Using "Type".

(** Forget the environment before a propositional solver looks at the
    context. *)
Ltac clear_env :=
  try clear Normalize; try clear ToTensor; try clear CenterCrop;
  try clear Resize; try clear convert; try clear Image_open;
  try clear zero; try clear randint; try clear manual_seed;
  try clear random_shuffle; try clear random_seed; try clear listdir;
  try clear scalar; try clear image; try clear tgen; try clear rng.

(** *** The order on strings *)

Lemma ascii_compare_refl (c : ascii) : Ascii.compare c c = Eq.
Proof. unfold Ascii.compare. apply N.compare_refl. Qed.

Lemma ascii_compare_lt_trans (a b c : ascii) :
  Ascii.compare a b = Lt -> Ascii.compare b c = Lt -> Ascii.compare a c = Lt.
Proof.
  unfold Ascii.compare. rewrite !N.compare_lt_iff. apply N.lt_trans.
Qed.

Lemma str_compare_refl (s : string) : String.compare s s = Eq.
Proof.
  induction s as [|c s IH]; simpl; [reflexivity|].
  now rewrite ascii_compare_refl.
Qed.

Lemma str_compare_lt_trans (a b c : string) :
  String.compare a b = Lt -> String.compare b c = Lt -> String.compare a c = Lt.
Proof.
  revert b c. induction a as [|x a IH]; intros [|y b] [|z c]; simpl;
    try discriminate; try reflexivity.
  destruct (Ascii.compare x y) eqn:Hxy; try discriminate.
  - apply Ascii.compare_eq_iff in Hxy. subst y.
    destruct (Ascii.compare x z); try discriminate; eauto.
  - intros _.
    destruct (Ascii.compare y z) eqn:Hyz; try discriminate.
    + apply Ascii.compare_eq_iff in Hyz. subst z. now rewrite Hxy.
    + intros _. now rewrite (ascii_compare_lt_trans _ _ _ Hxy Hyz).
Qed.

Lemma str_le_cases (a b : string) : str_le a b <-> str_lt a b \/ a = b.
Proof.
  unfold str_le, str_lt, String.leb, String.ltb.
  destruct (String.compare a b) eqn:H; split; intros; auto; try discriminate.
  - right. now apply String.compare_eq_iff.
  - destruct H0 as [H0 | H0]; [discriminate|].
    subst b. rewrite str_compare_refl in H. discriminate.
Qed.

Lemma str_lt_irrefl (a : string) : ~ str_lt a a.
Proof.
  unfold str_lt, String.ltb. now rewrite str_compare_refl.
Qed.

Lemma str_lt_trans (a b c : string) : str_lt a b -> str_lt b c -> str_lt a c.
Proof.
  unfold str_lt, String.ltb. intros H1 H2.
  destruct (String.compare a b) eqn:Hab; try discriminate.
  destruct (String.compare b c) eqn:Hbc; try discriminate.
  now rewrite (str_compare_lt_trans _ _ _ Hab Hbc).
Qed.

Lemma str_le_refl (a : string) : str_le a a.
Proof. apply str_le_cases. now right. Qed.

Lemma str_le_trans (a b c : string) : str_le a b -> str_le b c -> str_le a c.
Proof.
  rewrite !str_le_cases. intros [H1 | ->] [H2 | ->]; auto.
  left. eapply str_lt_trans; eassumption.
Qed.

Lemma str_le_antisym (a b : string) : str_le a b -> str_le b a -> a = b.
Proof. apply String.leb_antisym. Qed.

Lemma str_le_total (a b : string) : str_le a b \/ str_le b a.
Proof. apply String.leb_total. Qed.

Lemma leb_false_le (a b : string) : String.leb a b = false -> str_le b a.
Proof.
  intros H. destruct (str_le_total a b) as [H1 | H1]; [|exact H1].
  unfold str_le in H1. congruence.
Qed.

(** *** [sorted] *)

Lemma insert_sorted_perm (x : string) (xs : list string) :
  Permutation (x :: xs) (insert_sorted x xs).
Proof.
  induction xs as [|y ys IH]; simpl; [reflexivity|].
  destruct (String.leb x y); [reflexivity|].
  rewrite perm_swap. now apply perm_skip.
Qed.

Lemma sorted_perm (xs : list string) : Permutation xs (sorted xs).
Proof.
  induction xs as [|x xs IH]; simpl; [constructor|].
  rewrite <- insert_sorted_perm. now apply perm_skip.
Qed.

Lemma sorted_In (xs : list string) (x : string) : In x (sorted xs) <-> In x xs.
Proof.
  split; apply Permutation_in; [symmetry|]; apply sorted_perm.
Qed.

Lemma sorted_length (xs : list string) :
  List.length (sorted xs) = List.length xs.
Proof. symmetry. apply Permutation_length, sorted_perm. Qed.

Lemma insert_sorted_Sorted (x : string) (xs : list string) :
  Sorted str_le xs -> Sorted str_le (insert_sorted x xs).
Proof.
  induction 1 as [|y ys Hs IH Hhd]; simpl.
  - repeat constructor.
  - destruct (String.leb x y) eqn:Hxy.
    + constructor; [now constructor|]. now constructor.
    + constructor; [exact IH|].
      apply leb_false_le in Hxy.
      destruct ys as [|z zs]; simpl.
      * now constructor.
      * inversion Hhd; subst.
        destruct (String.leb x z); now constructor.
Qed.

Lemma sorted_Sorted (xs : list string) : Sorted str_le (sorted xs).
Proof.
  induction xs as [|x xs IH]; simpl; [constructor|].
  now apply insert_sorted_Sorted.
Qed.

Lemma insert_sorted_comm (x y : string) (xs : list string) :
  insert_sorted x (insert_sorted y xs) = insert_sorted y (insert_sorted x xs).
Proof.
  induction xs as [|z zs IH]; simpl.
  - destruct (String.leb x y) eqn:Hxy, (String.leb y x) eqn:Hyx; try reflexivity.
    + now rewrite (String.leb_antisym _ _ Hxy Hyx).
    + apply leb_false_le in Hxy. unfold str_le in Hxy. congruence.
  - destruct (String.leb y z) eqn:Hyz, (String.leb x z) eqn:Hxz; simpl;
      rewrite ?Hyz, ?Hxz;
      destruct (String.leb x y) eqn:Hxy, (String.leb y x) eqn:Hyx;
      try reflexivity;
      try (rewrite (String.leb_antisym _ _ Hxy Hyx) in *; congruence);
      try (apply leb_false_le in Hxy; unfold str_le in Hxy; congruence);
      try (now rewrite IH).
    + assert (str_le x z) by (eapply str_le_trans; eassumption).
      unfold str_le in *. congruence.
    + assert (str_le y z) by (eapply str_le_trans; eassumption).
      unfold str_le in *. congruence.
Qed.

Lemma sorted_of_perm (xs ys : list string) :
  Permutation xs ys -> sorted xs = sorted ys.
Proof.
  induction 1; simpl; try congruence.
  apply insert_sorted_comm.
Qed.

Lemma sorted_same_members (xs ys : list string) :
  NoDup xs -> NoDup ys -> (forall x, In x xs <-> In x ys) ->
  sorted xs = sorted ys.
Proof.
  intros. apply sorted_of_perm. now apply NoDup_Permutation.
Qed.

Lemma sorted_strict (xs : list string) :
  NoDup xs -> StronglySorted str_lt (sorted xs).
Proof.
  intros Hnd.
  assert (Hnd' : NoDup (sorted xs))
    by (eapply Permutation_NoDup; [apply sorted_perm | exact Hnd]).
  assert (Hs : StronglySorted str_le (sorted xs)).
  { apply Sorted_StronglySorted; [|apply sorted_Sorted].
    intros a b c. apply str_le_trans. }
  induction Hs as [|a l Hs IH Hall]; constructor.
  - apply IH. now inversion Hnd'.
  - inversion Hnd' as [|? ? Hnotin _]; subst.
    rewrite Forall_forall in *. intros b Hb.
    destruct (proj1 (str_le_cases a b) (Hall b Hb)) as [Hlt | ->];
      [exact Hlt | contradiction].
Qed.

(** *** The [result] monad *)

Lemma bind_Ok_inv {A B : Type} (r : result A) (k : A -> result B) (b : B) :
  bind r k = Ok b -> exists a, r = Ok a /\ k a = Ok b.
Proof. destruct r; simpl; [eauto | discriminate]. Qed.

Lemma foldM_app {A S : Type} (body : S -> A -> result S) (xs ys : list A) (s : S) :
  foldM body (xs ++ ys) s = bind (foldM body xs s) (foldM body ys).
Proof.
  revert s. induction xs as [|x xs IH]; intros s; simpl; [reflexivity|].
  destruct (body s x); simpl; [apply IH | reflexivity].
Qed.

(** A loop invariant kept by every round holds when the loop returns. *)
Lemma foldM_invariant {A S : Type} (P : S -> Prop) (body : S -> A -> result S)
    (xs : list A) (s s' : S) :
  (forall x t t', In x xs -> P t -> body t x = Ok t' -> P t') ->
  P s -> foldM body xs s = Ok s' -> P s'.
Proof.
  revert s. induction xs as [|x xs IH]; intros s Hstep Hs H; simpl in H.
  - now inversion H; subst.
  - apply bind_Ok_inv in H. destruct H as (t & Hb & H).
    apply (IH t); [| |exact H].
    + intros; eapply Hstep; eauto. now right.
    + eapply Hstep; eauto. now left.
Qed.

Lemma mapM_Ok_Forall2 {A B : Type} (f : A -> result B) (xs : list A) (ys : list B) :
  mapM f xs = Ok ys <-> Forall2 (fun x y => f x = Ok y) xs ys.
Proof.
  revert ys. induction xs as [|x xs IH]; intros ys; simpl.
  - split; intros H; inversion H; subst; [constructor | reflexivity].
  - split.
    + intros H. apply bind_Ok_inv in H. destruct H as (y & Hy & H).
      apply bind_Ok_inv in H. destruct H as (ys' & Hys & H).
      inversion H; subst. constructor; [exact Hy | now apply IH].
    + intros H. inversion H as [|? y ? ys' Hy Hys]; subst.
      rewrite Hy. simpl. apply IH in Hys. now rewrite Hys.
Qed.

(** *** Indexing *)

Lemma getitem_nat {A : Type} (xs : list A) (i : nat) :
  getitem xs (Z.of_nat i) = of_option IndexError (nth_error xs i).
Proof.
  unfold getitem.
  destruct (Z.leb_spec 0 (Z.of_nat i)); [|lia].
  now rewrite Nat2Z.id.
Qed.

Lemma getitem_nonneg {A : Type} (xs : list A) (i : Z) :
  (0 <= i)%Z ->
  getitem xs i = of_option IndexError (nth_error xs (Z.to_nat i)).
Proof.
  intros H. unfold getitem. destruct (Z.leb_spec 0 i); [reflexivity | lia].
Qed.

Lemma getitem_In {A : Type} (xs : list A) (i : Z) (x : A) :
  getitem xs i = Ok x -> In x xs.
Proof.
  unfold getitem.
  destruct (0 <=? i)%Z;
    [|destruct (0 <=? Z.of_nat (List.length xs) + i)%Z; [|discriminate]];
    match goal with
    | |- context [nth_error xs ?n] =>
        destruct (nth_error xs n) eqn:E; simpl; intros H; inversion H; subst;
        eapply nth_error_In; eassumption
    end.
Qed.

(** *** Dictionaries *)

Lemma dict_find_set_same {V : Type} (k : string) (v : V) (d : dict V) :
  dict_find k (dict_set k v d) = Some v.
Proof.
  induction d as [|[k' v'] d IH]; simpl.
  - now rewrite String.eqb_refl.
  - destruct (String.eqb k k') eqn:E; simpl.
    + now rewrite String.eqb_refl.
    + now rewrite E.
Qed.

Lemma dict_find_set_other {V : Type} (k k0 : string) (v : V) (d : dict V) :
  k0 <> k -> dict_find k0 (dict_set k v d) = dict_find k0 d.
Proof.
  intros Hne. induction d as [|[k' v'] d IH]; simpl.
  - apply String.eqb_neq in Hne. now rewrite Hne.
  - destruct (String.eqb k k') eqn:E; simpl.
    + apply String.eqb_eq in E. subst k'.
      apply String.eqb_neq in Hne. now rewrite Hne.
    + destruct (String.eqb k0 k'); [reflexivity | exact IH].
Qed.

Lemma dict_keys_set_In {V : Type} (k k0 : string) (v : V) (d : dict V) :
  In k0 (dict_keys (dict_set k v d)) <-> k0 = k \/ In k0 (dict_keys d).
Proof.
  clear_env.
  unfold dict_keys. induction d as [|[k' v'] d IH]; simpl.
  - intuition.
  - destruct (String.eqb k k') eqn:E; simpl.
    + apply String.eqb_eq in E. subst k'. intuition.
    + rewrite IH. intuition.
Qed.

Lemma dict_keys_set_NoDup {V : Type} (k : string) (v : V) (d : dict V) :
  NoDup (dict_keys d) -> NoDup (dict_keys (dict_set k v d)).
Proof.
  unfold dict_keys. induction d as [|[k' v'] d IH]; simpl; intros H.
  - constructor; [intros [] | constructor].
  - inversion H as [|? ? Hnotin Hnd]; subst.
    destruct (String.eqb k k') eqn:E; simpl.
    + apply String.eqb_eq in E. subst k'. now constructor.
    + constructor; [|now apply IH].
      intros Hin. apply (dict_keys_set_In k k' v d) in Hin.
      destruct Hin as [-> | Hin]; [|contradiction].
      now rewrite String.eqb_refl in E.
Qed.

Lemma dict_find_Some_In {V : Type} (k : string) (v : V) (d : dict V) :
  dict_find k d = Some v -> In k (dict_keys d).
Proof.
  unfold dict_keys. induction d as [|[k' v'] d IH]; simpl; [discriminate|].
  destruct (String.eqb k k') eqn:E.
  - apply String.eqb_eq in E. now left.
  - intros H. right. now apply IH.
Qed.

Lemma dict_find_In_Some {V : Type} (k : string) (d : dict V) :
  In k (dict_keys d) -> exists v, dict_find k d = Some v.
Proof.
  unfold dict_keys. induction d as [|[k' v'] d IH]; simpl; [intros []|].
  destruct (String.eqb k k') eqn:E; [eauto|].
  intros [H | H]; [|now apply IH].
  subst k'. now rewrite String.eqb_refl in E.
Qed.

Lemma dict_set_set {V : Type} (k : string) (v v' : V) (d : dict V) :
  dict_set k v (dict_set k v' d) = dict_set k v d.
Proof.
  induction d as [|[k' u] d IH]; simpl.
  - now rewrite String.eqb_refl.
  - destruct (String.eqb k k') eqn:E; simpl.
    + now rewrite String.eqb_refl.
    + now rewrite E, IH.
Qed.

Lemma dict_set_same {V : Type} (k : string) (v : V) (d : dict V) :
  dict_find k d = Some v -> dict_set k v d = d.
Proof.
  induction d as [|[k' u] d IH]; simpl; [discriminate|].
  destruct (String.eqb k k') eqn:E.
  - apply String.eqb_eq in E. intros H. inversion H. now subst.
  - intros H. now rewrite IH.
Qed.

Lemma str_in_In (x : string) (xs : list string) :
  str_in x xs = true <-> In x xs.
Proof.
  unfold str_in. rewrite existsb_exists. split.
  - intros (y & Hy & E). apply String.eqb_eq in E. now subst.
  - intros H. exists x. split; [exact H | apply String.eqb_refl].
Qed.

Lemma str_in_false (x : string) (xs : list string) :
  str_in x xs = false <-> ~ In x xs.
Proof.
  rewrite <- str_in_In. clear_env. destruct (str_in x xs); intuition congruence.
Qed.

(** ** The records of an Index *)

Lemma wants_mask_iff (split : DatasetSplit) (a : string) :
  wants_mask split a = true <-> split = TEST /\ a <> "good" /\ a <> "fail".
Proof.
  unfold wants_mask, str_in. cbn [existsb]. rewrite orb_false_r.
  rewrite andb_true_iff, negb_true_iff, orb_false_iff, !String.eqb_neq.
  split.
  - intros [Hs Ha]. split; [|exact Ha]. now destruct split.
  - intros [-> Ha]. split; [reflexivity | exact Ha].
Qed.

Lemma is_some_true {A : Type} (o : option A) : is_some o = true <-> o <> None.
Proof.
  destruct o; cbn [is_some]; split; intros H; try reflexivity;
    try discriminate; now elim H.
Qed.

Lemma index_image_rule split masks c a data e data' :
  Forall (mask_rule split) data ->
  index_image split masks c a data e = Ok data' ->
  Forall (mask_rule split) data'.
Proof.
  intros Hdata. unfold index_image. destruct e as [i p].
  destruct (wants_mask split a) eqn:Hw.
  - intros H.
    repeat (apply bind_Ok_inv in H; destruct H as (? & _ & H)).
    inversion H; subst. apply Forall_app. split; [exact Hdata|].
    constructor; [|constructor]. unfold mask_rule. simpl. now rewrite Hw.
  - intros H. inversion H; subst. apply Forall_app. split; [exact Hdata|].
    constructor; [|constructor]. unfold mask_rule. simpl. now rewrite Hw.
Qed.

Lemma index_class_rule split imgs masks data c data' :
  Forall (mask_rule split) data ->
  index_class split imgs masks data c = Ok data' ->
  Forall (mask_rule split) data'.
Proof.
  intros Hdata H. unfold index_class in H.
  apply bind_Ok_inv in H. destruct H as (per_class & _ & H).
  revert H. apply foldM_invariant; [|exact Hdata].
  intros a t t' _ Ht H. unfold index_anomaly in H.
  apply bind_Ok_inv in H. destruct H as (? & _ & H).
  apply bind_Ok_inv in H. destruct H as (paths & _ & H).
  revert H. apply foldM_invariant; [|exact Ht].
  intros e u u' _ Hu. now apply index_image_rule.
Qed.

Lemma get_image_data_rule source split classes imgs data :
  get_image_data source split classes = Ok (imgs, data) ->
  Forall (mask_rule split) data.
Proof.
  unfold get_image_data. intros H.
  apply bind_Ok_inv in H. destruct H as ([imgs' masks] & _ & H).
  apply bind_Ok_inv in H. destruct H as (data' & Hdata & H).
  inversion H; subst.
  revert Hdata. apply foldM_invariant; [|constructor].
  intros c t t' _. apply index_class_rule.
Qed.

(** Both selection steps only pick records of the Index they are given. *)
Lemma mapM_getitem_incl {A : Type} (xs : list A) (is_ : list Z) (ys : list A) :
  mapM (getitem xs) is_ = Ok ys -> incl ys xs.
Proof.
  rewrite mapM_Ok_Forall2. induction 1 as [|i y is' ys' Hy _ IH].
  - intros ? [].
  - intros z [<- | Hz]; [eapply getitem_In; eassumption | now apply IH].
Qed.

Lemma sub_datasets_incl full divide_num divide_iter seed w data w' :
  sub_datasets full divide_num divide_iter seed w = Ok (data, w') ->
  incl data full.
Proof.
  unfold sub_datasets. destruct (divide_num =? 0)%Z.
  - intros H. inversion H; subst. apply incl_refl.
  - intros H.
    apply bind_Ok_inv in H. destruct H as (id_dict & _ & H).
    apply bind_Ok_inv in H. destruct H as ([ids g] & _ & H).
    apply bind_Ok_inv in H. destruct H as (data' & Hdata & H).
    inversion H; subst.
    apply mapM_Ok_Forall2 in Hdata.
    clear - Hdata. induction Hdata as [|i y is' ys' Hy _ IH].
    + intros ? [].
    + intros z [<- | Hz]; [eapply getitem_In; eassumption | now apply IH].
Qed.

Lemma init_subset_incl data divide_num divide_iter seed w data' w' :
  init_subset data divide_num divide_iter seed w = Ok (data', w') ->
  incl data' data.
Proof.
  unfold init_subset. destruct (divide_num >? 1)%Z.
  - apply sub_datasets_incl.
  - intros H. inversion H; subst. apply incl_refl.
Qed.

Lemma init_few_shot_incl data k_shot seed w data' w' :
  init_few_shot data k_shot seed w = Ok (data', w') ->
  incl data' data.
Proof.
  unfold init_few_shot. destruct (k_shot >? 0)%Z.
  - destruct (k_shot >=? Z.of_nat (List.length data))%Z.
    + intros H. inversion H; subst. apply incl_refl.
    + destruct (randint _ _ _ _) as [indices g]. intros H.
      apply bind_Ok_inv in H. destruct H as (ys & Hys & H).
      inversion H; subst. eapply mapM_getitem_incl; eassumption.
  - intros H. inversion H; subst. apply incl_refl.
Qed.

(** The steps of [__init__], read off a successful construction. *)
Lemma init_Ok_inv src classname resize imagesize sp clip
    k_shot seed divide_num divide_iter w ds w' :
  __init__ src classname resize imagesize sp clip
           k_shot seed divide_num divide_iter w = Ok (ds, w') ->
  exists imgs full sub w1,
    get_image_data src sp
      (match classname with Some c => [c] | None => _CLASSNAMES end)
      = Ok (imgs, full) /\
    init_subset full divide_num divide_iter seed w = Ok (sub, w1) /\
    init_few_shot sub k_shot seed w1 = Ok (data_to_iterate ds, w') /\
    split ds = sp.
Proof.
  unfold __init__. intros H.
  apply bind_Ok_inv in H. destruct H as ([imgs full] & Hscan & H).
  apply bind_Ok_inv in H. destruct H as ([sub w1] & Hsub & H).
  apply bind_Ok_inv in H. destruct H as ([data w2] & Hfew & H).
  inversion H; subst. simpl. exists imgs, full, sub, w1. auto.
Qed.

(** ** Composing the steps of [__init__] *)

Lemma init_Ok_intro src classname resize imagesize sp clip
    k_shot seed divide_num divide_iter w imgs full sub w1 data w' :
  get_image_data src sp
    (match classname with Some c => [c] | None => _CLASSNAMES end)
    = Ok (imgs, full) ->
  init_subset full divide_num divide_iter seed w = Ok (sub, w1) ->
  init_few_shot sub k_shot seed w1 = Ok (data, w') ->
  exists ds,
    __init__ src classname resize imagesize sp clip
             k_shot seed divide_num divide_iter w = Ok (ds, w') /\
    data_to_iterate ds = data /\ split ds = sp.
Proof.
  intros Hfull Hsub Hfew. unfold __init__.
  rewrite Hfull. cbn [bind]. rewrite Hsub. cbn [bind]. rewrite Hfew. cbn [bind].
  eexists. split; [reflexivity|]. split; reflexivity.
Qed.

(** ** [__getitem__] *)

Lemma getitem_within {A : Type} (xs : list A) (i : Z) :
  (0 <= i < Z.of_nat (List.length xs))%Z ->
  exists x, nth_error xs (Z.to_nat i) = Some x /\ getitem xs i = Ok x.
Proof.
  intros Hi. rewrite getitem_nonneg by lia.
  destruct (nth_error xs (Z.to_nat i)) as [x|] eqn:E.
  - exists x. split; reflexivity.
  - apply nth_error_None in E. lia.
Qed.

Lemma getitem_unfold self idx w r img :
  getitem (data_to_iterate self) idx = Ok r ->
  Image_open (image_path r) = Some img ->
  __getitem__ self idx w
  = bind (match split_eqb (split self) TEST, mask_path r with
          | true, Some p =>
              bind (PIL_Image_open p) (fun m => Ok (transform_mask self m))
          | _, _ =>
              Ok (torch_zeros
                    (1 :: skipn 1 (size (transform_img self (convert img "RGB")))))
          end)
         (fun mask =>
            Ok (mk_Sample (transform_img self (convert img "RGB")) mask
                  (if negb (String.eqb (anomaly r) "good") then 1 else 0)%Z
                  (image_path r),
                print idx w)).
Proof.
  intros Hr Himg. unfold __getitem__. rewrite Hr. cbn [bind].
  destruct r as [c a p m]. cbn [image_path mask_path anomaly] in *.
  unfold PIL_Image_open at 1. rewrite Himg. cbn [of_option bind].
  reflexivity.
Qed.

Lemma split_eqb_TEST sp : split_eqb sp TEST = true <-> sp = TEST.
Proof. destruct sp; cbn; split; intros H; try reflexivity; discriminate. Qed.


(** ** The first loop of [get_image_data] *)

Lemma scan_anomaly_factor sp c cp mp imgs masks
    (inner : class_imgs) (minner : class_masks) a :
  dict_find c imgs = Some inner ->
  dict_find c masks = Some minner ->
  scan_anomaly sp c cp mp (imgs, masks) a
  = bind (scan_anomaly_local sp cp mp (inner, minner) a)
         (fun st => Ok (dict_set c (fst st) imgs, dict_set c (snd st) masks)).
Proof.
  intros Hi Hm. unfold scan_anomaly, scan_anomaly_local, entry_paths.
  destruct (os_listdir (os_path_join cp [a])) as [files|e]; cbn [bind];
    [|reflexivity].
  unfold dict_set2, dict_get. rewrite Hi. cbn [bind of_option].
  destruct (wants_mask sp a).
  - destruct (os_listdir (os_path_join mp [a])) as [mfiles|e]; cbn [bind];
      [|reflexivity].
    rewrite Hm. reflexivity.
  - rewrite Hm. reflexivity.
Qed.

Lemma foldM_scan_anomaly_factor sp c cp mp types :
  forall imgs masks (inner : class_imgs) (minner : class_masks),
    dict_find c imgs = Some inner ->
    dict_find c masks = Some minner ->
    foldM (scan_anomaly sp c cp mp) types (imgs, masks)
    = bind (foldM (scan_anomaly_local sp cp mp) types (inner, minner))
           (fun st => Ok (dict_set c (fst st) imgs, dict_set c (snd st) masks)).
Proof.
  induction types as [|a types IH]; intros imgs masks inner minner Hi Hm;
    cbn [foldM bind fst snd].
  - now rewrite !dict_set_same.
  - rewrite (scan_anomaly_factor sp c cp mp imgs masks inner minner a Hi Hm).
    destruct (scan_anomaly_local sp cp mp (inner, minner) a) as [[i1 m1]|e];
      cbn [bind fst snd]; [|reflexivity].
    rewrite (IH _ _ i1 m1) by apply dict_find_set_same.
    destruct (foldM _ types (i1, m1)) as [[i2 m2]|e]; cbn [bind fst snd];
      [|reflexivity].
    now rewrite !dict_set_set.
Qed.

Lemma scan_class_factor source sp imgs masks c :
  scan_class source sp (imgs, masks) c
  = bind (scan_class_local source sp c)
         (fun st => Ok (dict_set c (fst st) imgs, dict_set c (snd st) masks)).
Proof.
  unfold scan_class, scan_class_local, class_path, truth_path.
  destruct (os_listdir _) as [types|e]; cbn [bind]; [|reflexivity].
  rewrite (foldM_scan_anomaly_factor sp c _ _ types
             (dict_set c [] imgs) (dict_set c [] masks) [] [])
    by apply dict_find_set_same.
  destruct (foldM _ types _) as [[i m]|e]; cbn [bind fst snd]; [|reflexivity].
  now rewrite !dict_set_set.
Qed.

Lemma os_listdir_Ok p names : os_listdir p = Ok names <-> listdir p = Some names.
Proof.
  unfold os_listdir. destruct (listdir p); simpl; split; congruence.
Qed.

Lemma scan_anomaly_local_scanned source sp c done imgs masks a imgs' masks' :
  class_scanned source sp c done imgs masks ->
  scan_anomaly_local sp (class_path source sp c) (truth_path source c)
                     (imgs, masks) a = Ok (imgs', masks') ->
  class_scanned source sp c (done ++ [a]) imgs' masks'.
Proof.
  intros (Hnd & Hkeys & Himgs & Hmasks) H.
  unfold scan_anomaly_local in H.
  apply bind_Ok_inv in H. destruct H as (names & Hnames & H).
  apply os_listdir_Ok in Hnames.
  assert (Hcommon :
    forall imgs1, imgs1 = dict_set a (entry_paths (anomaly_dir source sp c a) names) imgs ->
      NoDup (dict_keys imgs1) /\
      (forall x, In x (dict_keys imgs1) <-> In x (done ++ [a])) /\
      (forall x, In x (done ++ [a]) ->
         exists l, listdir (anomaly_dir source sp c x) = Some l /\
           dict_find x imgs1 = Some (entry_paths (anomaly_dir source sp c x) l))).
  { intros imgs1 ->. split; [now apply dict_keys_set_NoDup|]. split.
    - intros x. rewrite dict_keys_set_In, in_app_iff, Hkeys. simpl. clear_env. intuition.
    - intros x Hx. destruct (string_dec x a) as [->|Hne].
      + exists names. split; [exact Hnames | apply dict_find_set_same].
      + rewrite dict_find_set_other by exact Hne.
        apply Himgs. apply in_app_iff in Hx. destruct Hx as [Hx | [Hx | []]];
          [exact Hx | congruence]. }
  fold (anomaly_dir source sp c a) in H.
  destruct (wants_mask sp a) eqn:Hw.
  - apply bind_Ok_inv in H. destruct H as (mnames & Hmnames & H).
    apply os_listdir_Ok in Hmnames. inversion H; subst imgs' masks'.
    destruct (Hcommon _ eq_refl) as (H1 & H2 & H3).
    repeat split; auto; try apply H2.
    intros x Hx Hwx. destruct (string_dec x a) as [->|Hne].
    + exists mnames. split; [exact Hmnames | apply dict_find_set_same].
    + rewrite dict_find_set_other by exact Hne.
      apply Hmasks; [|exact Hwx]. apply in_app_iff in Hx.
      destruct Hx as [Hx | [Hx | []]]; [exact Hx | congruence].
  - inversion H; subst imgs' masks'.
    destruct (Hcommon _ eq_refl) as (H1 & H2 & H3).
    repeat split; auto; try apply H2.
    intros x Hx Hwx.
    assert (x <> "good") by (apply wants_mask_iff in Hwx; clear_env; tauto).
    rewrite dict_find_set_other by assumption.
    apply Hmasks; [|exact Hwx]. apply in_app_iff in Hx.
    destruct Hx as [Hx | [Hx | []]]; [exact Hx | congruence].
Qed.

Lemma foldM_scan_anomaly_local_scanned source sp c types :
  forall done imgs masks imgs' masks',
    class_scanned source sp c done imgs masks ->
    foldM (scan_anomaly_local sp (class_path source sp c) (truth_path source c))
          types (imgs, masks) = Ok (imgs', masks') ->
    class_scanned source sp c (done ++ types) imgs' masks'.
Proof.
  induction types as [|a types IH]; intros done imgs masks imgs' masks' Hinv H;
    simpl in H.
  - inversion H; subst. now rewrite app_nil_r.
  - apply bind_Ok_inv in H. destruct H as ([i1 m1] & Hstep & H).
    replace (done ++ a :: types) with ((done ++ [a]) ++ types)
      by now rewrite <- app_assoc.
    eapply IH; [|exact H].
    eapply scan_anomaly_local_scanned; eassumption.
Qed.

Lemma scan_class_local_scanned source sp c imgs masks :
  scan_class_local source sp c = Ok (imgs, masks) ->
  exists types,
    listdir (class_path source sp c) = Some types /\
    class_scanned source sp c types imgs masks.
Proof.
  unfold scan_class_local. intros H.
  apply bind_Ok_inv in H. destruct H as (types & Htypes & H).
  apply os_listdir_Ok in Htypes. exists types. split; [exact Htypes|].
  apply (foldM_scan_anomaly_local_scanned source sp c types [] [] []) in H;
    [exact H|].
  clear_env; repeat split; simpl; try tauto; try constructor.
Qed.

Lemma scan_class_scanned source sp done st c st' :
  scanned source sp done st ->
  scan_class source sp st c = Ok st' ->
  scanned source sp (done ++ [c]) st'.
Proof.
  destruct st as [imgs masks]. intros (Hnd & Hkeys & Hcls) H.
  rewrite scan_class_factor in H.
  apply bind_Ok_inv in H. destruct H as ([i1 m1] & Hlocal & H).
  inversion H; subst st'. simpl in *.
  apply scan_class_local_scanned in Hlocal.
  destruct Hlocal as (types & Htypes & Hscanned).
  split; [now apply dict_keys_set_NoDup|]. split.
  - intros x. simpl. rewrite dict_keys_set_In, in_app_iff, Hkeys. simpl.
    clear_env. intuition.
  - intros x Hx. simpl. destruct (string_dec x c) as [->|Hne].
    + exists types, i1, m1. rewrite !dict_find_set_same. auto.
    + rewrite !dict_find_set_other by exact Hne.
      apply Hcls. apply in_app_iff in Hx.
      destruct Hx as [Hx | [Hx | []]]; [exact Hx | congruence].
Qed.

Lemma foldM_scan_class_scanned source sp classes :
  forall done st st',
    scanned source sp done st ->
    foldM (scan_class source sp) classes st = Ok st' ->
    scanned source sp (done ++ classes) st'.
Proof.
  induction classes as [|c classes IH]; intros done st st' Hinv H; simpl in H.
  - inversion H; subst. now rewrite app_nil_r.
  - apply bind_Ok_inv in H. destruct H as (st1 & Hstep & H).
    replace (done ++ c :: classes) with ((done ++ [c]) ++ classes)
      by now rewrite <- app_assoc.
    eapply IH; [|exact H].
    eapply scan_class_scanned; eassumption.
Qed.

Lemma scan_scanned source sp classes st :
  scan source sp classes = Ok st -> scanned source sp classes st.
Proof.
  intros H. apply (foldM_scan_class_scanned source sp classes [] ([], [])) in H;
    [exact H|].
  clear_env; repeat split; simpl; try tauto; try constructor.
Qed.

Lemma scanned_listable source sp classes st :
  scanned source sp classes st -> listable source sp classes.
Proof.
  intros (_ & _ & Hcls) c Hc.
  destruct (Hcls c Hc) as (types & imgs & masks & Htypes & _ & _ & Hs).
  destruct Hs as (_ & _ & Himgs & Hmasks).
  exists types. split; [exact Htypes|]. intros a Ha. split.
  - destruct (Himgs a Ha) as (l & -> & _). discriminate.
  - intros Hw. destruct (Hmasks a Ha Hw) as (l & -> & _). discriminate.
Qed.

Lemma foldM_scan_anomaly_local_succeeds source sp c types :
  (forall a, In a types ->
     listdir (anomaly_dir source sp c a) <> None /\
     (wants_mask sp a = true -> listdir (mask_dir source c a) <> None)) ->
  forall st, exists st',
    foldM (scan_anomaly_local sp (class_path source sp c) (truth_path source c))
          types st = Ok st'.
Proof.
  induction types as [|a types IH]; intros Hok st; simpl; [eauto|].
  destruct (Hok a (or_introl eq_refl)) as [Hdir Hmask].
  assert (exists st1,
    scan_anomaly_local sp (class_path source sp c) (truth_path source c) st a
    = Ok st1) as [st1 Hst1].
  { destruct st as [imgs masks]. unfold scan_anomaly_local, os_listdir.
    fold (anomaly_dir source sp c a). fold (mask_dir source c a).
    destruct (listdir (anomaly_dir source sp c a)); [|congruence]. simpl.
    destruct (wants_mask sp a); [|eauto].
    destruct (listdir (mask_dir source c a)); [|now exfalso; apply Hmask].
    simpl. eauto. }
  rewrite Hst1. simpl. apply IH. intros; apply Hok; now right.
Qed.

Lemma listable_scan source sp classes :
  listable source sp classes ->
  forall st, exists st', foldM (scan_class source sp) classes st = Ok st'.
Proof.
  induction classes as [|c classes IH]; intros Hok st; simpl; [eauto|].
  destruct (Hok c (or_introl eq_refl)) as (types & Htypes & Hall).
  destruct st as [imgs masks]. rewrite scan_class_factor.
  unfold scan_class_local, os_listdir. rewrite Htypes. simpl.
  destruct (foldM_scan_anomaly_local_succeeds source sp c types Hall ([], []))
    as [st1 ->]. simpl.
  apply IH. intros x Hx. apply Hok. now right.
Qed.

(** ** The second loop of [get_image_data] *)

Lemma foldM_extend_mapM {A B : Type} (f : A -> result (list B))
    (body : list B -> A -> result (list B)) (xs : list A) :
  (forall data x, In x xs ->
     body data x = bind (f x) (fun rs => Ok (data ++ rs))) ->
  forall data,
    foldM body xs data
    = bind (mapM f xs) (fun rss => Ok (data ++ List.concat rss)).
Proof.
  induction xs as [|x xs IH]; intros Hbody data; cbn [foldM mapM bind].
  - now rewrite app_nil_r.
  - rewrite (Hbody data x (or_introl eq_refl)).
    destruct (f x) as [rs|e]; cbn [bind]; [|reflexivity].
    rewrite IH by (intros; apply Hbody; now right).
    destruct (mapM f xs) as [rss|e]; cbn [bind]; [|reflexivity].
    cbn [List.concat]. now rewrite app_assoc.
Qed.

Lemma foldM_append_mapM {A B : Type} (f : A -> result B)
    (body : list B -> A -> result (list B)) (xs : list A) :
  (forall data x, In x xs ->
     body data x = bind (f x) (fun r => Ok (data ++ [r]))) ->
  forall data,
    foldM body xs data = bind (mapM f xs) (fun rs => Ok (data ++ rs)).
Proof.
  induction xs as [|x xs IH]; intros Hbody data; cbn [foldM mapM bind].
  - now rewrite app_nil_r.
  - rewrite (Hbody data x (or_introl eq_refl)).
    destruct (f x) as [r|e]; cbn [bind]; [|reflexivity].
    rewrite IH by (intros; apply Hbody; now right).
    destruct (mapM f xs) as [rs|e]; cbn [bind]; [|reflexivity].
    now rewrite <- app_assoc.
Qed.

Lemma mapM_pure {A B : Type} (f : A -> B) (xs : list A) :
  mapM (fun x => Ok (f x)) xs = Ok (map f xs).
Proof.
  induction xs as [|x xs IH]; cbn [mapM bind map]; [reflexivity|].
  now rewrite IH.
Qed.

Lemma map_snd_enumerate {A : Type} (xs : list A) : map snd (enumerate xs) = xs.
Proof.
  unfold enumerate. generalize 0.
  induction xs as [|x xs IH]; intros n; simpl; [reflexivity|].
  now rewrite IH.
Qed.

Lemma index_anomaly_records source sp c types inner minner imgs masks data a :
  dict_find c imgs = Some inner ->
  dict_find c masks = Some minner ->
  class_scanned source sp c types inner minner ->
  In a types ->
  index_anomaly sp imgs masks c data a
  = bind (anomaly_records source sp c a) (fun rs => Ok (data ++ rs)).
Proof.
  intros Hi Hm (_ & _ & Himgs & Hmasks) Ha.
  destruct (Himgs a Ha) as (names & Hnames & Hfind).
  unfold index_anomaly, anomaly_records, dict_get, os_listdir.
  rewrite Hi, Hnames. cbn [of_option bind]. rewrite Hfind. cbn [of_option bind].
  destruct (wants_mask sp a) eqn:Hw.
  - destruct (Hmasks a Ha Hw) as (mnames & Hmnames & Hmfind).
    rewrite Hmnames. cbn [of_option bind].
    apply foldM_append_mapM. intros d [i p] _.
    unfold index_image, paired_record, dict_get. rewrite Hw, Hm.
    cbn [of_option bind fst snd]. rewrite Hmfind. cbn [of_option bind].
    destruct (getitem _ _); reflexivity.
  - rewrite (foldM_append_mapM
               (fun e => Ok (mk_record c a (snd e) None))).
    + rewrite mapM_pure. cbn [bind].
      rewrite <- (map_snd_enumerate (entry_paths _ names)) at 2.
      now rewrite map_map.
    + intros d [i p] _. unfold index_image. now rewrite Hw.
Qed.

Lemma index_class_records source sp classes imgs masks data c :
  scanned source sp classes (imgs, masks) ->
  In c classes ->
  index_class sp imgs masks data c
  = bind (class_records source sp c) (fun rs => Ok (data ++ rs)).
Proof.
  intros (_ & _ & Hcls) Hc.
  destruct (Hcls c Hc) as (types & inner & minner & Htypes & Hi & Hm & Hs).
  cbn [fst snd] in Hi, Hm.
  unfold index_class, class_records, dict_get, os_listdir.
  rewrite Hi, Htypes. cbn [of_option bind].
  assert (Hkeys : sorted (dict_keys inner) = sorted (nodup string_dec types)).
  { destruct Hs as (Hnd & Hkeys & _).
    apply sorted_same_members; [exact Hnd | apply NoDup_nodup|].
    intros x. now rewrite Hkeys, nodup_In. }
  rewrite Hkeys.
  rewrite (foldM_extend_mapM (anomaly_records source sp c)).
  - destruct (mapM _ _); reflexivity.
  - intros d a Ha. apply sorted_In, nodup_In in Ha.
    eapply index_anomaly_records; eassumption.
Qed.

Lemma index_expected source sp classes imgs masks :
  scanned source sp classes (imgs, masks) ->
  foldM (index_class sp imgs masks) (sorted (dict_keys imgs)) []
  = expected_index source sp classes.
Proof.
  intros Hs. unfold expected_index.
  assert (Hkeys : sorted (dict_keys imgs) = sorted (nodup string_dec classes)).
  { destruct Hs as (Hnd & Hkeys & _). cbn [fst] in *.
    apply sorted_same_members; [exact Hnd | apply NoDup_nodup|].
    intros x. now rewrite Hkeys, nodup_In. }
  rewrite Hkeys.
  rewrite (foldM_extend_mapM (class_records source sp)).
  - destruct (mapM _ _); reflexivity.
  - intros d c Hc. apply sorted_In, nodup_In in Hc.
    eapply index_class_records; eassumption.
Qed.

(** [get_image_data] is the scan followed by the Index of the tree. *)
Lemma get_image_data_expected source sp classes :
  get_image_data source sp classes
  = bind (scan source sp classes)
         (fun st => bind (expected_index source sp classes)
                         (fun data => Ok (fst st, data))).
Proof.
  unfold get_image_data. fold (scan source sp classes).
  destruct (scan source sp classes) as [[imgs masks]|e] eqn:Hscan;
    cbn [bind fst]; [|reflexivity].
  now rewrite (index_expected source sp classes imgs masks (scan_scanned _ _ _ _ Hscan)).
Qed.

(** ** The order of the Index *)

Lemma flat_map_map {A B C : Type} (f : B -> list C) (g : A -> B) (xs : list A) :
  flat_map f (map g xs) = flat_map (fun x => f (g x)) xs.
Proof.
  induction xs as [|x xs IH]; simpl; [reflexivity | now rewrite IH].
Qed.

Lemma flat_map_flat_map {A B C : Type} (f : B -> list C) (g : A -> list B)
    (xs : list A) :
  flat_map f (flat_map g xs) = flat_map (fun x => flat_map f (g x)) xs.
Proof.
  induction xs as [|x xs IH]; simpl; [reflexivity|].
  now rewrite flat_map_app, IH.
Qed.

Lemma mapM_concat_keys {A : Type} (f : A -> result (list record))
    (h : A -> list (string * string * string)) (xs : list A) :
  forall rss,
    mapM f xs = Ok rss ->
    (forall x rs, In x xs -> f x = Ok rs -> map record_key rs = h x) ->
    map record_key (List.concat rss) = flat_map h xs.
Proof.
  induction xs as [|x xs IH]; intros rss H Hh; cbn [mapM] in H.
  - inversion H; subst. reflexivity.
  - apply bind_Ok_inv in H. destruct H as (rs & Hrs & H).
    apply bind_Ok_inv in H. destruct H as (rss' & Hrss & H).
    inversion H; subst. cbn [List.concat flat_map].
    rewrite map_app, (Hh x rs (or_introl eq_refl) Hrs).
    f_equal. apply IH; [exact Hrss|]. intros; eapply Hh; eauto. now right.
Qed.

Lemma mapM_paired_keys c a masks es rs :
  mapM (paired_record c a masks) es = Ok rs ->
  map record_key rs = map (fun e => (c, a, snd e)) es.
Proof.
  revert rs. induction es as [|e es IH]; intros rs H; cbn [mapM] in H.
  - inversion H; subst. reflexivity.
  - apply bind_Ok_inv in H. destruct H as (r & Hr & H).
    apply bind_Ok_inv in H. destruct H as (rs' & Hrs & H).
    inversion H; subst. unfold paired_record in Hr.
    apply bind_Ok_inv in Hr. destruct Hr as (m & _ & Hr).
    inversion Hr; subst. cbn [map]. now rewrite (IH rs' Hrs).
Qed.

Lemma listing_Some p names : listdir p = Some names -> listing p = names.
Proof. unfold listing. now intros ->. Qed.

Lemma anomaly_records_keys source sp c a rs :
  anomaly_records source sp c a = Ok rs ->
  map record_key rs = run_records source sp (run_of source sp c a).
Proof.
  unfold anomaly_records. intros H.
  apply bind_Ok_inv in H. destruct H as (names & Hnames & H).
  apply os_listdir_Ok in Hnames.
  unfold run_of, run_records. rewrite (listing_Some _ _ Hnames).
  destruct (wants_mask sp a).
  - apply bind_Ok_inv in H. destruct H as (mnames & _ & H).
    apply mapM_paired_keys in H. rewrite H.
    rewrite <- (map_map snd (fun p => (c, a, p))), map_snd_enumerate.
    unfold entry_paths. now rewrite map_map.
  - inversion H; subst. unfold entry_paths. now rewrite !map_map.
Qed.

Lemma class_records_keys source sp c rs :
  class_records source sp c = Ok rs ->
  map record_key rs = flat_map (run_records source sp) (class_runs source sp c).
Proof.
  unfold class_records. intros H.
  apply bind_Ok_inv in H. destruct H as (types & Htypes & H).
  apply os_listdir_Ok in Htypes.
  apply bind_Ok_inv in H. destruct H as (rss & Hrss & H).
  inversion H; subst. unfold class_runs.
  rewrite (listing_Some _ _ Htypes), flat_map_map.
  eapply mapM_concat_keys; [exact Hrss|].
  intros a rs _. apply anomaly_records_keys.
Qed.

Lemma expected_index_keys source sp classes data :
  expected_index source sp classes = Ok data ->
  map record_key data
  = flat_map (run_records source sp) (index_runs source sp classes).
Proof.
  unfold expected_index. intros H.
  apply bind_Ok_inv in H. destruct H as (rss & Hrss & H).
  inversion H; subst. unfold index_runs. rewrite flat_map_flat_map.
  eapply mapM_concat_keys; [exact Hrss|].
  intros c rs _. apply class_records_keys.
Qed.

Lemma StronglySorted_app {A : Type} (R : A -> A -> Prop) (xs ys : list A) :
  StronglySorted R xs -> StronglySorted R ys ->
  (forall x y, In x xs -> In y ys -> R x y) ->
  StronglySorted R (xs ++ ys).
Proof.
  induction 1 as [|x xs Hxs IH Hall]; intros Hys Hcross; simpl; [exact Hys|].
  constructor.
  - apply IH; [exact Hys|]. intros; apply Hcross; simpl; auto.
  - apply Forall_app. split; [exact Hall|].
    apply Forall_forall. intros y Hy. apply Hcross; simpl; auto.
Qed.

Lemma class_runs_key source sp c r :
  In r (class_runs source sp c) ->
  fst (run_key r) = c /\
  In (snd (run_key r)) (listing (class_path source sp c)).
Proof.
  unfold class_runs. rewrite in_map_iff. intros (a & <- & Ha).
  apply sorted_In, nodup_In in Ha. now split.
Qed.

Lemma class_runs_sorted source sp c :
  StronglySorted group_lt (map run_key (class_runs source sp c)).
Proof.
  unfold class_runs. rewrite map_map.
  assert (H : StronglySorted str_lt
                (sorted (nodup string_dec (listing (class_path source sp c)))))
    by apply sorted_strict, NoDup_nodup.
  induction H as [|a l Hl IH Hall]; simpl; constructor; [exact IH|].
  rewrite Forall_map. revert Hall. apply Forall_impl.
  intros b Hab. right. now split.
Qed.

Lemma index_runs_sorted source sp classes :
  StronglySorted group_lt (map run_key (index_runs source sp classes)).
Proof.
  unfold index_runs.
  assert (H : StronglySorted str_lt (sorted (nodup string_dec classes)))
    by apply sorted_strict, NoDup_nodup.
  induction H as [|c l Hl IH Hall]; simpl; [constructor|].
  rewrite map_app. apply StronglySorted_app; [apply class_runs_sorted | exact IH|].
  intros x y Hx Hy.
  apply in_map_iff in Hx. destruct Hx as (rx & <- & Hrx).
  apply in_map_iff in Hy. destruct Hy as (ry & <- & Hry).
  apply class_runs_key in Hrx. destruct Hrx as [Hcx _].
  apply in_flat_map in Hry. destruct Hry as (c' & Hc' & Hry).
  apply class_runs_key in Hry. destruct Hry as [Hcy _].
  left. rewrite Hcx, Hcy.
  rewrite Forall_forall in Hall. now apply Hall.
Qed.

Lemma index_runs_In source sp classes r :
  In r (index_runs source sp classes) <->
  exists c a,
    In c classes /\ In a (listing (class_path source sp c)) /\
    r = run_of source sp c a.
Proof.
  unfold index_runs, class_runs. rewrite in_flat_map. split.
  - intros (c & Hc & Hr). apply sorted_In, nodup_In in Hc.
    apply in_map_iff in Hr. destruct Hr as (a & <- & Ha).
    apply sorted_In, nodup_In in Ha. eauto.
  - intros (c & a & Hc & Ha & ->). exists c. split.
    + now apply sorted_In, nodup_In.
    + apply in_map. now apply sorted_In, nodup_In.
Qed.

(** ** Paths *)

Lemma has_slash_app (s t : string) :
  has_slash (s ++ t) = has_slash s || has_slash t.
Proof.
  induction s as [|c s IH]; cbn [String.append has_slash]; [reflexivity|].
  now rewrite IH, orb_assoc.
Qed.

Lemma startswith_has_slash (s : string) :
  startswith_slash s = true -> has_slash s = true.
Proof.
  destruct s as [|c s]; cbn [startswith_slash has_slash]; [discriminate|].
  now intros ->.
Qed.

Lemma endswith_has_slash (s : string) :
  endswith_slash s = true -> has_slash s = true.
Proof.
  induction s as [|c s IH]; cbn [endswith_slash has_slash]; [discriminate|].
  destruct s as [|d s].
  - intros ->. reflexivity.
  - intros H. rewrite (IH H). apply orb_true_r.
Qed.

Lemma endswith_slash_app (s t : string) :
  t <> "" -> endswith_slash (s ++ t) = endswith_slash t.
Proof.
  intros Ht. induction s as [|c s IH]; cbn [String.append]; [reflexivity|].
  cbn [endswith_slash]. destruct (s ++ t)%string as [|d u] eqn:E.
  - destruct s; [cbn in E; contradiction | discriminate].
  - exact IH.
Qed.

Lemma append_nonempty_r (s t : string) : t <> "" -> (s ++ t)%string <> "".
Proof.
  intros Ht. destruct s; cbn [String.append]; [exact Ht | discriminate].
Qed.

Lemma join2_nonempty (p b : string) : b <> "" -> join2 p b <> "".
Proof.
  intros Hb. unfold join2. destruct (startswith_slash b); [exact Hb|].
  destruct (_ || _); apply append_nonempty_r; [exact Hb | discriminate].
Qed.

Lemma join2_has_slash (p b : string) : p <> "" -> has_slash (join2 p b) = true.
Proof.
  intros Hp. unfold join2.
  destruct (startswith_slash b) eqn:Hb; [now apply startswith_has_slash|].
  destruct (String.eqb_spec p ""); [contradiction|]. cbn [orb].
  destruct (endswith_slash p) eqn:He; rewrite has_slash_app.
  - now rewrite (endswith_has_slash p He).
  - cbn [has_slash]. rewrite Ascii.eqb_refl. cbn [orb]. apply orb_true_r.
Qed.

Lemma join2_plain (p b : string) :
  p <> "" -> endswith_slash p = false -> has_slash b = false ->
  join2 p b = (p ++ String slash b)%string.
Proof.
  intros Hp He Hb. unfold join2.
  destruct (startswith_slash b) eqn:Hs.
  - apply startswith_has_slash in Hs. congruence.
  - destruct (String.eqb_spec p ""); [contradiction|]. now rewrite He.
Qed.

Lemma split_value_plain sp :
  split_value sp <> "" /\ endswith_slash (split_value sp) = false /\
  startswith_slash (split_value sp) = false.
Proof. destruct sp; cbn; repeat split; discriminate. Qed.

Lemma class_path_shape source sp c :
  class_path source sp c <> "" /\ endswith_slash (class_path source sp c) = false.
Proof.
  unfold class_path, os_path_join. cbn [fold_left].
  destruct (split_value_plain sp) as (Hne & Hend & Hstart).
  split; [now apply join2_nonempty|].
  unfold join2 at 1. rewrite Hstart.
  destruct (_ || _).
  - now rewrite endswith_slash_app.
  - rewrite endswith_slash_app by discriminate.
    cbn [endswith_slash]. destruct (split_value sp); [now elim Hne | exact Hend].
Qed.

Lemma split_slash_nonempty (s : string) : split_slash s <> [].
Proof.
  destruct s as [|c s]; cbn [split_slash]; [discriminate|].
  destruct (Ascii.eqb c slash); [discriminate|].
  destruct (split_slash s); discriminate.
Qed.

Lemma split_slash_plain (s : string) : has_slash s = false -> split_slash s = [s].
Proof.
  induction s as [|c s IH]; cbn [has_slash split_slash]; [reflexivity|].
  intros H. apply orb_false_iff in H. destruct H as [Hc Hs].
  rewrite Hc, (IH Hs). reflexivity.
Qed.

Lemma split_slash_app (p q : string) :
  split_slash (p ++ String slash q) = split_slash p ++ split_slash q.
Proof.
  induction p as [|c p IH]; cbn [String.append split_slash].
  - unfold slash at 1. now rewrite Ascii.eqb_refl.
  - destruct (Ascii.eqb c slash); rewrite IH; [reflexivity|].
    destruct (split_slash p) as [|piece more] eqn:E;
      [now elim (split_slash_nonempty p)|].
    reflexivity.
Qed.

Lemma split_slash_long (s : string) :
  has_slash s = true -> 2 <= List.length (split_slash s).
Proof.
  induction s as [|c s IH]; cbn [has_slash split_slash]; [discriminate|].
  destruct (Ascii.eqb c slash); cbn [orb].
  - intros _. cbn [List.length].
    destruct (split_slash s) eqn:E; [now elim (split_slash_nonempty s)|].
    cbn [List.length]. lia.
  - intros H. specialize (IH H).
    destruct (split_slash s); cbn [List.length] in *; lia.
Qed.

Lemma getitem_second_last {A : Type} (xs : list A) :
  2 <= List.length xs -> exists x, getitem xs (-2) = Ok x.
Proof.
  intros H. unfold getitem. cbn [Z.leb Z.compare].
  destruct (Z.leb_spec 0 (Z.of_nat (List.length xs) + -2)); [|lia].
  destruct (nth_error xs (Z.to_nat (Z.of_nat (List.length xs) + -2))) eqn:E.
  - cbn [of_option]. eauto.
  - apply nth_error_None in E. lia.
Qed.

Lemma getitem_second_last_app {A : Type} (xs : list A) (a b : A) :
  getitem (xs ++ [a; b]) (-2) = Ok a.
Proof.
  unfold getitem. cbn [Z.leb Z.compare]. rewrite length_app. cbn [List.length].
  destruct (Z.leb_spec 0 (Z.of_nat (List.length xs + 2) + -2)); [|lia].
  replace (Z.to_nat (Z.of_nat (List.length xs + 2) + -2)) with (List.length xs)
    by lia.
  rewrite nth_error_app2 by lia. now rewrite Nat.sub_diag.
Qed.

(** The path of an image names its anomaly type when both names are
    directory entries. *)
Lemma image_path_type source sp c a x :
  valid_name a -> valid_name x ->
  getitem (split_slash (os_path_join (anomaly_dir source sp c a) [x])) (-2)
  = Ok a.
Proof.
  intros [Ha Hsa] [Hx Hsx].
  destruct (class_path_shape source sp c) as [Hne Hend].
  unfold anomaly_dir, os_path_join. cbn [fold_left].
  rewrite (join2_plain _ a Hne Hend Hsa).
  rewrite join2_plain; [| apply append_nonempty_r; discriminate | | exact Hsx].
  - rewrite !split_slash_app, (split_slash_plain a Hsa), (split_slash_plain x Hsx).
    rewrite <- app_assoc. apply getitem_second_last_app.
  - rewrite endswith_slash_app by discriminate.
    cbn [endswith_slash]. destruct a; [now elim Ha|].
    fold (endswith_slash (String a a0)).
    destruct (endswith_slash (String a a0)) eqn:E; [|reflexivity].
    apply endswith_has_slash in E. congruence.
Qed.

Lemma image_path_has_slash source sp c a x :
  has_slash (os_path_join (anomaly_dir source sp c a) [x]) = true.
Proof.
  destruct (class_path_shape source sp c) as [Hne _].
  unfold anomaly_dir, os_path_join. cbn [fold_left].
  apply join2_has_slash.
  intros E. pose proof (join2_has_slash (class_path source sp c) a Hne) as H.
  rewrite E in H. discriminate.
Qed.

Lemma listing_In p x :
  In x (listing p) -> exists names, listdir p = Some names /\ In x names.
Proof.
  unfold listing. destruct (listdir p) as [names|]; [eauto | intros []].
Qed.

(** Where the records of the Index come from. *)
Lemma expected_index_record source sp classes data r :
  expected_index source sp classes = Ok data ->
  In r data ->
  exists c a x,
    In c classes /\
    In a (listing (class_path source sp c)) /\
    In x (listing (anomaly_dir source sp c a)) /\
    classname r = c /\ anomaly r = a /\
    image_path r = os_path_join (anomaly_dir source sp c a) [x].
Proof.
  intros Hexp Hr. apply expected_index_keys in Hexp.
  apply (in_map record_key) in Hr. rewrite Hexp in Hr.
  apply in_flat_map in Hr. destruct Hr as (rn & Hrn & Hr).
  apply index_runs_In in Hrn. destruct Hrn as (c & a & Hc & Ha & ->).
  unfold run_of, run_records in Hr.
  apply in_map_iff in Hr. destruct Hr as (x & Hkey & Hx).
  rewrite sorted_In in Hx. unfold record_key in Hkey.
  injection Hkey as H1 H2 H3. exists c, a, x. cbn [os_path_join fold_left].
  repeat split; auto.
Qed.

Lemma get_image_data_index source sp classes imgs data :
  get_image_data source sp classes = Ok (imgs, data) ->
  expected_index source sp classes = Ok data.
Proof.
  rewrite get_image_data_expected. intros H.
  apply bind_Ok_inv in H. destruct H as (st & _ & H).
  apply bind_Ok_inv in H. destruct H as (data' & Hexp & H).
  injection H as _ <-. exact Hexp.
Qed.

Lemma index_paths_have_slash source sp classes imgs data r :
  get_image_data source sp classes = Ok (imgs, data) ->
  In r data -> has_slash (image_path r) = true.
Proof.
  intros H Hr. apply get_image_data_index in H.
  destruct (expected_index_record _ _ _ _ _ H Hr)
    as (c & a & x & _ & _ & _ & _ & _ & ->).
  apply image_path_has_slash.
Qed.

Lemma index_paths_name_type source sp classes imgs data r :
  listdir_names_valid ->
  get_image_data source sp classes = Ok (imgs, data) ->
  In r data ->
  getitem (split_slash (image_path r)) (-2) = Ok (anomaly r).
Proof.
  intros Hvalid H Hr. apply get_image_data_index in H.
  destruct (expected_index_record _ _ _ _ _ H Hr)
    as (c & a & x & _ & Ha & Hx & _ & -> & ->).
  apply listing_In in Ha. destruct Ha as (types & Htypes & Ha).
  apply listing_In in Hx. destruct Hx as (names & Hnames & Hx).
  pose proof (Hvalid _ _ Htypes) as Vt. pose proof (Hvalid _ _ Hnames) as Vn.
  rewrite Forall_forall in Vt, Vn.
  apply image_path_type; auto.
Qed.

(** ** The groups of [sub_datasets] *)

Lemma first_seen_snoc xs x :
  first_seen (xs ++ [x])
  = if str_in x (first_seen xs) then first_seen xs else first_seen xs ++ [x].
Proof. unfold first_seen. now rewrite fold_left_app. Qed.

Lemma first_seen_In xs x : In x (first_seen xs) <-> In x xs.
Proof.
  induction xs as [|y xs IH] using rev_ind; [reflexivity|].
  rewrite first_seen_snoc, in_app_iff.
  destruct (str_in y (first_seen xs)) eqn:E.
  - apply str_in_In in E. cbn [In]. split.
    + intros H. left. now apply IH.
    + intros [H | [<- | []]]; [now apply IH | exact E].
  - now rewrite in_app_iff, IH.
Qed.

Lemma first_seen_NoDup xs : NoDup (first_seen xs).
Proof.
  induction xs as [|y xs IH] using rev_ind; [constructor|].
  rewrite first_seen_snoc.
  destruct (str_in y (first_seen xs)) eqn:E; [exact IH|].
  apply str_in_false in E.
  apply NoDup_app; [exact IH | repeat constructor; intros [] |].
  intros a Ha [<- | []]. contradiction.
Qed.

Lemma combine_seq_snoc {A : Type} (l : list A) (r : A) :
  forall s,
    combine (seq s (List.length (l ++ [r]))) (l ++ [r])
    = combine (seq s (List.length l)) l ++ [(s + List.length l, r)].
Proof.
  induction l as [|x l IH]; intros s; cbn [List.length app seq combine].
  - now rewrite Nat.add_0_r.
  - rewrite IH. cbn [app]. now rewrite Nat.add_succ_r.
Qed.

Lemma enumerate_snoc {A : Type} (l : list A) (r : A) :
  enumerate (l ++ [r]) = enumerate l ++ [(List.length l, r)].
Proof. unfold enumerate. now rewrite combine_seq_snoc. Qed.

Lemma positions_by_snoc key t l r :
  positions_by key t (l ++ [r])
  = positions_by key t l
    ++ (if String.eqb (key r) t then [List.length l] else []).
Proof.
  unfold positions_by. rewrite enumerate_snoc, filter_app, map_app.
  cbn [filter snd]. now destruct (String.eqb (key r) t).
Qed.

Lemma positions_by_notin key t l :
  ~ In t (map key l) -> positions_by key t l = [].
Proof.
  induction l as [|r l IH] using rev_ind; [reflexivity|].
  rewrite map_app, in_app_iff, positions_by_snoc. cbn [map In]. intros H.
  rewrite IH by (clear_env; tauto).
  destruct (String.eqb_spec (key r) t); [|reflexivity].
  exfalso. apply H. right. now left.
Qed.

Lemma positions_by_lt key t l i :
  In i (positions_by key t l) -> i < List.length l.
Proof.
  unfold positions_by, enumerate. rewrite in_map_iff.
  intros ([j r] & <- & H). apply filter_In in H. destruct H as [H _].
  apply in_combine_l, in_seq in H. cbn [fst]. lia.
Qed.

Lemma dict_set_notin {V : Type} (k : string) (v : V) (d : dict V) :
  ~ In k (dict_keys d) -> dict_set k v d = d ++ [(k, v)].
Proof.
  unfold dict_keys. induction d as [|[k' v'] d IH]; cbn [map In fst dict_set app];
    [reflexivity|].
  intros H. destruct (String.eqb_spec k k') as [-> | Hne].
  - exfalso. apply H. now left.
  - rewrite IH; [reflexivity|]. intros Hin. apply H. now right.
Qed.

Lemma dict_keys_map {V : Type} (f : string -> V) (fs : list string) :
  dict_keys (map (fun t => (t, f t)) fs) = fs.
Proof.
  unfold dict_keys. rewrite map_map. cbn [fst]. apply map_id.
Qed.

Lemma dict_find_map {V : Type} (f : string -> V) (fs : list string) (t : string) :
  In t fs -> dict_find t (map (fun t' => (t', f t')) fs) = Some (f t).
Proof.
  induction fs as [|a fs IH]; cbn [In map dict_find]; [intros []|].
  intros H. destruct (String.eqb_spec t a) as [-> | Hne]; [reflexivity|].
  destruct H as [-> | H]; [now elim Hne | now apply IH].
Qed.

Lemma dict_set_map {V : Type} (f : string -> V) (fs : list string)
    (t : string) (v : V) :
  In t fs -> NoDup fs ->
  dict_set t v (map (fun t' => (t', f t')) fs)
  = map (fun t' => (t', if String.eqb t' t then v else f t')) fs.
Proof.
  induction fs as [|a fs IH]; cbn [In map dict_set]; [intros []|].
  intros Hin Hnd. inversion Hnd as [|? ? Hnotin Hnd']; subst.
  destruct (String.eqb_spec t a) as [-> | Hne].
  - rewrite String.eqb_refl. f_equal.
    apply map_ext_in. intros t' Ht'.
    destruct (String.eqb_spec t' a) as [-> | _]; [contradiction | reflexivity].
  - destruct (String.eqb_spec a t) as [-> | _]; [now elim Hne|].
    f_equal. apply IH; [|exact Hnd'].
    destruct Hin as [-> | Hin]; [now elim Hne | exact Hin].
Qed.

Lemma firstn_S_nth {A : Type} (l : list A) (k : nat) (x : A) :
  nth_error l k = Some x -> firstn (S k) l = firstn k l ++ [x].
Proof.
  revert k. induction l as [|y l IH]; intros [|k] H; try discriminate.
  - injection H as ->. reflexivity.
  - cbn [nth_error] in H. rewrite firstn_cons, (IH k H). reflexivity.
Qed.

Lemma group_index_step key full k r :
  nth_error full k = Some r ->
  getitem (split_slash (image_path r)) (-2) = Ok (key r) ->
  group_index full (group_dict key (firstn k full)) k
  = Ok (group_dict key (firstn (S k) full)).
Proof.
  intros Hnth Hkey.
  assert (Hk : List.length (firstn k full) = k).
  { rewrite length_firstn. apply Nat.min_l.
    apply Nat.lt_le_incl, nth_error_Some. congruence. }
  unfold group_index. rewrite getitem_nat, Hnth. cbn [of_option bind].
  rewrite Hkey. cbn [bind].
  rewrite (firstn_S_nth full k r Hnth).
  set (l := firstn k full) in *. set (t := key r).
  set (fs := first_seen (map key l)).
  assert (Hrhs : group_dict key (l ++ [r])
                 = map (fun t' => (t', positions_by key t' (l ++ [r])))
                       (if str_in t fs then fs else fs ++ [t])).
  { unfold group_dict. rewrite map_app. cbn [map]. rewrite first_seen_snoc.
    fold fs. fold t. now destruct (str_in t fs). }
  rewrite Hrhs. clear Hrhs.
  unfold group_dict. fold fs. rewrite !dict_keys_map.
  assert (Hnd : NoDup fs) by apply first_seen_NoDup.
  destruct (str_in t fs) eqn:E; cbn [negb].
  - apply str_in_In in E. unfold dict_get.
    rewrite dict_find_map by exact E. cbn [of_option bind].
    rewrite dict_set_map by assumption. f_equal.
    apply map_ext_in. intros t' Ht'. rewrite positions_by_snoc, Hk. fold t.
    destruct (String.eqb_spec t' t) as [-> | Hne].
    + now rewrite String.eqb_refl.
    + destruct (String.eqb_spec t t') as [-> | _]; [now elim Hne|].
      now rewrite app_nil_r.
  - apply str_in_false in E. unfold dict_get.
    rewrite dict_find_set_same. cbn [of_option bind app].
    rewrite dict_set_set, dict_set_notin by now rewrite dict_keys_map.
    rewrite map_app. cbn [map]. f_equal. apply f_equal2.
    + apply map_ext_in. intros t' Ht'. rewrite positions_by_snoc. fold t.
      destruct (String.eqb_spec t t') as [<- | _]; [contradiction|].
      now rewrite app_nil_r.
    + rewrite positions_by_snoc, Hk. fold t. rewrite String.eqb_refl.
      rewrite positions_by_notin; [reflexivity|].
      intros Hin. apply E. now apply first_seen_In.
Qed.

Lemma group_fold key full :
  (forall r, In r full ->
     getitem (split_slash (image_path r)) (-2) = Ok (key r)) ->
  forall k, k <= List.length full ->
    foldM (group_index full) (seq 0 k) [] = Ok (group_dict key (firstn k full)).
Proof.
  intros Hkey. induction k as [|k IH]; intros Hk; [reflexivity|].
  rewrite seq_S, foldM_app, IH by lia. cbn [bind foldM Nat.add].
  destruct (nth_error full k) as [r|] eqn:Hnth.
  - rewrite (group_index_step key full k r Hnth); [reflexivity|].
    apply Hkey. eapply nth_error_In; eassumption.
  - apply nth_error_None in Hnth. lia.
Qed.

(** ** Chunks and picks *)

(** The number of chunks [range(0, len, step)] starts, one chunk at a
    time. *)
Lemma chunk_count_step (len n : nat) :
  0 < n -> 0 < len ->
  Z.to_nat (if (0 <? Z.of_nat len)%Z
            then (Z.of_nat len - 0 - 1) / Z.of_nat n + 1 else 0)%Z
  = S (Z.to_nat (if (0 <? Z.of_nat (len - n))%Z
                 then (Z.of_nat (len - n) - 0 - 1) / Z.of_nat n + 1 else 0)%Z).
Proof.
  intros Hn Hlen.
  destruct (Z.ltb_spec 0 (Z.of_nat len)); [|lia].
  destruct (Z.ltb_spec 0 (Z.of_nat (len - n))).
  - replace (Z.of_nat len - 0 - 1)%Z
      with (Z.of_nat (len - n) - 0 - 1 + 1 * Z.of_nat n)%Z by lia.
    rewrite Z.div_add by lia.
    assert (0 <= (Z.of_nat (len - n) - 0 - 1) / Z.of_nat n)%Z
      by (apply Z.div_pos; lia).
    lia.
  - rewrite Z.div_small by lia. reflexivity.
Qed.

Lemma slice_chunk (l : list nat) (j n : nat) :
  0 < n ->
  slice l (0 + Z.of_nat j * Z.of_nat n)
          (0 + Z.of_nat j * Z.of_nat n + Z.of_nat n)
  = firstn n (skipn (j * n) l).
Proof.
  intros Hn. unfold slice, slice_bound.
  destruct (Z.ltb_spec (0 + Z.of_nat j * Z.of_nat n) 0); [lia|].
  destruct (Z.ltb_spec (0 + Z.of_nat j * Z.of_nat n + Z.of_nat n) 0); [lia|].
  destruct (Nat.le_gt_cases (j * n) (List.length l)) as [Hle | Hgt].
  - replace (Z.to_nat (Z.min (Z.of_nat (List.length l))
                             (0 + Z.of_nat j * Z.of_nat n))) with (j * n) by lia.
    destruct (Nat.le_gt_cases n (List.length l - j * n)) as [Hfit | Hshort].
    + f_equal. lia.
    + rewrite (firstn_all2 (n := n)) by (rewrite length_skipn; lia).
      apply firstn_all2. rewrite length_skipn. lia.
  - rewrite (skipn_all2 (n := j * n)) by lia.
    rewrite firstn_nil.
    replace (Z.to_nat (Z.min (Z.of_nat (List.length l))
                             (0 + Z.of_nat j * Z.of_nat n)))
      with (List.length l) by lia.
    rewrite skipn_all. apply firstn_nil.
Qed.

Lemma spec_chunks_slices (n : nat) :
  0 < n ->
  forall fuel l,
    List.length l <= fuel ->
    spec_chunks fuel n l
    = map (fun j => firstn n (skipn (j * n) l))
          (seq 0 (Z.to_nat (if (0 <? Z.of_nat (List.length l))%Z
                            then (Z.of_nat (List.length l) - 0 - 1)
                                 / Z.of_nat n + 1
                            else 0)%Z)).
Proof.
  intros Hn. induction fuel as [|fuel IH]; intros l Hl.
  - destruct l; [reflexivity | cbn in Hl; lia].
  - destruct l as [|x l]; [reflexivity|].
    cbn [spec_chunks].
    rewrite (chunk_count_step (List.length (x :: l)) n Hn)
      by (cbn [List.length]; lia).
    cbn [seq map]. change (0 * n) with 0. rewrite skipn_O. f_equal.
    rewrite <- seq_shift, map_map.
    rewrite IH by (rewrite length_skipn; cbn [List.length] in *; lia).
    rewrite length_skipn. apply map_ext. intros j.
    rewrite skipn_skipn. f_equal. f_equal. lia.
Qed.

Lemma devide_chunks (l : list nat) (divide_num : Z) :
  (0 < divide_num)%Z ->
  devide l divide_num
  = Ok (spec_chunks (List.length l) (Z.to_nat divide_num) l).
Proof.
  intros Hd. unfold devide, range.
  destruct (Z.eqb_spec divide_num 0); [lia|].
  destruct (Z.ltb_spec 0 divide_num); [|lia].
  cbn [bind]. f_equal.
  assert (Hn : 0 < Z.to_nat divide_num) by lia.
  rewrite (spec_chunks_slices (Z.to_nat divide_num) Hn (List.length l) l)
    by reflexivity.
  rewrite map_map, Z2Nat.id by lia.
  apply map_ext. intros j.
  rewrite <- (slice_chunk l j (Z.to_nat divide_num) Hn).
  now rewrite Z2Nat.id by lia.
Qed.

Lemma pick_keep (chunks : list (list nat)) (divide_iter : Z) :
  (0 <= divide_iter)%Z ->
  pick chunks divide_iter = Ok (spec_keep (Z.to_nat divide_iter) chunks).
Proof.
  intros Hi. induction chunks as [|chunk rest IH]; [reflexivity|].
  cbn [pick spec_keep flat_map]. fold (spec_keep (Z.to_nat divide_iter) rest).
  rewrite IH.
  destruct (Z.gtb_spec (Z.of_nat (List.length chunk)) divide_iter) as [Hlt | Hge].
  - rewrite getitem_nonneg by exact Hi.
    destruct (nth_error chunk (Z.to_nat divide_iter)) eqn:E.
    + reflexivity.
    + apply nth_error_None in E. lia.
  - destruct (nth_error chunk (Z.to_nat divide_iter)) eqn:E; [|reflexivity].
    assert (nth_error chunk (Z.to_nat divide_iter) <> None) by congruence.
    apply nth_error_Some in H. lia.
Qed.

Lemma spec_chunks_short fuel n l chunk :
  In chunk (spec_chunks fuel n l) -> List.length chunk <= n /\ incl chunk l.
Proof.
  revert l. induction fuel as [|fuel IH]; intros l; [intros []|].
  destruct l as [|x l]; [intros []|]. cbn [spec_chunks].
  intros [<- | H].
  - split; [apply firstn_le_length|].
    intros y Hy. rewrite <- (firstn_skipn n (x :: l)).
    apply in_or_app. now left.
  - destruct (IH _ H) as [Hlen Hincl]. split; [exact Hlen|].
    intros y Hy. rewrite <- (firstn_skipn n (x :: l)).
    apply in_or_app. right. now apply Hincl.
Qed.

Lemma spec_keep_In i chunks x :
  In x (spec_keep i chunks) -> exists chunk, In chunk chunks /\ In x chunk.
Proof.
  unfold spec_keep. rewrite in_flat_map. intros (chunk & Hc & Hx).
  exists chunk. split; [exact Hc|].
  destruct (nth_error chunk i) eqn:E; [|destruct Hx].
  destruct Hx as [<- | []]. eapply nth_error_In; eassumption.
Qed.

Lemma spec_keep_beyond i chunks :
  (forall chunk, In chunk chunks -> List.length chunk <= i) ->
  spec_keep i chunks = [].
Proof.
  induction chunks as [|chunk rest IH]; intros H; [reflexivity|].
  cbn [spec_keep flat_map]. fold (spec_keep i rest).
  rewrite IH by (intros; apply H; now right).
  destruct (nth_error chunk i) eqn:E; [|reflexivity].
  assert (nth_error chunk i <> None) by congruence.
  apply nth_error_Some in H0. specialize (H chunk (or_introl eq_refl)). lia.
Qed.

(** ** The loop over the groups *)

Lemma sample_ids_spec divide_num divide_iter acc g ids :
  (0 < divide_num)%Z -> (0 <= divide_iter)%Z ->
  sample_ids divide_num divide_iter (acc, g) ids
  = Ok (acc ++ spec_keep (Z.to_nat divide_iter)
                 (spec_chunks (List.length (fst (random_shuffle g ids)))
                              (Z.to_nat divide_num)
                              (fst (random_shuffle g ids))),
        snd (random_shuffle g ids)).
Proof.
  intros Hd Hi. unfold sample_ids.
  destruct (random_shuffle g ids) as [shuffled g1]. cbn [fst snd].
  rewrite devide_chunks by exact Hd. cbn [bind].
  rewrite pick_keep by exact Hi. reflexivity.
Qed.

Lemma foldM_sample_ids divide_num divide_iter groups :
  (0 < divide_num)%Z -> (0 <= divide_iter)%Z ->
  forall acc g,
    foldM (sample_ids divide_num divide_iter) groups (acc, g)
    = Ok (acc ++ fst (spec_sample (Z.to_nat divide_num) (Z.to_nat divide_iter)
                                  groups g),
          snd (spec_sample (Z.to_nat divide_num) (Z.to_nat divide_iter)
                           groups g)).
Proof.
  intros Hd Hi. induction groups as [|ids groups IH]; intros acc g.
  - cbn [foldM spec_sample fst snd]. now rewrite app_nil_r.
  - cbn [foldM]. rewrite sample_ids_spec by assumption. cbn [bind].
    rewrite IH. cbn [spec_sample].
    destruct (random_shuffle g ids) as [shuffled g1]. cbn [fst snd].
    destruct (spec_sample _ _ groups g1) as [kept g2]. cbn [fst snd].
    now rewrite app_assoc.
Qed.

Lemma foldM_sample_group_values d divide_num divide_iter :
  forall part st,
    (forall k v, In (k, v) part -> dict_find k d = Some v) ->
    foldM (sample_group d divide_num divide_iter) (dict_keys part) st
    = foldM (sample_ids divide_num divide_iter) (map snd part) st.
Proof.
  induction part as [|[k v] part IH]; intros st Hfind; [reflexivity|].
  cbn [dict_keys map foldM fst snd].
  assert (Hstep : sample_group d divide_num divide_iter st k
                  = sample_ids divide_num divide_iter st v).
  { unfold sample_group, sample_ids, dict_get. destruct st as [acc g].
    rewrite (Hfind k v (or_introl eq_refl)). reflexivity. }
  rewrite Hstep.
  destruct (sample_ids divide_num divide_iter st v); cbn [bind]; [|reflexivity].
  apply IH. intros; apply Hfind; now right.
Qed.

Lemma dict_find_first {V : Type} (d : dict V) :
  NoDup (dict_keys d) -> forall k v, In (k, v) d -> dict_find k d = Some v.
Proof.
  unfold dict_keys. induction d as [|[k' v'] d IH]; intros Hnd k v; [intros []|].
  cbn [map fst] in Hnd. inversion Hnd as [|? ? Hnotin Hnd']; subst.
  cbn [In dict_find]. intros [H | H].
  - injection H as -> ->. now rewrite String.eqb_refl.
  - destruct (String.eqb_spec k k') as [-> | _]; [|now apply IH].
    exfalso. apply Hnotin. apply (in_map fst) in H. exact H.
Qed.

(** [sub_datasets] keeps the records at the positions of [spec_sample],
    for the groups of any key the paths spell out. *)
Lemma sub_datasets_sample key full divide_num divide_iter seed w :
  (forall r, In r full ->
     getitem (split_slash (image_path r)) (-2) = Ok (key r)) ->
  (0 < divide_num)%Z -> (0 <= divide_iter)%Z ->
  sub_datasets full divide_num divide_iter seed w
  = bind (mapM (fun id => getitem full (Z.of_nat id))
               (fst (spec_sample (Z.to_nat divide_num) (Z.to_nat divide_iter)
                                 (map snd (group_dict key full))
                                 (random_seed seed))))
         (fun data =>
            Ok (data,
                set_py_random
                  (snd (spec_sample (Z.to_nat divide_num) (Z.to_nat divide_iter)
                                    (map snd (group_dict key full))
                                    (random_seed seed)))
                  (set_py_random (random_seed seed) w))).
Proof.
  intros Hkey Hd Hi. unfold sub_datasets.
  destruct (Z.eqb_spec divide_num 0); [lia|].
  rewrite (group_fold key full Hkey (List.length full)) by reflexivity.
  rewrite firstn_all. cbn [bind].
  rewrite (foldM_sample_group_values (group_dict key full) divide_num divide_iter
             (group_dict key full)).
  - rewrite foldM_sample_ids by assumption. cbn [bind app py_random set_py_random].
    reflexivity.
  - apply dict_find_first. unfold group_dict. rewrite dict_keys_map.
    apply first_seen_NoDup.
Qed.

Lemma spec_sample_beyond n i groups :
  n <= i -> forall g, fst (spec_sample n i groups g) = [].
Proof.
  intros Hni. induction groups as [|ids groups IH]; intros g; [reflexivity|].
  cbn [spec_sample]. destruct (random_shuffle g ids) as [shuffled g1].
  specialize (IH g1). destruct (spec_sample n i groups g1) as [kept g2].
  cbn [fst] in *. rewrite IH, app_nil_r.
  apply spec_keep_beyond. intros chunk Hc.
  apply spec_chunks_short in Hc. lia.
Qed.

Lemma spec_sample_In n i groups :
  shuffle_permutes ->
  forall g x,
    In x (fst (spec_sample n i groups g)) ->
    exists ids, In ids groups /\ In x ids.
Proof.
  intros Hperm. induction groups as [|ids groups IH]; intros g x; [intros []|].
  cbn [spec_sample]. pose proof (Hperm g ids) as Hp.
  destruct (random_shuffle g ids) as [shuffled g1]. cbn [fst] in Hp.
  specialize (IH g1 x). destruct (spec_sample n i groups g1) as [kept g2].
  cbn [fst] in *. rewrite in_app_iff. intros [Hx | Hx].
  - apply spec_keep_In in Hx. destruct Hx as (chunk & Hc & Hx).
    apply spec_chunks_short in Hc. destruct Hc as [_ Hincl].
    exists ids. split; [now left|].
    eapply Permutation_in; [symmetry; exact Hp | now apply Hincl].
  - destruct (IH Hx) as (ids' & Hin & Hx'). exists ids'. split; [now right | exact Hx'].
Qed.

Lemma mapM_getitem_positions {A : Type} (xs : list A) (ids : list nat) :
  (forall i, In i ids -> i < List.length xs) ->
  exists ys,
    mapM (fun id => getitem xs (Z.of_nat id)) ids = Ok ys /\
    Forall2 (fun y i => nth_error xs i = Some y) ys ids.
Proof.
  induction ids as [|i ids IH]; intros H.
  - exists []. split; [reflexivity | constructor].
  - destruct IH as (ys & Hys & Hall); [intros; apply H; now right|].
    destruct (nth_error xs i) as [y|] eqn:E.
    + exists (y :: ys). split.
      * cbn [mapM]. rewrite getitem_nat, E. cbn [of_option bind].
        rewrite Hys. reflexivity.
      * now constructor.
    + apply nth_error_None in E. specialize (H i (or_introl eq_refl)). lia.
Qed.

Lemma path_type_spelled r :
  has_slash (image_path r) = true ->
  getitem (split_slash (image_path r)) (-2) = Ok (path_type r).
Proof.
  intros H. unfold path_type.
  destruct (getitem_second_last (split_slash (image_path r))
              (split_slash_long _ H)) as (t & ->).
  reflexivity.
Qed.

Lemma set_py_random_twice (g g' : rng) (w : World) :
  set_py_random g (set_py_random g' w) = set_py_random g w.
Proof. reflexivity. Qed.

(** ** Images and masks, position by position *)

Lemma mapM_In {A B : Type} (f : A -> result B) (xs : list A) (ys : list B) :
  mapM f xs = Ok ys ->
  forall y, In y ys -> exists x, In x xs /\ f x = Ok y.
Proof.
  rewrite mapM_Ok_Forall2. induction 1 as [|x y xs ys Hxy _ IH]; intros z;
    [intros []|].
  intros [<- | Hz].
  - exists x. split; [now left | exact Hxy].
  - destruct (IH z Hz) as (x' & Hx' & Hf). exists x'. split; [now right | exact Hf].
Qed.

Lemma mapM_concat_In {A B : Type} (f : A -> result (list B))
    (xs : list A) (rss : list (list B)) :
  mapM f xs = Ok rss ->
  forall r, In r (List.concat rss) ->
    exists x rs, In x xs /\ f x = Ok rs /\ In r rs.
Proof.
  intros H r Hr. apply in_concat in Hr. destruct Hr as (rs & Hrs & Hr).
  destruct (mapM_In f xs rss H rs Hrs) as (x & Hx & Hf). eauto.
Qed.

Lemma mapM_all_Ok {A B : Type} (f : A -> result B) (xs : list A) :
  (forall x, In x xs -> exists y, f x = Ok y) -> exists ys, mapM f xs = Ok ys.
Proof.
  induction xs as [|x xs IH]; intros H; [now exists []|].
  destruct (H x (or_introl eq_refl)) as (y & Hy).
  destruct IH as (ys & Hys); [intros; apply H; now right|].
  exists (y :: ys). cbn [mapM]. rewrite Hy. cbn [bind]. now rewrite Hys.
Qed.

Lemma mapM_raise {A B : Type} (e : exn) (f : A -> result B) (xs : list A) (x : A) :
  (forall z, In z xs -> f z = Raise e \/ exists y, f z = Ok y) ->
  In x xs -> f x = Raise e -> mapM f xs = Raise e.
Proof.
  induction xs as [|z xs IH]; intros Hall Hin Hx; [destruct Hin|].
  cbn [mapM]. destruct (Hall z (or_introl eq_refl)) as [Hz | (y & Hz)];
    rewrite Hz; cbn [bind]; [reflexivity|].
  destruct Hin as [-> | Hin]; [congruence|].
  rewrite IH; [reflexivity | intros; apply Hall; now right | exact Hin | exact Hx].
Qed.

Lemma mapM_outcome {A B : Type} (e : exn) (f : A -> result B) (xs : list A) :
  (forall z, In z xs -> f z = Raise e \/ exists y, f z = Ok y) ->
  mapM f xs = Raise e \/ exists ys, mapM f xs = Ok ys.
Proof.
  induction xs as [|z xs IH]; intros Hall; [right; now exists []|].
  cbn [mapM]. destruct (Hall z (or_introl eq_refl)) as [Hz | (y & Hz)];
    rewrite Hz; cbn [bind]; [now left|].
  destruct IH as [H | (ys & H)]; [intros; apply Hall; now right | |];
    rewrite H; cbn [bind]; [now left | right; eauto].
Qed.

Lemma combine_seq_In {A : Type} (xs : list A) (i : nat) (x : A) :
  forall s,
    In (i, x) (combine (seq s (List.length xs)) xs) <->
    s <= i /\ nth_error xs (i - s) = Some x.
Proof.
  induction xs as [|y xs IH]; intros s; cbn [List.length seq combine In].
  - split; [intros [] | intros [_ H]]. destruct (i - s); discriminate.
  - rewrite IH. split.
    + intros [H | [Hle H]].
      * injection H as -> ->. split; [lia|]. now rewrite Nat.sub_diag.
      * split; [lia|]. replace (i - s) with (S (i - S s)) by lia. exact H.
    + intros [Hle H]. destruct (Nat.eq_dec i s) as [-> | Hne].
      * left. rewrite Nat.sub_diag in H. cbn in H. congruence.
      * right. split; [lia|].
        replace (i - s) with (S (i - S s)) in H by lia. exact H.
Qed.

Lemma enumerate_In {A : Type} (xs : list A) (i : nat) (x : A) :
  In (i, x) (enumerate xs) <-> nth_error xs i = Some x.
Proof.
  unfold enumerate. rewrite combine_seq_In, Nat.sub_0_r.
  split; [now intros [_ H] | intros H; split; [lia | exact H]].
Qed.

Lemma entry_paths_length dir names :
  List.length (entry_paths dir names) = List.length names.
Proof. unfold entry_paths. now rewrite length_map, sorted_length. Qed.

Lemma entry_paths_nth dir names i p :
  nth_error (entry_paths dir names) i = Some p ->
  exists x, nth_error (sorted names) i = Some x /\ p = os_path_join dir [x].
Proof.
  unfold entry_paths. rewrite nth_error_map.
  destruct (nth_error (sorted names) i) as [x|]; cbn [option_map];
    [|discriminate].
  intros H. injection H as <-. eauto.
Qed.

Lemma paired_record_outcome c a masks e :
  paired_record c a masks e = Raise IndexError \/
  exists r, paired_record c a masks e = Ok r.
Proof.
  unfold paired_record. rewrite getitem_nat.
  destruct (nth_error masks (fst e)); cbn [of_option bind]; [right | left];
    eauto.
Qed.

Lemma listdir_listing p : listdir p <> None -> listdir p = Some (listing p).
Proof. unfold listing. destruct (listdir p); [reflexivity | now intros H; elim H]. Qed.

(** The records of an anomaly type, when its directories can be listed. *)
Lemma anomaly_records_listed source sp c a :
  listdir (anomaly_dir source sp c a) <> None ->
  (wants_mask sp a = true -> listdir (mask_dir source c a) <> None) ->
  anomaly_records source sp c a
  = if wants_mask sp a then
      mapM (paired_record c a
              (entry_paths (mask_dir source c a)
                           (listing (mask_dir source c a))))
           (enumerate (entry_paths (anomaly_dir source sp c a)
                                   (listing (anomaly_dir source sp c a))))
    else Ok (map (fun p => mk_record c a p None)
                 (entry_paths (anomaly_dir source sp c a)
                              (listing (anomaly_dir source sp c a)))).
Proof.
  intros Hdir Hmask. unfold anomaly_records, os_listdir.
  rewrite (listdir_listing _ Hdir). cbn [of_option bind].
  destruct (wants_mask sp a); [|reflexivity].
  rewrite (listdir_listing _ (Hmask eq_refl)). reflexivity.
Qed.

Lemma anomaly_records_outcome source sp c a :
  listdir (anomaly_dir source sp c a) <> None ->
  (wants_mask sp a = true -> listdir (mask_dir source c a) <> None) ->
  anomaly_records source sp c a = Raise IndexError \/
  exists rs, anomaly_records source sp c a = Ok rs.
Proof.
  intros Hdir Hmask. rewrite anomaly_records_listed by assumption.
  destruct (wants_mask sp a); [|right; eauto].
  apply mapM_outcome. intros e _. apply paired_record_outcome.
Qed.

Lemma anomaly_records_enough source sp c a :
  listdir (anomaly_dir source sp c a) <> None ->
  (wants_mask sp a = true -> listdir (mask_dir source c a) <> None) ->
  (wants_mask sp a = true ->
     List.length (listing (anomaly_dir source sp c a))
     <= List.length (listing (mask_dir source c a))) ->
  exists rs, anomaly_records source sp c a = Ok rs.
Proof.
  intros Hdir Hmask Hlen. rewrite anomaly_records_listed by assumption.
  destruct (wants_mask sp a); [|eauto]. specialize (Hlen eq_refl).
  apply mapM_all_Ok. intros [i p] Hin. apply enumerate_In in Hin.
  unfold paired_record. cbn [fst snd]. rewrite getitem_nat.
  destruct (nth_error (entry_paths (mask_dir source c a) _) i) as [m|] eqn:E.
  - cbn [of_option bind]. eauto.
  - apply nth_error_None in E. rewrite entry_paths_length in E.
    assert (Hi : nth_error (entry_paths (anomaly_dir source sp c a)
                              (listing (anomaly_dir source sp c a))) i <> None)
      by congruence.
    apply nth_error_Some in Hi. rewrite entry_paths_length in Hi. lia.
Qed.

Lemma anomaly_records_fewer source sp c a :
  listdir (anomaly_dir source sp c a) <> None ->
  listdir (mask_dir source c a) <> None ->
  wants_mask sp a = true ->
  List.length (listing (mask_dir source c a))
  < List.length (listing (anomaly_dir source sp c a)) ->
  anomaly_records source sp c a = Raise IndexError.
Proof.
  intros Hdir Hmask Hw Hlen. rewrite anomaly_records_listed by auto.
  rewrite Hw.
  set (paths := entry_paths (anomaly_dir source sp c a) _).
  set (masks := entry_paths (mask_dir source c a) _).
  destruct (nth_error paths (List.length masks)) as [p|] eqn:E.
  - apply (mapM_raise IndexError _ _ (List.length masks, p)).
    + intros e _. apply paired_record_outcome.
    + now apply enumerate_In.
    + unfold paired_record. cbn [fst]. rewrite getitem_nat.
      rewrite (proj2 (nth_error_None masks (List.length masks))) by lia.
      reflexivity.
  - apply nth_error_None in E. subst paths masks.
    rewrite !entry_paths_length in E. lia.
Qed.

(** The record of an anomaly type with masks pairs image [i] with mask
    [i]. *)
Lemma anomaly_records_paired source sp c a rs r :
  anomaly_records source sp c a = Ok rs ->
  In r rs ->
  classname r = c /\ anomaly r = a /\
  (wants_mask sp a = true ->
   exists i x m,
     nth_error (sorted (listing (anomaly_dir source sp c a))) i = Some x /\
     nth_error (sorted (listing (mask_dir source c a))) i = Some m /\
     image_path r = os_path_join (anomaly_dir source sp c a) [x] /\
     mask_path r = Some (os_path_join (mask_dir source c a) [m])).
Proof.
  unfold anomaly_records. intros H Hr.
  apply bind_Ok_inv in H. destruct H as (names & Hnames & H).
  apply os_listdir_Ok in Hnames.
  destruct (wants_mask sp a).
  - apply bind_Ok_inv in H. destruct H as (mnames & Hmnames & H).
    apply os_listdir_Ok in Hmnames.
    destruct (mapM_In _ _ _ H r Hr) as ([i p] & Hin & Hrec).
    apply enumerate_In in Hin. unfold paired_record in Hrec.
    cbn [fst snd] in Hrec. rewrite getitem_nat in Hrec.
    destruct (nth_error (entry_paths (mask_dir source c a) mnames) i)
      as [m|] eqn:Hm; cbn [of_option bind] in Hrec; [|discriminate].
    injection Hrec as <-. cbn [classname anomaly image_path mask_path].
    split; [reflexivity|]. split; [reflexivity|]. intros _.
    apply entry_paths_nth in Hin. destruct Hin as (x & Hx & ->).
    apply entry_paths_nth in Hm. destruct Hm as (m' & Hm' & ->).
    rewrite (listing_Some _ _ Hnames), (listing_Some _ _ Hmnames).
    exists i, x, m'. auto.
  - injection H as <-. apply in_map_iff in Hr. destruct Hr as (p & <- & _).
    cbn [classname anomaly]. split; [reflexivity|]. split; [reflexivity|].
    discriminate.
Qed.

Lemma class_records_listed source sp c :
  listdir (class_path source sp c) <> None ->
  class_records source sp c
  = bind (mapM (anomaly_records source sp c)
               (sorted (nodup string_dec (listing (class_path source sp c)))))
         (fun rs => Ok (List.concat rs)).
Proof.
  intros H. unfold class_records, os_listdir.
  rewrite (listdir_listing _ H). reflexivity.
Qed.

Lemma sorted_nodup_In xs x : In x (sorted (nodup string_dec xs)) <-> In x xs.
Proof. now rewrite sorted_In, nodup_In. Qed.

Lemma listable_class source sp classes c :
  listable source sp classes -> In c classes ->
  listdir (class_path source sp c) <> None /\
  forall a, In a (listing (class_path source sp c)) ->
    listdir (anomaly_dir source sp c a) <> None /\
    (wants_mask sp a = true -> listdir (mask_dir source c a) <> None).
Proof.
  intros Hl Hc. destruct (Hl c Hc) as (types & Htypes & Hall).
  rewrite (listing_Some _ _ Htypes). split; [congruence | exact Hall].
Qed.

Lemma class_records_outcome source sp classes c :
  listable source sp classes -> In c classes ->
  class_records source sp c = Raise IndexError \/
  exists rs, class_records source sp c = Ok rs.
Proof.
  intros Hl Hc. destruct (listable_class _ _ _ _ Hl Hc) as [Hdir Hall].
  rewrite class_records_listed by exact Hdir.
  destruct (mapM_outcome IndexError (anomaly_records source sp c)
              (sorted (nodup string_dec (listing (class_path source sp c)))))
    as [H | (rs & H)]; rewrite ?H; cbn [bind]; [| now left | right; eauto].
  intros a Ha. rewrite sorted_nodup_In in Ha.
  destruct (Hall a Ha). now apply anomaly_records_outcome.
Qed.

Lemma class_records_enough source sp classes c :
  listable source sp classes -> In c classes ->
  (forall a, In a (listing (class_path source sp c)) ->
     wants_mask sp a = true ->
     List.length (listing (anomaly_dir source sp c a))
     <= List.length (listing (mask_dir source c a))) ->
  exists rs, class_records source sp c = Ok rs.
Proof.
  intros Hl Hc Hlen. destruct (listable_class _ _ _ _ Hl Hc) as [Hdir Hall].
  rewrite class_records_listed by exact Hdir.
  destruct (mapM_all_Ok (anomaly_records source sp c)
              (sorted (nodup string_dec (listing (class_path source sp c)))))
    as (rs & ->); [|cbn [bind]; eauto].
  intros a Ha. rewrite sorted_nodup_In in Ha.
  destruct (Hall a Ha). apply anomaly_records_enough; auto.
Qed.

Lemma class_records_fewer source sp classes c a :
  listable source sp classes -> In c classes ->
  In a (listing (class_path source sp c)) ->
  wants_mask sp a = true ->
  List.length (listing (mask_dir source c a))
  < List.length (listing (anomaly_dir source sp c a)) ->
  class_records source sp c = Raise IndexError.
Proof.
  intros Hl Hc Ha Hw Hlen. destruct (listable_class _ _ _ _ Hl Hc) as [Hdir Hall].
  rewrite class_records_listed by exact Hdir.
  rewrite (mapM_raise IndexError (anomaly_records source sp c) _ a);
    [reflexivity | | now apply sorted_nodup_In |].
  - intros z Hz. rewrite sorted_nodup_In in Hz. destruct (Hall z Hz).
    now apply anomaly_records_outcome.
  - destruct (Hall a Ha) as [H1 H2]. apply anomaly_records_fewer; auto.
Qed.

Lemma expected_index_enough source sp classes :
  listable source sp classes ->
  (forall c a, In c classes -> In a (listing (class_path source sp c)) ->
     wants_mask sp a = true ->
     List.length (listing (anomaly_dir source sp c a))
     <= List.length (listing (mask_dir source c a))) ->
  exists data, expected_index source sp classes = Ok data.
Proof.
  intros Hl Hlen. unfold expected_index.
  destruct (mapM_all_Ok (class_records source sp)
              (sorted (nodup string_dec classes))) as (rs & ->);
    [|cbn [bind]; eauto].
  intros c Hc. rewrite sorted_nodup_In in Hc.
  eapply class_records_enough; eauto.
Qed.

Lemma expected_index_fewer source sp classes c a :
  listable source sp classes -> In c classes ->
  In a (listing (class_path source sp c)) ->
  wants_mask sp a = true ->
  List.length (listing (mask_dir source c a))
  < List.length (listing (anomaly_dir source sp c a)) ->
  expected_index source sp classes = Raise IndexError.
Proof.
  intros Hl Hc Ha Hw Hlen. unfold expected_index.
  rewrite (mapM_raise IndexError (class_records source sp) _ c);
    [reflexivity | | now apply sorted_nodup_In |].
  - intros z Hz. rewrite sorted_nodup_In in Hz.
    eapply class_records_outcome; eassumption.
  - eapply class_records_fewer; eassumption.
Qed.

Lemma expected_index_paired source sp classes data r :
  expected_index source sp classes = Ok data ->
  In r data ->
  wants_mask sp (anomaly r) = true ->
  exists i x m,
    nth_error (sorted (listing (anomaly_dir source sp (classname r) (anomaly r))))
              i = Some x /\
    nth_error (sorted (listing (mask_dir source (classname r) (anomaly r))))
              i = Some m /\
    image_path r
      = os_path_join (anomaly_dir source sp (classname r) (anomaly r)) [x] /\
    mask_path r
      = Some (os_path_join (mask_dir source (classname r) (anomaly r)) [m]).
Proof.
  unfold expected_index. intros H Hr Hw.
  apply bind_Ok_inv in H. destruct H as (rss & Hrss & H). injection H as <-.
  destruct (mapM_concat_In _ _ _ Hrss r Hr) as (c & rs & _ & Hc & Hrs).
  unfold class_records in Hc.
  apply bind_Ok_inv in Hc. destruct Hc as (types & _ & Hc).
  apply bind_Ok_inv in Hc. destruct Hc as (rss' & Hrss' & Hc).
  injection Hc as <-.
  destruct (mapM_concat_In _ _ _ Hrss' r Hrs) as (a & rs' & _ & Ha & Hrs').
  destruct (anomaly_records_paired _ _ _ _ _ _ Ha Hrs') as (Ec & Ea & Hpair).
  rewrite Ec, Ea in *. now apply Hpair.
Qed.

(** ** The generators are seeded before they are used *)

Lemma mapM_ext_in {A B : Type} (f g : A -> result B) (xs : list A) :
  (forall x, In x xs -> f x = g x) -> mapM f xs = mapM g xs.
Proof.
  induction xs as [|x xs IH]; intros H; [reflexivity|].
  cbn [mapM]. rewrite (H x (or_introl eq_refl)), IH; [reflexivity|].
  intros; apply H; now right.
Qed.

Lemma sub_datasets_any_world full divide_num divide_iter seed w1 w2 data w1' :
  sub_datasets full divide_num divide_iter seed w1 = Ok (data, w1') ->
  exists w2', sub_datasets full divide_num divide_iter seed w2 = Ok (data, w2').
Proof.
  unfold sub_datasets. destruct (divide_num =? 0)%Z.
  - intros H. injection H as <- _. eauto.
  - cbn [py_random set_py_random]. intros H.
    apply bind_Ok_inv in H. destruct H as (id_dict & -> & H). cbn [bind].
    apply bind_Ok_inv in H. destruct H as ([ids g] & -> & H). cbn [bind].
    apply bind_Ok_inv in H. destruct H as (data' & -> & H). cbn [bind].
    injection H as <- _. eauto.
Qed.

Lemma init_subset_any_world data divide_num divide_iter seed w1 w2 sub w1' :
  init_subset data divide_num divide_iter seed w1 = Ok (sub, w1') ->
  exists w2', init_subset data divide_num divide_iter seed w2 = Ok (sub, w2').
Proof.
  unfold init_subset. destruct (divide_num >? 1)%Z.
  - apply sub_datasets_any_world.
  - intros H. injection H as <- _. eauto.
Qed.

Lemma init_few_shot_any_world data k_shot seed w1 w2 few w1' :
  init_few_shot data k_shot seed w1 = Ok (few, w1') ->
  exists w2', init_few_shot data k_shot seed w2 = Ok (few, w2').
Proof.
  unfold init_few_shot. destruct (k_shot >? 0)%Z.
  - cbn [torch_random set_torch_random].
    destruct (k_shot >=? Z.of_nat (List.length data))%Z.
    + intros H. injection H as <- _. eauto.
    + destruct (randint (manual_seed seed) 0 (Z.of_nat (List.length data)) k_shot)
        as [indices g].
      intros H. apply bind_Ok_inv in H. destruct H as (few' & -> & H).
      injection H as <- _. cbn [bind]. eauto.
  - intros H. injection H as <- _. eauto.
Qed.

(** ** The properties of the specification *)

(** C1.  In every constructed Index a record has a mask path if and only
    if the split is TEST and its anomaly type is neither "good" nor
    "fail"; so no record has one in the TRAIN and VAL splits, and a "good"
    record has none in any split. *)
Theorem mask_path_present_iff :
  forall src classname resize imagesize sp clip k_shot seed
         divide_num divide_iter w ds w' r,
    __init__ src classname resize imagesize sp clip
             k_shot seed divide_num divide_iter w = Ok (ds, w') ->
    In r (data_to_iterate ds) ->
    (mask_path r <> None <->
       sp = TEST /\ anomaly r <> "good" /\ anomaly r <> "fail") /\
    (sp = TRAIN \/ sp = VAL -> mask_path r = None) /\
    (anomaly r = "good" -> mask_path r = None).
Proof.
  intros src classname resize imagesize sp clip k_shot seed
         divide_num divide_iter w ds w' r Hinit Hr.
  apply init_Ok_inv in Hinit.
  destruct Hinit as (imgs & full & sub & w1 & Hfull & Hsub & Hfew & _).
  apply get_image_data_rule in Hfull.
  apply init_subset_incl in Hsub. apply init_few_shot_incl in Hfew.
  rewrite Forall_forall in Hfull.
  assert (Hrule : mask_rule sp r) by auto.
  unfold mask_rule in Hrule.
  assert (Hiff : mask_path r <> None <->
                 sp = TEST /\ anomaly r <> "good" /\ anomaly r <> "fail").
  { rewrite <- is_some_true, Hrule. apply wants_mask_iff. }
  split; [exact Hiff|]. split.
  - intros Hsp. destruct (mask_path r) eqn:E; [|reflexivity].
    assert (Hne : Some s <> None) by discriminate.
    apply Hiff in Hne. destruct Hne as [-> _]. destruct Hsp; discriminate.
  - intros Hgood. destruct (mask_path r) eqn:E; [|reflexivity].
    assert (Hne : Some s <> None) by discriminate.
    apply Hiff in Hne. clear_env. tauto.
Qed.

(** C3.  When neither the subset step ([divide_num <= 1]) nor the
    few-shot step ([k_shot = 0]) applies, the constructed Index is a
    sequence of runs, one per class and anomaly type listed under it: the
    runs follow each other by class name and, within a class, by anomaly
    type, both strictly ascending, and the records of a run follow the
    sorted listing of its directory. *)
Theorem index_order :
  forall src classname resize imagesize sp clip k_shot seed
         divide_num divide_iter w ds w',
    (divide_num <= 1)%Z ->
    k_shot = 0%Z ->
    __init__ src classname resize imagesize sp clip
             k_shot seed divide_num divide_iter w = Ok (ds, w') ->
    exists runs : list run,
      map record_key (data_to_iterate ds)
        = flat_map (run_records src sp) runs /\
      StronglySorted group_lt (map run_key runs) /\
      Forall (fun r =>
                exists names,
                  listdir (anomaly_dir src sp (fst (run_key r)) (snd (run_key r)))
                    = Some names /\
                  Permutation names (snd r) /\
                  Sorted str_le (snd r)) runs /\
      (forall c a,
         In (c, a) (map run_key runs) <->
         In c (match classname with Some c0 => [c0] | None => _CLASSNAMES end) /\
         exists types,
           listdir (class_path src sp c) = Some types /\ In a types).
Proof.
  intros src classname resize imagesize sp clip k_shot seed
         divide_num divide_iter w ds w' Hdiv Hk Hinit.
  apply init_Ok_inv in Hinit.
  destruct Hinit as (imgs & full & sub & w1 & Hfull & Hsub & Hfew & _).
  set (classes := match classname with Some c0 => [c0] | None => _CLASSNAMES end)
    in *.
  unfold init_subset in Hsub.
  destruct (Z.gtb_spec divide_num 1); [lia|]. injection Hsub as <- <-.
  unfold init_few_shot in Hfew. subst k_shot. cbn in Hfew.
  injection Hfew as Hdata _.
  rewrite get_image_data_expected in Hfull.
  apply bind_Ok_inv in Hfull. destruct Hfull as (st & Hscan & Hfull).
  apply bind_Ok_inv in Hfull. destruct Hfull as (data & Hexp & Hfull).
  injection Hfull as _ <-.
  pose proof (scanned_listable _ _ _ _ (scan_scanned _ _ _ _ Hscan)) as Hlist.
  exists (index_runs src sp classes).
  split; [rewrite <- Hdata; now apply expected_index_keys|].
  split; [apply index_runs_sorted|].
  split.
  - apply Forall_forall. intros r Hr.
    apply index_runs_In in Hr. destruct Hr as (c & a & Hc & Ha & ->).
    destruct (Hlist c Hc) as (types & Htypes & Hall).
    rewrite (listing_Some _ _ Htypes) in Ha.
    destruct (Hall a Ha) as [Hdir _].
    destruct (listdir (anomaly_dir src sp c a)) as [names|] eqn:Hnames;
      [|congruence].
    exists names. cbn [run_of run_key fst snd].
    rewrite (listing_Some _ _ Hnames).
    split; [exact Hnames|]. split; [apply sorted_perm | apply sorted_Sorted].
  - intros c a. rewrite in_map_iff. split.
    + intros (r & Hkey & Hr).
      apply index_runs_In in Hr. destruct Hr as (c' & a' & Hc & Ha & ->).
      cbn in Hkey. inversion Hkey; subst c' a'.
      split; [exact Hc|].
      destruct (Hlist c Hc) as (types & Htypes & _).
      rewrite (listing_Some _ _ Htypes) in Ha. eauto.
    + intros (Hc & types & Htypes & Ha).
      exists (run_of src sp c a). split; [reflexivity|].
      apply index_runs_In. exists c, a.
      rewrite (listing_Some _ _ Htypes). auto.
Qed.

(** C5.  When the few-shot count [k] is positive and smaller than the
    current Index, the constructor seeds the generator of [torch] with the
    given seed, draws [k] positions of the current Index from it and
    replaces the Index by the records at these positions, in the order
    drawn: the new Index has length [k], and a position drawn twice gives
    its record twice. *)
Theorem few_shot_resamples :
  forall src classname resize imagesize sp clip k_shot seed
         divide_num divide_iter w imgs full cur w1,
    randint_in_range ->
    get_image_data src sp
      (match classname with Some c => [c] | None => _CLASSNAMES end)
      = Ok (imgs, full) ->
    init_subset full divide_num divide_iter seed w = Ok (cur, w1) ->
    (0 < k_shot < Z.of_nat (List.length cur))%Z ->
    let drawn :=
      randint (manual_seed seed) 0 (Z.of_nat (List.length cur)) k_shot in
    exists ds,
      __init__ src classname resize imagesize sp clip
               k_shot seed divide_num divide_iter w
        = Ok (ds, set_torch_random (snd drawn) w1) /\
      Forall2 (fun r i => (0 <= i < Z.of_nat (List.length cur))%Z /\
                          nth_error cur (Z.to_nat i) = Some r)
              (data_to_iterate ds) (fst drawn) /\
      List.length (data_to_iterate ds) = Z.to_nat k_shot /\
      (forall a b i,
         nth_error (fst drawn) a = Some i ->
         nth_error (fst drawn) b = Some i ->
         nth_error (data_to_iterate ds) a = nth_error (data_to_iterate ds) b).
Proof.
  intros src classname resize imagesize sp clip k_shot seed
         divide_num divide_iter w imgs full cur w1 Hrand Hfull Hsub Hk drawn.
  destruct (Hrand (manual_seed seed) 0%Z (Z.of_nat (List.length cur)) k_shot)
    as [Hlen Hrange]; [lia | lia |].
  fold drawn in Hlen, Hrange.
  assert (Hpick : exists data,
    mapM (getitem cur) (fst drawn) = Ok data /\
    Forall2 (fun r i => (0 <= i < Z.of_nat (List.length cur))%Z /\
                        nth_error cur (Z.to_nat i) = Some r)
            data (fst drawn)).
  { clear Hlen. induction Hrange as [|i is_ Hi _ IH].
    - exists []. split; [reflexivity | constructor].
    - destruct IH as (data & Hdata & Hall).
      destruct (getitem_within cur i Hi) as (r & Hnth & Hget).
      exists (r :: data). split.
      + cbn [mapM]. rewrite Hget. cbn [bind]. rewrite Hdata. reflexivity.
      + constructor; auto. }
  destruct Hpick as (data & Hdata & Hall).
  assert (Hfew : init_few_shot cur k_shot seed w1
                 = Ok (data, set_torch_random (snd drawn) w1)).
  { unfold init_few_shot.
    destruct (Z.gtb_spec k_shot 0); [|lia].
    destruct (Z.geb_spec k_shot (Z.of_nat (List.length cur))); [lia|].
    cbn [torch_random set_torch_random].
    fold drawn. destruct drawn as [indices g]. cbn [fst snd] in *.
    rewrite Hdata. reflexivity. }
  destruct (init_Ok_intro src classname resize imagesize sp clip k_shot seed
              divide_num divide_iter w imgs full cur w1 data _ Hfull Hsub Hfew)
    as (ds & Hinit & Hds & _).
  exists ds. rewrite Hds. split; [exact Hinit|]. split; [exact Hall|]. split.
  - rewrite (Forall2_length Hall). exact Hlen.
  - intros a b i Ha Hb. clear - Hall Ha Hb.
    assert (Hget : forall n, nth_error (fst drawn) n = Some i ->
              nth_error data n = nth_error cur (Z.to_nat i)).
    { clear Ha Hb. induction Hall as [|r j data' is_ [_ Hr] _ IH]; intros n Hn.
      - destruct n; discriminate.
      - destruct n as [|n]; cbn in *.
        + injection Hn as ->. now rewrite Hr.
        + now apply IH. }
    now rewrite (Hget a Ha), (Hget b Hb).
Qed.

(** C7.  For an index within the Index whose image file opens (and whose
    mask file opens, when it is read), [get] returns a Sample whose
    [is_anomaly] is 0 exactly when the anomaly type of the record is
    "good", and 1 for every other anomaly type, "fail" included. *)
Theorem is_anomaly_flag :
  forall self idx w r,
    (0 <= idx < Z.of_nat (__len__ self))%Z ->
    nth_error (data_to_iterate self) (Z.to_nat idx) = Some r ->
    Image_open (image_path r) <> None ->
    (forall p, split self = TEST -> mask_path r = Some p ->
               Image_open p <> None) ->
    exists s,
      __getitem__ self idx w = Ok (s, print idx w) /\
      (is_anomaly s = 0%Z <-> anomaly r = "good") /\
      (anomaly r <> "good" -> is_anomaly s = 1%Z) /\
      (anomaly r = "fail" -> is_anomaly s = 1%Z).
Proof.
  intros self idx w r Hidx Hr Himg Hmask.
  destruct (getitem_within (data_to_iterate self) idx Hidx) as (r' & Hr' & Hget).
  assert (r' = r) by congruence. subst r'.
  destruct (Image_open (image_path r)) as [img|] eqn:Hopen; [|now elim Himg].
  rewrite (getitem_unfold self idx w r img Hget Hopen).
  assert (Hm : exists mask,
    match split_eqb (split self) TEST, mask_path r with
    | true, Some p =>
        bind (PIL_Image_open p) (fun m => Ok (transform_mask self m))
    | _, _ =>
        Ok (torch_zeros
              (1 :: skipn 1 (size (transform_img self (convert img "RGB")))))
    end = Ok mask).
  { destruct (split_eqb (split self) TEST) eqn:Hsp; [|eauto].
    destruct (mask_path r) as [p|] eqn:Hp; [|eauto].
    apply split_eqb_TEST in Hsp. specialize (Hmask p Hsp eq_refl).
    unfold PIL_Image_open. destruct (Image_open p); [|now elim Hmask].
    cbn [of_option bind]. eauto. }
  destruct Hm as (mask & ->). cbn [bind].
  eexists. split; [reflexivity|]. cbn [is_anomaly].
  destruct (String.eqb_spec (anomaly r) "good") as [Hg | Hg]; cbn [negb].
  - split; [split; auto|]. split; [intros Hne; now elim Hne|].
    intros Hf. rewrite Hf in Hg. discriminate.
  - split; [split; [discriminate | intros Hg'; now elim Hg]|].
    split; reflexivity.
Qed.


(** C9.  When the few-shot count [k] is positive and at least the size
    of the current Index, the constructor leaves the Index as it is: the
    records, their order and their number are unchanged. *)
Theorem few_shot_large_count_unchanged :
  forall src classname resize imagesize sp clip k_shot seed
         divide_num divide_iter w imgs full cur w1,
    get_image_data src sp
      (match classname with Some c => [c] | None => _CLASSNAMES end)
      = Ok (imgs, full) ->
    init_subset full divide_num divide_iter seed w = Ok (cur, w1) ->
    (0 < k_shot)%Z ->
    (Z.of_nat (List.length cur) <= k_shot)%Z ->
    exists ds,
      __init__ src classname resize imagesize sp clip
               k_shot seed divide_num divide_iter w
        = Ok (ds, set_torch_random (manual_seed seed) w1) /\
      data_to_iterate ds = cur.
Proof.
  intros src classname resize imagesize sp clip k_shot seed
         divide_num divide_iter w imgs full cur w1 Hfull Hsub Hpos Hk.
  assert (Hfew : init_few_shot cur k_shot seed w1
                 = Ok (cur, set_torch_random (manual_seed seed) w1)).
  { unfold init_few_shot.
    destruct (Z.gtb_spec k_shot 0); [|lia].
    destruct (Z.geb_spec k_shot (Z.of_nat (List.length cur))); [|lia].
    reflexivity. }
  destruct (init_Ok_intro src classname resize imagesize sp clip k_shot seed
              divide_num divide_iter w imgs full cur w1 cur _ Hfull Hsub Hfew)
    as (ds & Hinit & Hds & _).
  exists ds. split; assumption.
Qed.

(** C4, as the code has it.  For a full Index read from a directory tree,
    [divide_num > 1] and a [divide_iter] that is not negative, the subset
    step keeps the records at the positions the specification describes:
    the positions are grouped by anomaly type (in the order the types first
    appear), each group is shuffled on the generator seeded with the given
    seed, cut into consecutive chunks of [divide_num] positions, and every
    chunk that has a position [divide_iter] contributes the position it
    holds there; the new Index is the list of the records at the kept
    positions. *)
Theorem subset_step_keeps_spec_positions :
  forall src sp classes imgs full divide_num divide_iter seed w,
    listdir_names_valid ->
    shuffle_permutes ->
    get_image_data src sp classes = Ok (imgs, full) ->
    (1 < divide_num)%Z ->
    (0 <= divide_iter)%Z ->
    let sampled :=
      spec_sample (Z.to_nat divide_num) (Z.to_nat divide_iter)
                  (spec_groups full) (random_seed seed) in
    exists data,
      init_subset full divide_num divide_iter seed w
        = Ok (data, set_py_random (snd sampled) w) /\
      sub_datasets full divide_num divide_iter seed w
        = Ok (data, set_py_random (snd sampled) w) /\
      fst sampled = spec_kept full (Z.to_nat divide_num) (Z.to_nat divide_iter) seed /\
      Forall2 (fun r i => nth_error full i = Some r) data (fst sampled).
Proof.
  intros src sp classes imgs full divide_num divide_iter seed w
         Hvalid Hperm Hfull Hd Hi sampled.
  assert (Hkey : forall r, In r full ->
            getitem (split_slash (image_path r)) (-2) = Ok (anomaly r)).
  { intros r Hr. eapply index_paths_name_type; eassumption. }
  assert (Hgroups : map snd (group_dict anomaly full) = spec_groups full).
  { unfold group_dict, spec_groups. rewrite map_map. reflexivity. }
  assert (Hsub : forall data,
    mapM (fun id => getitem full (Z.of_nat id)) (fst sampled) = Ok data ->
    sub_datasets full divide_num divide_iter seed w
    = Ok (data, set_py_random (snd sampled) w)).
  { intros data Hdata.
    rewrite (sub_datasets_sample anomaly full divide_num divide_iter seed w Hkey)
      by lia.
    rewrite Hgroups. fold sampled. rewrite Hdata. reflexivity. }
  destruct (mapM_getitem_positions full (fst sampled)) as (data & Hdata & Hall).
  { intros i Hin. unfold sampled in Hin.
    apply (spec_sample_In _ _ _ Hperm) in Hin.
    destruct Hin as (ids & Hids & Hin).
    unfold spec_groups in Hids. apply in_map_iff in Hids.
    destruct Hids as (t & <- & _).
    eapply positions_by_lt. exact Hin. }
  exists data. split; [|split; [|split]].
  - unfold init_subset. destruct (Z.gtb_spec divide_num 1); [|lia].
    now apply Hsub.
  - now apply Hsub.
  - reflexivity.
  - exact Hall.
Qed.

(** C10.  For a full Index read from a directory tree, [divide_num > 1]
    and [divide_iter >= divide_num], the subset step returns the empty
    Index: no chunk is longer than [divide_num], so none has a position
    [divide_iter]. *)
Theorem subset_iter_beyond_chunk_empty :
  forall src sp classes imgs full divide_num divide_iter seed w,
    get_image_data src sp classes = Ok (imgs, full) ->
    (1 < divide_num)%Z ->
    (divide_num <= divide_iter)%Z ->
    exists g,
      init_subset full divide_num divide_iter seed w
        = Ok ([], set_py_random g w) /\
      sub_datasets full divide_num divide_iter seed w
        = Ok ([], set_py_random g w).
Proof.
  intros src sp classes imgs full divide_num divide_iter seed w Hfull Hd Hi.
  assert (Hkey : forall r, In r full ->
            getitem (split_slash (image_path r)) (-2) = Ok (path_type r)).
  { intros r Hr. apply path_type_spelled.
    eapply index_paths_have_slash; eassumption. }
  pose proof (sub_datasets_sample path_type full divide_num divide_iter seed w
                Hkey) as Hsub.
  rewrite spec_sample_beyond in Hsub by lia.
  cbn [mapM bind] in Hsub. rewrite set_py_random_twice in Hsub.
  eexists. split; [|apply Hsub; lia].
  unfold init_subset. destruct (Z.gtb_spec divide_num 1); [|lia].
  apply Hsub; lia.
Qed.

(** C2, as the code has it.  In the TEST split, once every directory of
    the scan is listed: a constructed Index pairs the image at position [i]
    of the sorted image files of an anomaly type (other than "good" and
    "fail") with the mask at position [i] of its sorted mask files; when no
    such anomaly type has fewer mask files than image files the Index is
    constructed without an error, surplus masks being left out; and when
    one has fewer mask files than image files the construction raises
    [IndexError]. *)
Theorem mask_pairing_by_position :
  forall src classes st,
    scan src TEST classes = Ok st ->
    (forall imgs data r,
       get_image_data src TEST classes = Ok (imgs, data) ->
       In r data ->
       wants_mask TEST (anomaly r) = true ->
       exists i x m,
         nth_error (sorted (listing (anomaly_dir src TEST (classname r) (anomaly r))))
                   i = Some x /\
         nth_error (sorted (listing (mask_dir src (classname r) (anomaly r))))
                   i = Some m /\
         image_path r
           = os_path_join (anomaly_dir src TEST (classname r) (anomaly r)) [x] /\
         mask_path r
           = Some (os_path_join (mask_dir src (classname r) (anomaly r)) [m])) /\
    ((forall c a,
        In c classes -> In a (listing (class_path src TEST c)) ->
        wants_mask TEST a = true ->
        List.length (listing (anomaly_dir src TEST c a))
        <= List.length (listing (mask_dir src c a))) ->
     exists data, get_image_data src TEST classes = Ok (fst st, data)) /\
    (forall c a,
       In c classes -> In a (listing (class_path src TEST c)) ->
       wants_mask TEST a = true ->
       List.length (listing (mask_dir src c a))
       < List.length (listing (anomaly_dir src TEST c a)) ->
       get_image_data src TEST classes = Raise IndexError).
Proof.
  intros src classes st Hscan.
  pose proof (scanned_listable _ _ _ _ (scan_scanned _ _ _ _ Hscan)) as Hl.
  split; [|split].
  - intros imgs data r Hdata Hr Hw.
    apply get_image_data_index in Hdata.
    eapply expected_index_paired; eassumption.
  - intros Hlen. rewrite get_image_data_expected, Hscan. cbn [bind].
    destruct (expected_index_enough src TEST classes Hl Hlen) as (data & ->).
    cbn [bind]. eauto.
  - intros c a Hc Ha Hw Hlen.
    rewrite get_image_data_expected, Hscan. cbn [bind].
    now rewrite (expected_index_fewer src TEST classes c a Hl Hc Ha Hw Hlen).
Qed.

(** ** Further properties of [__getitem__] *)

Lemma getitem_outcome {A : Type} (xs : list A) (i : Z) :
  getitem xs i = Raise IndexError \/ exists x, getitem xs i = Ok x.
Proof.
  unfold getitem.
  destruct (0 <=? i)%Z;
    [|destruct (0 <=? Z.of_nat (List.length xs) + i)%Z; [|now left]];
    match goal with
    | |- context [nth_error xs ?n] =>
        destruct (nth_error xs n); cbn [of_option]; [right; eauto | now left]
    end.
Qed.

Lemma getitem_beyond {A : Type} (xs : list A) (i : Z) :
  getitem xs i = Raise IndexError <->
  (i < - Z.of_nat (List.length xs) \/ Z.of_nat (List.length xs) <= i)%Z.
Proof.
  unfold getitem.
  destruct (Z.leb_spec 0 i).
  - destruct (nth_error xs (Z.to_nat i)) as [x|] eqn:E; cbn [of_option].
    + assert (nth_error xs (Z.to_nat i) <> None) by congruence.
      apply nth_error_Some in H0. split; [discriminate | lia].
    + apply nth_error_None in E. split; [lia | reflexivity].
  - destruct (Z.leb_spec 0 (Z.of_nat (List.length xs) + i)).
    + destruct (nth_error xs (Z.to_nat (Z.of_nat (List.length xs) + i)))
        as [x|] eqn:E; cbn [of_option].
      * split; [discriminate | lia].
      * apply nth_error_None in E. lia.
    + split; [lia | reflexivity].
Qed.

Lemma getitem_from_end {A : Type} (xs : list A) (i : Z) :
  (- Z.of_nat (List.length xs) <= i < 0)%Z ->
  getitem xs i = getitem xs (Z.of_nat (List.length xs) + i).
Proof.
  intros Hi. unfold getitem.
  destruct (Z.leb_spec 0 i); [lia|].
  destruct (Z.leb_spec 0 (Z.of_nat (List.length xs) + i)); [reflexivity | lia].
Qed.

(** What [__getitem__] does once the record is read. *)
Lemma getitem_after_record self idx w r :
  getitem (data_to_iterate self) idx = Ok r ->
  __getitem__ self idx w
  = bind (PIL_Image_open (image_path r))
      (fun img =>
         bind (match split_eqb (split self) TEST, mask_path r with
               | true, Some p =>
                   bind (PIL_Image_open p) (fun m => Ok (transform_mask self m))
               | _, _ =>
                   Ok (torch_zeros
                         (1 :: skipn 1 (size (transform_img self
                                                (convert img "RGB")))))
               end)
           (fun mask =>
              Ok (mk_Sample (transform_img self (convert img "RGB")) mask
                    (if negb (String.eqb (anomaly r) "good") then 1 else 0)%Z
                    (image_path r),
                  print idx w))).
Proof.
  intros Hr. unfold __getitem__. rewrite Hr. cbn [bind].
  destruct r as [c a p m]. reflexivity.
Qed.

(** X1.  [__getitem__] raises [IndexError] exactly when the index is
    outside [[-len, len)]: a file that cannot be opened raises another
    exception. *)
Theorem getitem_IndexError_iff :
  forall self idx w,
    __getitem__ self idx w = Raise IndexError <->
    (idx < - Z.of_nat (__len__ self) \/ Z.of_nat (__len__ self) <= idx)%Z.
Proof.
  intros self idx w. unfold __len__.
  rewrite <- getitem_beyond.
  destruct (getitem_outcome (data_to_iterate self) idx) as [H | (r & H)].
  - unfold __getitem__. rewrite H. cbn [bind]. split; reflexivity.
  - rewrite (getitem_after_record self idx w r H), H.
    split; [|discriminate].
    unfold PIL_Image_open.
    destruct (Image_open (image_path r)); cbn [of_option bind]; [|discriminate].
    destruct (split_eqb (split self) TEST); [|discriminate].
    destruct (mask_path r) as [p|]; [|discriminate].
    destruct (Image_open p); cbn [of_option bind]; discriminate.
Qed.

(** X2.  A negative index within [[-len, 0)] counts from the end:
    [__getitem__] gives what it gives at [len + idx], except that it prints
    the index it was called with. *)
Theorem getitem_negative_index :
  forall self idx w,
    (- Z.of_nat (__len__ self) <= idx < 0)%Z ->
    __getitem__ self idx w
    = bind (__getitem__ self (Z.of_nat (__len__ self) + idx) w)
           (fun res => Ok (fst res, print idx w)).
Proof.
  intros self idx w Hidx. unfold __len__ in *.
  pose proof (getitem_from_end (data_to_iterate self) idx Hidx) as Hsame.
  destruct (getitem_outcome (data_to_iterate self)
              (Z.of_nat (List.length (data_to_iterate self)) + idx))
    as [H | (r & H)].
  - apply getitem_beyond in H. lia.
  - rewrite (getitem_after_record self _ w r H).
    rewrite H in Hsame. rewrite (getitem_after_record self idx w r Hsame).
    destruct (PIL_Image_open (image_path r)) as [img|e]; cbn [bind];
      [|reflexivity].
    destruct (split_eqb (split self) TEST); [|reflexivity].
    destruct (mask_path r) as [p|]; [|reflexivity].
    destruct (PIL_Image_open p); reflexivity.
Qed.

(** X3.  [__getitem__] returns a Sample exactly when the index is in
    range, the image file of its record opens and, in the TEST split, the
    mask file of the record, if it has one, opens; it then prints the
    index.  In the other splits a mask path is never opened. *)
Theorem getitem_returns_iff :
  forall self idx w,
    (exists s, __getitem__ self idx w = Ok (s, print idx w)) <->
    (exists r,
       getitem (data_to_iterate self) idx = Ok r /\
       Image_open (image_path r) <> None /\
       (forall p, split self = TEST -> mask_path r = Some p ->
                  Image_open p <> None)).
Proof.
  intros self idx w.
  destruct (getitem_outcome (data_to_iterate self) idx) as [H | (r & H)].
  - unfold __getitem__. rewrite H. cbn [bind]. split.
    + intros (s & E). discriminate.
    + intros (r & E & _). discriminate.
  - rewrite (getitem_after_record self idx w r H), H. unfold PIL_Image_open.
    split.
    + intros (s & E). exists r. split; [reflexivity|].
      destruct (Image_open (image_path r)) as [img|]; cbn [of_option bind] in E;
        [|discriminate].
      split; [discriminate|]. intros p Hsp Hp. rewrite Hp in E.
      apply split_eqb_TEST in Hsp. rewrite Hsp in E.
      destruct (Image_open p); [discriminate | discriminate E].
    + intros (r' & Hr' & Himg & Hmask). injection Hr' as <-.
      destruct (Image_open (image_path r)) as [img|]; [|now elim Himg].
      cbn [of_option bind].
      destruct (split_eqb (split self) TEST) eqn:Hsp; [|cbn [bind]; eauto].
      apply split_eqb_TEST in Hsp.
      destruct (mask_path r) as [p|]; [|cbn [bind]; eauto].
      specialize (Hmask p Hsp eq_refl).
      destruct (Image_open p); [|now elim Hmask].
      cbn [of_option bind]. eauto.
Qed.

(** ** Further properties of [get_image_data] *)

Lemma foldM_outcome {A S : Type} (e : exn) (body : S -> A -> result S)
    (xs : list A) :
  (forall s x, In x xs -> body s x = Raise e \/ exists s', body s x = Ok s') ->
  forall s, foldM body xs s = Raise e \/ exists s', foldM body xs s = Ok s'.
Proof.
  induction xs as [|x xs IH]; intros Hbody s; cbn [foldM]; [right; eauto|].
  destruct (Hbody s x (or_introl eq_refl)) as [H | (s1 & H)]; rewrite H;
    cbn [bind]; [now left|].
  apply IH. intros; apply Hbody; now right.
Qed.

Lemma os_listdir_outcome p :
  os_listdir p = Raise OSError \/ exists names, os_listdir p = Ok names.
Proof.
  unfold os_listdir. destruct (listdir p); cbn [of_option]; [right; eauto | now left].
Qed.

Lemma scan_anomaly_local_outcome sp cp mp st a :
  scan_anomaly_local sp cp mp st a = Raise OSError \/
  exists st', scan_anomaly_local sp cp mp st a = Ok st'.
Proof.
  unfold scan_anomaly_local. destruct st as [imgs masks].
  destruct (os_listdir_outcome (os_path_join cp [a])) as [H | (names & H)];
    rewrite H; cbn [bind]; [now left|].
  destruct (wants_mask sp a); [|right; eauto].
  destruct (os_listdir_outcome (os_path_join mp [a])) as [H' | (ms & H')];
    rewrite H'; cbn [bind]; [now left | right; eauto].
Qed.

Lemma scan_class_outcome source sp st c :
  scan_class source sp st c = Raise OSError \/
  exists st', scan_class source sp st c = Ok st'.
Proof.
  destruct st as [imgs masks]. rewrite scan_class_factor.
  unfold scan_class_local.
  destruct (os_listdir_outcome (class_path source sp c)) as [H | (types & H)];
    rewrite H; cbn [bind]; [now left|].
  destruct (foldM_outcome OSError
              (scan_anomaly_local sp (class_path source sp c)
                                  (truth_path source c)) types
              (fun s x _ => scan_anomaly_local_outcome sp _ _ s x) ([], []))
    as [H' | (st' & H')]; rewrite H'; cbn [bind]; [now left | right; eauto].
Qed.

Lemma scan_outcome source sp classes :
  scan source sp classes = Raise OSError \/
  exists st, scan source sp classes = Ok st.
Proof.
  unfold scan. apply foldM_outcome. intros s c _. apply scan_class_outcome.
Qed.

Lemma scan_Ok_listable source sp classes :
  (exists st, scan source sp classes = Ok st) <-> listable source sp classes.
Proof.
  split.
  - intros (st & H). eapply scanned_listable, scan_scanned. exact H.
  - intros H. apply (listable_scan source sp classes H).
Qed.

Lemma expected_index_outcome source sp classes :
  listable source sp classes ->
  expected_index source sp classes = Raise IndexError \/
  exists data, expected_index source sp classes = Ok data.
Proof.
  intros Hl. unfold expected_index.
  destruct (mapM_outcome IndexError (class_records source sp)
              (sorted (nodup string_dec classes))) as [H | (rss & H)];
    rewrite ?H; cbn [bind]; [| now left | right; eauto].
  intros c Hc. rewrite sorted_nodup_In in Hc.
  eapply class_records_outcome; eassumption.
Qed.

Lemma get_image_data_outcome source sp classes :
  get_image_data source sp classes = Raise OSError \/
  get_image_data source sp classes = Raise IndexError \/
  exists imgs data, get_image_data source sp classes = Ok (imgs, data).
Proof.
  rewrite get_image_data_expected.
  destruct (scan_outcome source sp classes) as [H | (st & H)]; rewrite H;
    cbn [bind]; [now left|].
  right.
  assert (Hl : listable source sp classes) by (apply scan_Ok_listable; eauto).
  destruct (expected_index_outcome source sp classes Hl) as [H' | (data & H')];
    rewrite H'; cbn [bind]; [now left | right; eauto].
Qed.

Lemma unlistable_raises source sp classes :
  ~ listable source sp classes ->
  get_image_data source sp classes = Raise OSError.
Proof.
  intros Hnot. rewrite get_image_data_expected.
  destruct (scan_outcome source sp classes) as [H | (st & H)];
    [now rewrite H|].
  exfalso. apply Hnot. apply scan_Ok_listable. eauto.
Qed.

(** X4.  [get_image_data] raises [OSError] exactly when a directory it
    lists is missing: the split directory of a class, the directory of one
    of its anomaly types or, in the TEST split, the ground-truth directory
    of an anomaly type other than "good" and "fail". *)
Theorem get_image_data_OSError_iff :
  forall source sp classes,
    get_image_data source sp classes = Raise OSError <->
    ~ listable source sp classes.
Proof.
  intros source sp classes. split.
  - intros H Hl. rewrite get_image_data_expected in H.
    destruct (proj2 (scan_Ok_listable source sp classes) Hl) as (st & Hst).
    rewrite Hst in H. cbn [bind] in H.
    destruct (expected_index_outcome source sp classes Hl) as [H' | (data & H')];
      rewrite H' in H; discriminate H.
  - apply unlistable_raises.
Qed.

(** X5.  In the TEST split an anomaly type other than "good" and "fail"
    whose ground-truth directory cannot be listed makes [get_image_data]
    raise [OSError], whatever else the tree holds. *)
Theorem missing_ground_truth_raises :
  forall source classes c types a,
    In c classes ->
    listdir (class_path source TEST c) = Some types ->
    In a types ->
    wants_mask TEST a = true ->
    listdir (mask_dir source c a) = None ->
    get_image_data source TEST classes = Raise OSError.
Proof.
  intros source classes c types a Hc Htypes Ha Hw Hnone.
  apply unlistable_raises. intros Hl.
  destruct (Hl c Hc) as (types' & Htypes' & Hall).
  assert (types' = types) by congruence. subst types'.
  destruct (Hall a Ha) as [_ Hmask]. now apply (Hmask Hw).
Qed.

(** X6.  Outside the TEST split no ground-truth directory is read: when
    the split directory of every class and the directory of each of its
    anomaly types can be listed, [get_image_data] returns an Index, and no
    record of it has a mask path. *)
Theorem other_splits_need_no_ground_truth :
  forall source sp classes,
    sp <> TEST ->
    (forall c, In c classes ->
       exists types,
         listdir (class_path source sp c) = Some types /\
         forall a, In a types -> listdir (anomaly_dir source sp c a) <> None) ->
    exists imgs data,
      get_image_data source sp classes = Ok (imgs, data) /\
      Forall (fun r => mask_path r = None) data.
Proof.
  intros source sp classes Hsp Hdirs.
  assert (Hw : forall a, wants_mask sp a = false).
  { intros a. unfold wants_mask. destruct sp; try reflexivity. now elim Hsp. }
  assert (Hl : listable source sp classes).
  { intros c Hc. destruct (Hdirs c Hc) as (types & Htypes & Hall).
    exists types. split; [exact Htypes|]. intros a Ha.
    split; [now apply Hall | rewrite Hw; discriminate]. }
  destruct (proj2 (scan_Ok_listable source sp classes) Hl) as (st & Hst).
  destruct (expected_index_enough source sp classes Hl) as (data & Hdata).
  { intros c a _ _ E. rewrite Hw in E. discriminate E. }
  assert (Hget : get_image_data source sp classes = Ok (fst st, data)).
  { rewrite get_image_data_expected, Hst. cbn [bind]. now rewrite Hdata. }
  exists (fst st), data. split; [exact Hget|].
  apply get_image_data_rule in Hget.
  revert Hget. apply Forall_impl. intros r Hr. unfold mask_rule in Hr.
  rewrite Hw in Hr. destruct (mask_path r); [discriminate Hr | reflexivity].
Qed.

(** X7.  The Index [get_image_data] returns holds the files of the tree
    and nothing else: every file listed under an anomaly type of a class
    has a record, and every record is such a file. *)
Theorem index_holds_the_listed_files :
  forall source sp classes imgs data,
    get_image_data source sp classes = Ok (imgs, data) ->
    (forall c a x,
       In c classes ->
       In a (listing (class_path source sp c)) ->
       In x (listing (anomaly_dir source sp c a)) ->
       exists r,
         In r data /\ classname r = c /\ anomaly r = a /\
         image_path r = os_path_join (anomaly_dir source sp c a) [x]) /\
    (forall r,
       In r data ->
       exists x,
         In (classname r) classes /\
         In (anomaly r) (listing (class_path source sp (classname r))) /\
         In x (listing (anomaly_dir source sp (classname r) (anomaly r))) /\
         image_path r
           = os_path_join (anomaly_dir source sp (classname r) (anomaly r)) [x]).
Proof.
  intros source sp classes imgs data Hdata.
  apply get_image_data_index in Hdata. split.
  - intros c a x Hc Ha Hx.
    assert (Hin : In (c, a, os_path_join (anomaly_dir source sp c a) [x])
                     (map record_key data)).
    { rewrite (expected_index_keys _ _ _ _ Hdata). apply in_flat_map.
      exists (run_of source sp c a). split.
      - apply index_runs_In. eauto.
      - unfold run_of, run_records.
        apply (in_map (fun x => (c, a, os_path_join (anomaly_dir source sp c a) [x]))).
        now apply sorted_In. }
    apply in_map_iff in Hin. destruct Hin as (r & Hkey & Hr).
    unfold record_key in Hkey. injection Hkey as H1 H2 H3.
    exists r. auto.
  - intros r Hr.
    destruct (expected_index_record _ _ _ _ _ Hdata Hr)
      as (c & a & x & Hc & Ha & Hx & <- & <- & Hpath).
    exists x. auto.
Qed.

(** X8.  The dict [imgpaths_per_class] that [get_image_data] returns has
    the classes as keys, each once; the entry of a class has the anomaly
    types listed under it as keys, each once, and maps an anomaly type to
    the paths of its files in sorted order. *)
Theorem imgpaths_per_class_entries :
  forall source sp classes imgs data,
    get_image_data source sp classes = Ok (imgs, data) ->
    NoDup (dict_keys imgs) /\
    (forall c, In c (dict_keys imgs) <-> In c classes) /\
    (forall c, In c classes ->
       exists per_class,
         dict_get imgs c = Ok per_class /\
         NoDup (dict_keys per_class) /\
         (forall a, In a (dict_keys per_class)
                    <-> In a (listing (class_path source sp c))) /\
         (forall a, In a (listing (class_path source sp c)) ->
            dict_get per_class a
            = Ok (map (fun x => os_path_join (anomaly_dir source sp c a) [x])
                      (sorted (listing (anomaly_dir source sp c a)))))).
Proof.
  intros source sp classes imgs data Hdata.
  rewrite get_image_data_expected in Hdata.
  apply bind_Ok_inv in Hdata. destruct Hdata as (st & Hscan & Hdata).
  apply bind_Ok_inv in Hdata. destruct Hdata as (data' & _ & Hdata).
  injection Hdata as <- _.
  destruct (scan_scanned _ _ _ _ Hscan) as (Hnd & Hkeys & Hcls).
  split; [exact Hnd|]. split; [exact Hkeys|].
  intros c Hc.
  destruct (Hcls c Hc) as (types & per_class & masks & Htypes & Hfind & _ & Hs).
  destruct Hs as (Hnd' & Hkeys' & Hpaths & _).
  exists per_class. unfold dict_get. rewrite Hfind.
  rewrite (listing_Some _ _ Htypes).
  split; [reflexivity|]. split; [exact Hnd'|]. split; [exact Hkeys'|].
  intros a Ha. destruct (Hpaths a Ha) as (names & Hnames & Hfa).
  rewrite Hfa, (listing_Some _ _ Hnames). reflexivity.
Qed.

Lemma expected_index_single source sp c :
  expected_index source sp [c]
  = bind (class_records source sp c) (fun rs => Ok rs).
Proof.
  unfold expected_index.
  assert (Hone : sorted (nodup string_dec [c]) = [c]) by reflexivity.
  rewrite Hone. cbn [mapM].
  destruct (class_records source sp c) as [rs|e]; cbn [bind]; [|reflexivity].
  cbn [List.concat]. now rewrite app_nil_r.
Qed.

Lemma listable_incl source sp classes classes' :
  listable source sp classes -> incl classes' classes ->
  listable source sp classes'.
Proof. intros Hl Hincl c Hc. apply Hl. now apply Hincl. Qed.

(** X9.  The Index of several classes is the concatenation of the
    Indexes of the single classes, taken in sorted order and each class
    once. *)
Theorem index_concatenates_classes :
  forall source sp classes imgs data,
    get_image_data source sp classes = Ok (imgs, data) ->
    exists parts,
      Forall2 (fun c part =>
                 exists imgs_c,
                   get_image_data source sp [c] = Ok (imgs_c, part))
              (sorted (nodup string_dec classes)) parts /\
      data = List.concat parts.
Proof.
  intros source sp classes imgs data Hdata.
  rewrite get_image_data_expected in Hdata.
  apply bind_Ok_inv in Hdata. destruct Hdata as (st & Hscan & Hdata).
  apply bind_Ok_inv in Hdata. destruct Hdata as (data' & Hexp & Hdata).
  injection Hdata as _ <-.
  assert (Hl : listable source sp classes) by (apply scan_Ok_listable; eauto).
  unfold expected_index in Hexp.
  apply bind_Ok_inv in Hexp. destruct Hexp as (parts & Hparts & Hexp).
  injection Hexp as <-.
  exists parts. split; [|reflexivity].
  apply mapM_Ok_Forall2 in Hparts.
  assert (Hin : forall c, In c (sorted (nodup string_dec classes)) -> In c classes)
    by (intros c Hc; now rewrite sorted_nodup_In in Hc).
  revert Hin. induction Hparts as [|c part cs parts' Hc _ IH]; intros Hin;
    constructor.
  - assert (Hl1 : listable source sp [c]).
    { apply (listable_incl source sp classes); [exact Hl|].
      intros z [<- | []]. apply Hin. now left. }
    destruct (proj2 (scan_Ok_listable source sp [c]) Hl1) as (st1 & Hst1).
    exists (fst st1). rewrite get_image_data_expected, Hst1. cbn [bind].
    rewrite expected_index_single, Hc. reflexivity.
  - apply IH. intros z Hz. apply Hin. now right.
Qed.

(** X10.  Every record of a constructed Index, whatever subset and
    few-shot steps were applied, names a file listed under an anomaly type
    of one of the classes, and its mask path, when it has one, names a file
    listed in the ground-truth directory of that anomaly type. *)
Theorem constructed_records_name_listed_files :
  forall src cname resize imagesize sp clip k_shot seed
         divide_num divide_iter w ds w' r,
    __init__ src cname resize imagesize sp clip
             k_shot seed divide_num divide_iter w = Ok (ds, w') ->
    In r (data_to_iterate ds) ->
    In (classname r)
       (match cname with Some c => [c] | None => _CLASSNAMES end) /\
    In (anomaly r) (listing (class_path src sp (classname r))) /\
    (exists x,
       In x (listing (anomaly_dir src sp (classname r) (anomaly r))) /\
       image_path r
         = os_path_join (anomaly_dir src sp (classname r) (anomaly r)) [x]) /\
    (forall p, mask_path r = Some p ->
       exists m,
         In m (listing (mask_dir src (classname r) (anomaly r))) /\
         p = os_path_join (mask_dir src (classname r) (anomaly r)) [m]).
Proof.
  intros src cname resize imagesize sp clip k_shot seed
         divide_num divide_iter w ds w' r Hinit Hr.
  apply init_Ok_inv in Hinit.
  destruct Hinit as (imgs & full & sub & w1 & Hfull & Hsub & Hfew & _).
  apply init_subset_incl in Hsub. apply init_few_shot_incl in Hfew.
  assert (Hin : In r full) by auto.
  pose proof (get_image_data_rule _ _ _ _ _ Hfull) as Hrule.
  rewrite Forall_forall in Hrule. specialize (Hrule r Hin).
  apply get_image_data_index in Hfull.
  destruct (expected_index_record _ _ _ _ _ Hfull Hin)
    as (c & a & x & Hc & Ha & Hx & Ec & Ea & Hpath).
  subst c a. split; [exact Hc|]. split; [exact Ha|].
  split; [exists x; split; assumption|].
  intros p Hp. unfold mask_rule in Hrule. rewrite Hp in Hrule.
  cbn [is_some] in Hrule. symmetry in Hrule.
  destruct (expected_index_paired _ _ _ _ _ Hfull Hin Hrule)
    as (i & x' & m & _ & Hm & _ & Hmask).
  exists m. split.
  - apply sorted_In. eapply nth_error_In. exact Hm.
  - congruence.
Qed.

(** ** Further properties of [sub_datasets] and [__init__] *)

Lemma flat_map_nil {A B : Type} (f : A -> list B) (l : list A) :
  (forall x, In x l -> f x = []) -> flat_map f l = [].
Proof.
  induction l as [|x l IH]; intros H; cbn [flat_map]; [reflexivity|].
  rewrite (H x (or_introl eq_refl)), IH; [reflexivity|].
  intros; apply H; now right.
Qed.

Lemma flat_map_app_perm {A B : Type} (f g : A -> list B) (l : list A) :
  Permutation (flat_map (fun x => f x ++ g x) l) (flat_map f l ++ flat_map g l).
Proof.
  induction l as [|x l IH]; cbn [flat_map]; [constructor|].
  rewrite IH, <- !app_assoc. apply Permutation_app_head.
  apply Permutation_app_swap_app.
Qed.

Lemma flat_map_in_ext {A B : Type} (f g : A -> list B) (l : list A) :
  (forall x, In x l -> f x = g x) -> flat_map f l = flat_map g l.
Proof.
  induction l as [|x l IH]; intros H; cbn [flat_map]; [reflexivity|].
  rewrite (H x (or_introl eq_refl)), IH; [reflexivity|].
  intros; apply H; now right.
Qed.

(** Reading a list position by position gives the list back. *)
Lemma flat_map_positions {A : Type} (c : list A) :
  forall n, List.length c <= n ->
    flat_map (fun i => match nth_error c i with
                       | Some x => [x]
                       | None => []
                       end) (seq 0 n) = c.
Proof.
  induction c as [|x c IH]; intros n Hn.
  - apply flat_map_nil. intros i _. now destruct i.
  - destruct n as [|n]; [cbn in Hn; lia|].
    cbn [seq flat_map nth_error app]. f_equal.
    rewrite <- seq_shift, flat_map_map. cbn [nth_error].
    apply IH. cbn in Hn. lia.
Qed.

Lemma spec_keep_cons i chunk rest :
  spec_keep i (chunk :: rest)
  = match nth_error chunk i with Some x => [x] | None => [] end
    ++ spec_keep i rest.
Proof. reflexivity. Qed.

Lemma spec_keep_every_position chunks n :
  (forall chunk, In chunk chunks -> List.length chunk <= n) ->
  Permutation (flat_map (fun i => spec_keep i chunks) (seq 0 n))
              (List.concat chunks).
Proof.
  induction chunks as [|chunk rest IH]; intros Hlen.
  - rewrite flat_map_nil; [constructor | reflexivity].
  - rewrite (flat_map_in_ext _ (fun i =>
               match nth_error chunk i with Some x => [x] | None => [] end
               ++ spec_keep i rest))
      by (intros; apply spec_keep_cons).
    rewrite flat_map_app_perm. cbn [List.concat].
    rewrite flat_map_positions by (apply Hlen; now left).
    apply Permutation_app_head. apply IH. intros; apply Hlen; now right.
Qed.

Lemma concat_spec_chunks n :
  0 < n ->
  forall fuel l, List.length l <= fuel -> List.concat (spec_chunks fuel n l) = l.
Proof.
  intros Hn. induction fuel as [|fuel IH]; intros l Hl.
  - destruct l; [reflexivity | cbn in Hl; lia].
  - destruct l as [|x l]; [reflexivity|].
    cbn [spec_chunks List.concat].
    rewrite IH by (rewrite length_skipn; cbn [List.length] in *; lia).
    apply firstn_skipn.
Qed.

Lemma spec_sample_cons n i group rest g :
  fst (spec_sample n i (group :: rest) g)
  = spec_keep i (spec_chunks (List.length (fst (random_shuffle g group))) n
                             (fst (random_shuffle g group)))
    ++ fst (spec_sample n i rest (snd (random_shuffle g group))).
Proof.
  cbn [spec_sample]. destruct (random_shuffle g group) as [shuffled g1].
  cbn [fst snd]. now destruct (spec_sample n i rest g1).
Qed.

(** Over all positions [i] of a chunk the samples cover every group. *)
Lemma spec_sample_partition n groups :
  shuffle_permutes -> 0 < n ->
  forall g,
    Permutation (flat_map (fun i => fst (spec_sample n i groups g)) (seq 0 n))
                (List.concat groups).
Proof.
  intros Hperm Hn. induction groups as [|group rest IH]; intros g.
  - rewrite flat_map_nil; [constructor | reflexivity].
  - rewrite (flat_map_in_ext _ _ _ (fun i _ => spec_sample_cons n i group rest g)).
    rewrite flat_map_app_perm. cbn [List.concat].
    apply Permutation_app; [|apply IH].
    rewrite spec_keep_every_position
      by (intros chunk Hc; now apply spec_chunks_short in Hc).
    rewrite concat_spec_chunks by (exact Hn || reflexivity).
    symmetry. apply Hperm.
Qed.

Lemma flat_map_one (fs : list string) (t : string) (x : nat) :
  NoDup fs -> In t fs ->
  flat_map (fun t' => if String.eqb t t' then [x] else []) fs = [x].
Proof.
  induction fs as [|a fs IH]; intros Hnd Hin; [destruct Hin|].
  inversion Hnd as [|? ? Hnotin Hnd']; subst. cbn [flat_map].
  destruct (String.eqb_spec t a) as [-> | Hne].
  - rewrite flat_map_nil; [reflexivity|].
    intros t' Ht'. destruct (String.eqb_spec a t') as [-> | _];
      [contradiction | reflexivity].
  - cbn [app]. apply IH; [exact Hnd'|].
    destruct Hin as [-> | Hin]; [now elim Hne | exact Hin].
Qed.

(** The groups hold every position of the Index once. *)
Lemma group_dict_partition key full :
  Permutation (List.concat (map snd (group_dict key full)))
              (seq 0 (List.length full)).
Proof.
  unfold group_dict. rewrite map_map. cbn [snd]. rewrite <- flat_map_concat_map.
  induction full as [|r l IH] using rev_ind; [constructor|].
  rewrite map_app. cbn [map]. rewrite first_seen_snoc.
  rewrite length_app. cbn [List.length]. rewrite Nat.add_1_r, seq_S.
  cbn [Nat.add].
  set (fs := first_seen (map key l)) in *.
  assert (Hnd : NoDup fs) by apply first_seen_NoDup.
  destruct (str_in (key r) fs) eqn:E.
  - apply str_in_In in E.
    rewrite (flat_map_in_ext _ (fun t =>
               positions_by key t l
               ++ (if String.eqb (key r) t then [List.length l] else [])) fs)
      by (intros; apply positions_by_snoc).
    rewrite flat_map_app_perm, (flat_map_one fs (key r) _ Hnd E).
    now apply Permutation_app_tail.
  - apply str_in_false in E. rewrite flat_map_app. cbn [flat_map].
    rewrite app_nil_r, positions_by_snoc, String.eqb_refl.
    rewrite (positions_by_notin key (key r) l)
      by (intros Hin; apply E; now apply first_seen_In).
    cbn [app].
    rewrite (flat_map_in_ext _ (fun t => positions_by key t l) fs).
    + now apply Permutation_app_tail.
    + intros t Ht. rewrite positions_by_snoc.
      destruct (String.eqb_spec (key r) t) as [<- | _];
        [contradiction | apply app_nil_r].
Qed.

Lemma mapM_getitem_flat_map {A : Type} (xs : list A) (ids : list nat) :
  (forall i, In i ids -> i < List.length xs) ->
  mapM (fun id => getitem xs (Z.of_nat id)) ids
  = Ok (flat_map (fun i => match nth_error xs i with
                           | Some x => [x]
                           | None => []
                           end) ids).
Proof.
  induction ids as [|i ids IH]; intros H; [reflexivity|].
  cbn [mapM flat_map]. rewrite getitem_nat.
  destruct (nth_error xs i) as [x|] eqn:E.
  - cbn [of_option bind]. rewrite IH by (intros; apply H; now right).
    reflexivity.
  - apply nth_error_None in E. specialize (H i (or_introl eq_refl)). lia.
Qed.

Lemma group_dict_In_lt key full ids i :
  In ids (map snd (group_dict key full)) -> In i ids -> i < List.length full.
Proof.
  unfold group_dict. rewrite map_map. cbn [snd]. rewrite in_map_iff.
  intros (t & <- & _). apply positions_by_lt.
Qed.

Lemma Forall2_map_right {A B : Type} (P : A -> B -> Prop) (f : A -> B)
    (l : list A) :
  (forall x, In x l -> P x (f x)) -> Forall2 P l (map f l).
Proof.
  induction l as [|x l IH]; intros H; cbn [map]; constructor.
  - apply H. now left.
  - apply IH. intros; apply H; now right.
Qed.

Lemma constructed_paths_spell_type source sp classes imgs full :
  get_image_data source sp classes = Ok (imgs, full) ->
  forall r, In r full ->
    getitem (split_slash (image_path r)) (-2) = Ok (path_type r).
Proof.
  intros H r Hr. apply path_type_spelled.
  eapply index_paths_have_slash; eassumption.
Qed.

(** X11.  For a positive [divide_num] the subsets of the values
    [0 .. divide_num - 1] of [divide_iter], taken with one seed, split the
    Index: [sub_datasets] returns each of them, and together they hold every
    record of the Index exactly as often as the Index does. *)
Theorem subsets_split_the_index :
  forall source sp classes imgs full divide_num seed w,
    shuffle_permutes ->
    get_image_data source sp classes = Ok (imgs, full) ->
    (0 < divide_num)%Z ->
    exists parts,
      Forall2 (fun i part =>
                 exists w',
                   sub_datasets full divide_num (Z.of_nat i) seed w
                   = Ok (part, w'))
              (seq 0 (Z.to_nat divide_num)) parts /\
      Permutation (List.concat parts) full.
Proof.
  intros source sp classes imgs full divide_num seed w Hperm Hfull Hd.
  pose proof (constructed_paths_spell_type _ _ _ _ _ Hfull) as Hkey.
  set (n := Z.to_nat divide_num).
  set (groups := map snd (group_dict path_type full)).
  set (kept := fun i => fst (spec_sample n i groups (random_seed seed))).
  set (pick_records := fun ids : list nat =>
         flat_map (fun i => match nth_error full i with
                            | Some x => [x]
                            | None => []
                            end) ids).
  assert (Hlt : forall i p, In p (kept i) -> p < List.length full).
  { intros i p Hp. unfold kept in Hp.
    apply (spec_sample_In _ _ _ Hperm) in Hp. destruct Hp as (ids & Hids & Hp).
    eapply group_dict_In_lt; eassumption. }
  exists (map (fun i => pick_records (kept i)) (seq 0 n)). split.
  - apply Forall2_map_right. intros i _.
    rewrite (sub_datasets_sample path_type full divide_num (Z.of_nat i) seed w
               Hkey Hd) by lia.
    rewrite Nat2Z.id. fold n. fold groups. fold (kept i).
    rewrite mapM_getitem_flat_map by (apply Hlt). cbn [bind]. eauto.
  - rewrite <- flat_map_concat_map.
    unfold pick_records. rewrite <- flat_map_flat_map.
    assert (Hn : 0 < n) by (unfold n; lia).
    pose proof (spec_sample_partition n groups Hperm Hn (random_seed seed))
      as Hkept.
    pose proof (group_dict_partition path_type full) as Hgroups.
    etransitivity; [apply Permutation_flat_map; exact Hkept|].
    etransitivity; [apply Permutation_flat_map; exact Hgroups|].
    now rewrite flat_map_positions.
Qed.

Lemma positions_by_In key t full p r :
  nth_error full p = Some r -> key r = t -> In p (positions_by key t full).
Proof.
  intros Hp Ht. unfold positions_by.
  apply (in_map fst _ (p, r)). apply filter_In. split.
  - now apply enumerate_In.
  - cbn [snd]. rewrite Ht. apply String.eqb_refl.
Qed.

Lemma positions_by_key key t full p :
  In p (positions_by key t full) ->
  exists r, nth_error full p = Some r /\ key r = t.
Proof.
  unfold positions_by. rewrite in_map_iff.
  intros ([q r] & <- & H). apply filter_In in H. destruct H as [Hin Hk].
  apply enumerate_In in Hin. cbn [fst snd] in *.
  exists r. split; [exact Hin | now apply String.eqb_eq].
Qed.

Lemma spec_sample_first n groups :
  shuffle_permutes -> 0 < n ->
  forall g group,
    In group groups -> group <> [] ->
    exists x, In x group /\ In x (fst (spec_sample n 0 groups g)).
Proof.
  intros Hperm Hn. induction groups as [|ids rest IH]; intros g group Hin Hne;
    [destruct Hin|].
  rewrite spec_sample_cons. destruct Hin as [-> | Hin].
  - pose proof (Hperm g group) as Hp.
    destruct (fst (random_shuffle g group)) as [|x s] eqn:Es.
    + apply Permutation_sym, Permutation_nil in Hp. contradiction.
    + exists x. split.
      * eapply Permutation_in; [symmetry; exact Hp | now left].
      * apply in_or_app. left. destruct n as [|n]; [lia|].
        cbn [List.length spec_chunks firstn spec_keep flat_map nth_error app].
        now left.
  - destruct (IH (snd (random_shuffle g ids)) group Hin Hne) as (x & Hx & Hk).
    exists x. split; [exact Hx|]. apply in_or_app. now right.
Qed.

(** X12.  With [divide_iter = 0] the subset keeps at least one record of
    every anomaly type of the Index. *)
Theorem first_subset_keeps_every_anomaly_type :
  forall source sp classes imgs full divide_num seed w,
    listdir_names_valid ->
    shuffle_permutes ->
    get_image_data source sp classes = Ok (imgs, full) ->
    (0 < divide_num)%Z ->
    exists data w',
      sub_datasets full divide_num 0 seed w = Ok (data, w') /\
      forall r, In r full -> exists r', In r' data /\ anomaly r' = anomaly r.
Proof.
  intros source sp classes imgs full divide_num seed w Hvalid Hperm Hfull Hd.
  assert (Hkey : forall r, In r full ->
            getitem (split_slash (image_path r)) (-2) = Ok (anomaly r)).
  { intros r Hr. eapply index_paths_name_type; eassumption. }
  set (n := Z.to_nat divide_num).
  set (groups := map snd (group_dict anomaly full)).
  set (kept := fst (spec_sample n 0 groups (random_seed seed))).
  destruct (mapM_getitem_positions full kept) as (data & Hdata & Hall).
  { intros p Hp. unfold kept in Hp.
    apply (spec_sample_In _ _ _ Hperm) in Hp. destruct Hp as (ids & Hids & Hp).
    eapply group_dict_In_lt; eassumption. }
  exists data. eexists. split.
  - rewrite (sub_datasets_sample anomaly full divide_num 0 seed w Hkey Hd)
      by lia.
    change (Z.to_nat 0) with 0. fold n. fold groups. fold kept.
    rewrite Hdata. reflexivity.
  - intros r Hr. apply In_nth_error in Hr. destruct Hr as (p & Hp).
    assert (Hgroup : In (positions_by anomaly (anomaly r) full) groups).
    { unfold groups, group_dict. rewrite map_map. cbn [snd].
      apply (in_map (fun t => positions_by anomaly t full)).
      apply first_seen_In. apply in_map. eapply nth_error_In. exact Hp. }
    destruct (spec_sample_first n groups Hperm ltac:(unfold n; lia)
                (random_seed seed) _ Hgroup) as (x & Hx & Hk).
    { intros E. pose proof (positions_by_In anomaly (anomaly r) full p r Hp eq_refl)
        as Hin. rewrite E in Hin. destruct Hin. }
    apply positions_by_key in Hx. destruct Hx as (r' & Hr' & Ha).
    exists r'. split; [|exact Ha].
    fold kept in Hk. clear - Hall Hk Hr'.
    induction Hall as [|y i ys is_ Hy _ IH]; [destruct Hk|].
    destruct Hk as [-> | Hk]; [left; congruence | right; now apply IH].
Qed.

Lemma sample_ids_negative divide_num divide_iter acc g ids :
  (divide_num < 0)%Z ->
  sample_ids divide_num divide_iter (acc, g) ids
  = Ok (acc, snd (random_shuffle g ids)).
Proof.
  intros Hd. unfold sample_ids, devide, range.
  destruct (random_shuffle g ids) as [shuffled g1]. cbn [snd].
  destruct (Z.eqb_spec divide_num 0); [lia|].
  destruct (Z.ltb_spec 0 divide_num); [lia|].
  destruct (Z.ltb_spec (Z.of_nat (List.length shuffled)) 0); [lia|].
  cbn [Z.to_nat seq map bind pick]. now rewrite app_nil_r.
Qed.

(** X13.  Called with a negative [divide_num], [sub_datasets] cuts no
    chunk at all and returns the empty list for an Index read from a
    tree. *)
Theorem sub_datasets_negative_divide_num :
  forall source sp classes imgs full divide_num divide_iter seed w,
    get_image_data source sp classes = Ok (imgs, full) ->
    (divide_num < 0)%Z ->
    exists g,
      sub_datasets full divide_num divide_iter seed w
      = Ok ([], set_py_random g w).
Proof.
  intros source sp classes imgs full divide_num divide_iter seed w Hfull Hd.
  pose proof (constructed_paths_spell_type _ _ _ _ _ Hfull) as Hkey.
  unfold sub_datasets. destruct (Z.eqb_spec divide_num 0); [lia|].
  rewrite (group_fold path_type full Hkey (List.length full)) by reflexivity.
  rewrite firstn_all. cbn [bind py_random set_py_random].
  rewrite (foldM_sample_group_values (group_dict path_type full)
             divide_num divide_iter (group_dict path_type full))
    by (apply dict_find_first; unfold group_dict; rewrite dict_keys_map;
        apply first_seen_NoDup).
  assert (Hfold : forall groups acc g,
            exists g', foldM (sample_ids divide_num divide_iter) groups (acc, g)
                       = Ok (acc, g')).
  { induction groups as [|ids groups IH]; intros acc g; cbn [foldM]; [eauto|].
    rewrite sample_ids_negative by exact Hd. cbn [bind]. apply IH. }
  destruct (Hfold (map snd (group_dict path_type full)) [] (random_seed seed))
    as (g' & ->).
  cbn [bind mapM]. exists g'. reflexivity.
Qed.

Lemma pick_outcome chunks divide_iter :
  pick chunks divide_iter = Raise IndexError \/
  exists ids, pick chunks divide_iter = Ok ids.
Proof.
  induction chunks as [|chunk rest IH]; cbn [pick]; [right; eauto|].
  destruct (Z.of_nat (List.length chunk) >? divide_iter)%Z; [|exact IH].
  destruct (getitem_outcome chunk divide_iter) as [H | (x & H)]; rewrite H;
    cbn [bind]; [now left|].
  destruct IH as [H' | (ids & H')]; rewrite H'; cbn [bind];
    [now left | right; eauto].
Qed.

Lemma sample_ids_outcome divide_num divide_iter st ids :
  (0 < divide_num)%Z ->
  sample_ids divide_num divide_iter st ids = Raise IndexError \/
  exists st', sample_ids divide_num divide_iter st ids = Ok st'.
Proof.
  intros Hd. unfold sample_ids. destruct st as [acc g].
  destruct (random_shuffle g ids) as [shuffled g1].
  rewrite devide_chunks by exact Hd. cbn [bind].
  destruct (pick_outcome (spec_chunks (List.length shuffled)
                            (Z.to_nat divide_num) shuffled) divide_iter)
    as [H | (kept & H)]; rewrite H; cbn [bind]; [now left | right; eauto].
Qed.

Lemma sub_datasets_outcome source sp classes imgs full
    divide_num divide_iter seed w :
  get_image_data source sp classes = Ok (imgs, full) ->
  (0 < divide_num)%Z ->
  sub_datasets full divide_num divide_iter seed w = Raise IndexError \/
  exists res, sub_datasets full divide_num divide_iter seed w = Ok res.
Proof.
  intros Hfull Hd.
  pose proof (constructed_paths_spell_type _ _ _ _ _ Hfull) as Hkey.
  unfold sub_datasets. destruct (Z.eqb_spec divide_num 0); [lia|].
  rewrite (group_fold path_type full Hkey (List.length full)) by reflexivity.
  rewrite firstn_all. cbn [bind py_random set_py_random].
  rewrite (foldM_sample_group_values (group_dict path_type full)
             divide_num divide_iter (group_dict path_type full))
    by (apply dict_find_first; unfold group_dict; rewrite dict_keys_map;
        apply first_seen_NoDup).
  destruct (foldM_outcome IndexError (sample_ids divide_num divide_iter)
              (map snd (group_dict path_type full))
              (fun s x _ => sample_ids_outcome divide_num divide_iter s x Hd)
              ([], random_seed seed)) as [H | ([ids g] & H)];
    rewrite H; cbn [bind]; [now left|].
  destruct (mapM_outcome IndexError (fun id => getitem full (Z.of_nat id)) ids)
    as [H' | (data & H')]; rewrite ?H'; cbn [bind];
    [| now left | right; eauto].
  intros id _. apply getitem_outcome.
Qed.

Lemma init_few_shot_outcome data k_shot seed w :
  init_few_shot data k_shot seed w = Raise IndexError \/
  exists res, init_few_shot data k_shot seed w = Ok res.
Proof.
  unfold init_few_shot. destruct (k_shot >? 0)%Z; [|right; eauto].
  destruct (k_shot >=? Z.of_nat (List.length data))%Z; [right; eauto|].
  destruct (randint _ _ _ _) as [indices g].
  destruct (mapM_outcome IndexError (getitem data) indices)
    as [H | (few & H)]; rewrite ?H; cbn [bind]; [| now left | right; eauto].
  intros i _. apply getitem_outcome.
Qed.

(** X14.  A construction returns a dataset or raises [OSError] or
    [IndexError]; it never raises [KeyError], [TypeError] or
    [ValueError]: every dict key it reads was written before, the [None]
    stored under "good" is never subscripted, and [range] gets no zero
    step. *)
Theorem init_raises_only_OSError_or_IndexError :
  forall src cname resize imagesize sp clip k_shot seed divide_num divide_iter w,
    __init__ src cname resize imagesize sp clip
             k_shot seed divide_num divide_iter w = Raise OSError \/
    __init__ src cname resize imagesize sp clip
             k_shot seed divide_num divide_iter w = Raise IndexError \/
    exists ds w',
      __init__ src cname resize imagesize sp clip
               k_shot seed divide_num divide_iter w = Ok (ds, w').
Proof.
  intros src cname resize imagesize sp clip k_shot seed divide_num divide_iter w.
  unfold __init__.
  set (classes := match cname with Some c => [c] | None => _CLASSNAMES end).
  destruct (get_image_data_outcome src sp classes)
    as [H | [H | (imgs & full & H)]]; rewrite H; cbn [bind];
    [now left | right; now left |].
  assert (Hsub : init_subset full divide_num divide_iter seed w = Raise IndexError \/
                 exists res, init_subset full divide_num divide_iter seed w = Ok res).
  { unfold init_subset. destruct (Z.gtb_spec divide_num 1); [|right; eauto].
    eapply sub_datasets_outcome; [exact H | lia]. }
  destruct Hsub as [Hsub | ([sub w1] & Hsub)]; rewrite Hsub; cbn [bind];
    [right; now left|].
  destruct (init_few_shot_outcome sub k_shot seed w1) as [Hfew | ([few w2] & Hfew)];
    rewrite Hfew; cbn [bind]; [right; now left|].
  right. right. eauto.
Qed.

(** ** The sizes of the subsets *)

Lemma spec_chunks_nil fuel n : spec_chunks fuel n [] = [].
Proof. now destruct fuel. Qed.

(** A list of [m] positions cut into chunks of [n] has a position [i] in
    [m / n] full chunks, and in the last chunk when [i < m mod n]. *)
Lemma spec_keep_chunks_length n i :
  0 < n -> i < n ->
  forall fuel l, List.length l <= fuel ->
    List.length (spec_keep i (spec_chunks fuel n l))
    = List.length l / n + (if (i <? List.length l mod n)%nat then 1 else 0).
Proof.
  intros Hn Hi. induction fuel as [|fuel IH]; intros l Hl.
  - destruct l; [|cbn in Hl; lia]. cbn [List.length spec_chunks spec_keep flat_map].
    rewrite Nat.Div0.div_0_l, Nat.Div0.mod_0_l. reflexivity.
  - destruct l as [|x l].
    { cbn [List.length spec_chunks spec_keep flat_map].
      rewrite Nat.Div0.div_0_l, Nat.Div0.mod_0_l. reflexivity. }
    set (L := x :: l) in *. change (spec_chunks (S fuel) n L)
      with (firstn n L :: spec_chunks fuel n (skipn n L)).
    rewrite spec_keep_cons, length_app.
    destruct (Nat.le_gt_cases n (List.length L)) as [Hge | Hlt].
    + rewrite IH by (rewrite length_skipn; unfold L in *; cbn [List.length] in *; lia).
      rewrite length_skipn.
      destruct (nth_error (firstn n L) i) eqn:E.
      * cbn [List.length].
        assert (HL : List.length L = (List.length L - n) + 1 * n) by lia.
        rewrite HL at 3 4. rewrite Nat.div_add, Nat.Div0.mod_add by lia. lia.
      * apply nth_error_None in E. rewrite length_firstn in E. lia.
    + rewrite skipn_all2, spec_chunks_nil by lia.
      rewrite firstn_all2 by lia.
      cbn [spec_keep flat_map List.length].
      rewrite Nat.div_small, Nat.mod_small by lia.
      destruct (Nat.ltb_spec i (List.length L)) as [H | H].
      * destruct (nth_error L i) eqn:E; [reflexivity|].
        apply nth_error_None in E. lia.
      * apply nth_error_None in H. rewrite H. reflexivity.
Qed.

Lemma filter_all {A : Type} (f : A -> bool) (l : list A) :
  (forall x, In x l -> f x = true) -> filter f l = l.
Proof.
  induction l as [|x l IH]; intros H; [reflexivity|]. cbn [filter].
  rewrite (H x (or_introl eq_refl)), IH; [reflexivity|].
  intros; apply H; now right.
Qed.

Lemma filter_none {A : Type} (f : A -> bool) (l : list A) :
  (forall x, In x l -> f x = false) -> filter f l = [].
Proof.
  induction l as [|x l IH]; intros H; [reflexivity|]. cbn [filter].
  rewrite (H x (or_introl eq_refl)), IH; [reflexivity|].
  intros; apply H; now right.
Qed.

(** Counting the records read at the positions [ids] is counting the
    positions whose record has the type. *)
Lemma count_type_positions t full ids :
  count_type t (flat_map (fun i => match nth_error full i with
                                   | Some x => [x]
                                   | None => []
                                   end) ids)
  = List.length
      (filter (fun p => match nth_error full p with
                        | Some r => String.eqb (anomaly r) t
                        | None => false
                        end) ids).
Proof.
  unfold count_type. induction ids as [|p ids IH]; [reflexivity|].
  cbn [flat_map filter]. rewrite filter_app, length_app, IH.
  destruct (nth_error full p) as [r|]; [|reflexivity].
  cbn [filter]. now destruct (String.eqb (anomaly r) t).
Qed.

Lemma filter_enumerate_length {A : Type} (f : A -> bool) (l : list A) :
  forall s,
    List.length (filter (fun e => f (snd e)) (combine (seq s (List.length l)) l))
    = List.length (filter f l).
Proof.
  induction l as [|x l IH]; intros s; [reflexivity|].
  cbn [List.length seq combine filter snd].
  destruct (f x); cbn [List.length]; now rewrite IH.
Qed.

Lemma positions_by_length t full :
  List.length (positions_by anomaly t full) = count_type t full.
Proof.
  unfold positions_by, count_type, enumerate. rewrite length_map.
  apply (filter_enumerate_length (fun r => String.eqb (anomaly r) t)).
Qed.

Lemma kept_positions_in_group n i g group p :
  shuffle_permutes ->
  In p (spec_keep i (spec_chunks (List.length (fst (random_shuffle g group))) n
                                 (fst (random_shuffle g group)))) ->
  In p group.
Proof.
  intros Hperm Hp. apply spec_keep_In in Hp. destruct Hp as (chunk & Hc & Hp).
  apply spec_chunks_short in Hc. destruct Hc as [_ Hincl].
  eapply Permutation_in; [symmetry; apply (Hperm g group) | now apply Hincl].
Qed.

(** The kept positions whose record has type [t], for groups keyed by
    distinct types. *)
Lemma kept_of_type_length n i t full :
  shuffle_permutes -> 0 < n -> i < n ->
  forall ks g,
    NoDup ks ->
    List.length
      (filter (fun p => match nth_error full p with
                        | Some r => String.eqb (anomaly r) t
                        | None => false
                        end)
              (fst (spec_sample n i
                      (map (fun k => positions_by anomaly k full) ks) g)))
    = if str_in t ks
      then count_type t full / n + (if (i <? count_type t full mod n)%nat then 1 else 0)
      else 0.
Proof.
  intros Hperm Hn Hi. induction ks as [|k ks IH]; intros g Hnd; [reflexivity|].
  inversion Hnd as [|? ? Hnotin Hnd']; subst. cbn [map].
  rewrite spec_sample_cons, filter_app, length_app, IH by exact Hnd'.
  change (str_in t (k :: ks)) with (String.eqb t k || str_in t ks).
  destruct (String.eqb_spec t k) as [<- | Hne].
  - rewrite filter_all.
    + rewrite spec_keep_chunks_length by (exact Hn || exact Hi || reflexivity).
      rewrite <- (Permutation_length (Hperm g (positions_by anomaly t full))).
      rewrite positions_by_length.
      destruct (str_in t ks) eqn:E; [apply str_in_In in E; contradiction|].
      cbn [orb]. lia.
    + intros p Hp. apply (kept_positions_in_group _ _ _ _ _ Hperm) in Hp.
      apply positions_by_key in Hp. destruct Hp as (r & -> & ->).
      apply String.eqb_refl.
  - rewrite filter_none.
    + cbn [List.length Nat.add orb]. reflexivity.
    + intros p Hp. apply (kept_positions_in_group _ _ _ _ _ Hperm) in Hp.
      apply positions_by_key in Hp. destruct Hp as (r & -> & ->).
      apply String.eqb_neq. congruence.
Qed.

Lemma count_type_absent t full :
  ~ In t (map anomaly full) -> count_type t full = 0.
Proof.
  intros H. rewrite <- positions_by_length.
  now rewrite positions_by_notin.
Qed.

(** X15.  The division is uniform for each anomaly type: for
    [0 <= divide_iter < divide_num] the subset holds, of the [m] records of
    an anomaly type, [m / divide_num] records, and one more when
    [divide_iter < m mod divide_num]. *)
Theorem subset_takes_even_share_of_each_type :
  forall source sp classes imgs full divide_num divide_iter seed w t,
    listdir_names_valid ->
    shuffle_permutes ->
    get_image_data source sp classes = Ok (imgs, full) ->
    (0 <= divide_iter < divide_num)%Z ->
    exists data w',
      sub_datasets full divide_num divide_iter seed w = Ok (data, w') /\
      Z.of_nat (count_type t data)
      = (Z.of_nat (count_type t full) / divide_num
         + (if divide_iter <? Z.of_nat (count_type t full) mod divide_num
            then 1 else 0))%Z.
Proof.
  intros source sp classes imgs full divide_num divide_iter seed w t
         Hvalid Hperm Hfull Hi.
  assert (Hkey : forall r, In r full ->
            getitem (split_slash (image_path r)) (-2) = Ok (anomaly r)).
  { intros r Hr. eapply index_paths_name_type; eassumption. }
  set (n := Z.to_nat divide_num). set (i := Z.to_nat divide_iter).
  assert (Hn : 0 < n) by (unfold n; lia).
  assert (Hin : i < n) by (unfold i, n; lia).
  set (kept := fst (spec_sample n i (map snd (group_dict anomaly full))
                                (random_seed seed))).
  assert (Hlt : forall p, In p kept -> p < List.length full).
  { intros p Hp. unfold kept in Hp.
    apply (spec_sample_In _ _ _ Hperm) in Hp. destruct Hp as (ids & Hids & Hp).
    eapply group_dict_In_lt; eassumption. }
  eexists. eexists. split.
  - rewrite (sub_datasets_sample anomaly full divide_num divide_iter seed w Hkey)
      by lia.
    fold n. fold i. fold kept.
    rewrite (mapM_getitem_flat_map full kept Hlt). cbn [bind]. reflexivity.
  - rewrite count_type_positions. unfold kept, group_dict.
    rewrite map_map. cbn [snd].
    rewrite (kept_of_type_length n i t full Hperm Hn Hin)
      by apply first_seen_NoDup.
    set (m := count_type t full).
    assert (Hm : str_in t (first_seen (map anomaly full)) = false -> m = 0).
    { intros E. apply str_in_false in E. apply count_type_absent.
      intros H. apply E. now apply first_seen_In. }
    assert (Hshare : Z.of_nat (m / n + (if (i <? m mod n)%nat then 1 else 0))
                     = (Z.of_nat m / divide_num
                        + (if divide_iter <? Z.of_nat m mod divide_num
                           then 1 else 0))%Z).
    { rewrite Nat2Z.inj_add, Nat2Z.inj_div.
      replace (Z.of_nat n) with divide_num by (unfold n; lia).
      f_equal.
      assert (Hmod : Z.of_nat (m mod n) = (Z.of_nat m mod divide_num)%Z).
      { rewrite Nat2Z.inj_mod. f_equal. unfold n; lia. }
      destruct (Nat.ltb_spec i (m mod n)), (Z.ltb_spec divide_iter
                                              (Z.of_nat m mod divide_num));
        unfold i in *; lia. }
    destruct (str_in t (first_seen (map anomaly full))) eqn:E; [exact Hshare|].
    rewrite <- Hshare, (Hm eq_refl).
    rewrite Nat.Div0.div_0_l, Nat.Div0.mod_0_l. reflexivity.
Qed.

(** ** What a construction leaves alone *)

Lemma sub_datasets_frame full divide_num divide_iter seed w data w' :
  sub_datasets full divide_num divide_iter seed w = Ok (data, w') ->
  torch_random w' = torch_random w /\ stdout w' = stdout w.
Proof.
  unfold sub_datasets. destruct (divide_num =? 0)%Z.
  - intros H. injection H as _ <-. now split.
  - destruct (foldM _ _ _) as [d|e]; cbn [bind]; [|discriminate].
    destruct (foldM _ _ _) as [[ids g]|e]; cbn [bind]; [|discriminate].
    destruct (mapM _ _) as [recs|e]; cbn [bind]; [|discriminate].
    intros H. injection H as _ <-. now split.
Qed.

Lemma init_few_shot_frame data k_shot seed w few w' :
  init_few_shot data k_shot seed w = Ok (few, w') ->
  py_random w' = py_random w /\ stdout w' = stdout w /\
  ((k_shot <= 0)%Z -> w' = w).
Proof.
  unfold init_few_shot. destruct (Z.gtb_spec k_shot 0) as [Hk | Hk].
  - destruct (k_shot >=? _)%Z.
    + intros E. injection E as _ <-. repeat split. lia.
    + destruct (randint _ _ _ _) as [indices g].
      destruct (mapM _ _) as [recs|e]; cbn [bind]; [|discriminate].
      intros E. injection E as _ <-. repeat split. lia.
  - intros E. injection E as _ <-. now repeat split.
Qed.

(** X16.  A construction that returns prints nothing; it leaves the
    generator of [random] as it was unless [divide_num > 1], and the
    generator of torch as it was unless [k_shot > 0]. *)
Theorem construction_leaves_unused_generators :
  forall src cname resize imagesize sp clip k_shot seed divide_num divide_iter
         w ds w',
    __init__ src cname resize imagesize sp clip
             k_shot seed divide_num divide_iter w = Ok (ds, w') ->
    stdout w' = stdout w /\
    ((divide_num <= 1)%Z -> py_random w' = py_random w) /\
    ((k_shot <= 0)%Z -> torch_random w' = torch_random w).
Proof.
  intros src cname resize imagesize sp clip k_shot seed divide_num divide_iter
         w ds w'.
  unfold __init__.
  destruct (get_image_data _ _ _) as [[imgs full]|e]; cbn [bind]; [|discriminate].
  destruct (init_subset full divide_num divide_iter seed w) as [[sub w1]|e]
    eqn:Hsub; cbn [bind]; [|discriminate].
  destruct (init_few_shot sub k_shot seed w1) as [[few w2]|e] eqn:Hfew;
    cbn [bind]; [|discriminate].
  intros H. injection H as _ <-.
  apply init_few_shot_frame in Hfew. destruct Hfew as (Hpy & Hout & Hsame).
  unfold init_subset in Hsub. destruct (Z.gtb_spec divide_num 1) as [Hd | Hd].
  - apply sub_datasets_frame in Hsub. destruct Hsub as [Htorch Hout1].
    split; [congruence|]. split; [lia|].
    intros Hk. rewrite (Hsame Hk). exact Htorch.
  - injection Hsub as _ <-. split; [exact Hout|]. split; [now intros _|].
    intros Hk. now rewrite (Hsame Hk).
Qed.

(** ** The length of the Index *)

Lemma list_sum_perm (xs ys : list nat) :
  Permutation xs ys -> list_sum xs = list_sum ys.
Proof. induction 1; simpl; lia. Qed.

Lemma flat_map_length_sum {A B : Type} (f : A -> list B) (l : list A) :
  List.length (flat_map f l) = list_sum (map (fun x => List.length (f x)) l).
Proof.
  induction l as [|x l IH]; [reflexivity|].
  cbn [flat_map map]. rewrite length_app, IH. reflexivity.
Qed.

Lemma list_sum_flat_map {A B : Type} (f : A -> list B) (h : B -> nat) (l : list A) :
  list_sum (map h (flat_map f l))
  = list_sum (map (fun x => list_sum (map h (f x))) l).
Proof.
  induction l as [|x l IH]; [reflexivity|].
  cbn [flat_map map]. rewrite map_app, list_sum_app, IH. reflexivity.
Qed.

Lemma list_sum_sorted (h : string -> nat) (xs : list string) :
  list_sum (map h (sorted xs)) = list_sum (map h xs).
Proof.
  apply list_sum_perm, Permutation_map, Permutation_sym, sorted_perm.
Qed.

Lemma run_records_length source sp c a :
  List.length (run_records source sp (run_of source sp c a))
  = List.length (listing (anomaly_dir source sp c a)).
Proof.
  unfold run_of, run_records. now rewrite length_map, sorted_length.
Qed.

(** X17.  Without the subset and the few-shot step the length of a
    constructed dataset is the number of files listed in the directories
    of the anomaly types of its classes, a class or an anomaly type that
    is named twice being counted once. *)
Theorem len_counts_the_listed_files :
  forall src cname resize imagesize sp clip k_shot seed divide_num divide_iter
         w ds w',
    (divide_num <= 1)%Z ->
    (k_shot <= 0)%Z ->
    __init__ src cname resize imagesize sp clip
             k_shot seed divide_num divide_iter w = Ok (ds, w') ->
    __len__ ds
    = list_sum
        (map (fun c =>
                list_sum
                  (map (fun a => List.length (listing (anomaly_dir src sp c a)))
                       (nodup string_dec (listing (class_path src sp c)))))
             (nodup string_dec
                (match cname with Some c => [c] | None => _CLASSNAMES end))).
Proof.
  intros src cname resize imagesize sp clip k_shot seed divide_num divide_iter
         w ds w' Hd Hk Hinit.
  apply init_Ok_inv in Hinit.
  destruct Hinit as (imgs & full & sub & w1 & Hfull & Hsub & Hfew & _).
  set (classes := match cname with Some c => [c] | None => _CLASSNAMES end) in *.
  unfold init_subset in Hsub.
  destruct (Z.gtb_spec divide_num 1) as [Hgt | _]; [lia|].
  injection Hsub as <- <-.
  unfold init_few_shot in Hfew.
  destruct (Z.gtb_spec k_shot 0) as [Hgt | _]; [lia|].
  injection Hfew as Hdata _.
  unfold __len__. rewrite <- Hdata.
  rewrite get_image_data_expected in Hfull.
  apply bind_Ok_inv in Hfull. destruct Hfull as (st & _ & Hfull).
  apply bind_Ok_inv in Hfull. destruct Hfull as (data & Hexp & Hfull).
  injection Hfull as _ <-.
  rewrite <- (length_map record_key), (expected_index_keys _ _ _ _ Hexp).
  rewrite flat_map_length_sum. unfold index_runs.
  rewrite list_sum_flat_map, list_sum_sorted.
  f_equal. apply map_ext. intros c. unfold class_runs.
  rewrite map_map, list_sum_sorted.
  f_equal. apply map_ext. intros a. apply run_records_length.
Qed.

(** ** When the scan returns *)

(** X18.  [get_image_data] returns exactly when every directory it lists
    can be listed and every anomaly type that gets masks has at least as
    many ground-truth files as images. *)
Theorem get_image_data_returns_iff :
  forall source sp classes,
    (exists imgs data, get_image_data source sp classes = Ok (imgs, data)) <->
    listable source sp classes /\
    (forall c a,
       In c classes -> In a (listing (class_path source sp c)) ->
       wants_mask sp a = true ->
       List.length (listing (anomaly_dir source sp c a))
       <= List.length (listing (mask_dir source c a))).
Proof.
  intros source sp classes. split.
  - intros (imgs & data & H).
    assert (Hl : listable source sp classes).
    { apply scan_Ok_listable. rewrite get_image_data_expected in H.
      apply bind_Ok_inv in H. destruct H as (st & Hst & _). eauto. }
    split; [exact Hl|]. intros c a Hc Ha Hw.
    destruct (le_lt_dec (List.length (listing (anomaly_dir source sp c a)))
                        (List.length (listing (mask_dir source c a))))
      as [Hle | Hlt]; [exact Hle|].
    apply get_image_data_index in H.
    rewrite (expected_index_fewer source sp classes c a Hl Hc Ha Hw Hlt) in H.
    discriminate H.
  - intros [Hl Hlen].
    destruct (proj2 (scan_Ok_listable source sp classes) Hl) as (st & Hst).
    destruct (expected_index_enough source sp classes Hl Hlen) as (data & Hdata).
    exists (fst st), data.
    rewrite get_image_data_expected, Hst. cbn [bind]. rewrite Hdata. reflexivity.
Qed.

(** ** A negative [divide_iter] *)

(** For a position that is not negative the two readings of "the element
    at position [i]" agree. *)
Lemma spec_keep_at_nonneg (i : Z) (chunks : list (list nat)) :
  (0 <= i)%Z -> spec_keep_at i chunks = spec_keep (Z.to_nat i) chunks.
Proof.
  intros Hi. unfold spec_keep_at, spec_keep. apply flat_map_ext. intros chunk.
  rewrite getitem_nonneg by exact Hi.
  now destruct (nth_error chunk (Z.to_nat i)).
Qed.

Lemma spec_sample_at_nonneg (n : nat) (i : Z) (groups : list (list nat)) :
  (0 <= i)%Z ->
  forall g, spec_sample_at n i groups g = spec_sample n (Z.to_nat i) groups g.
Proof.
  intros Hi. induction groups as [|group rest IH]; intros g; [reflexivity|].
  cbn [spec_sample_at spec_sample].
  destruct (random_shuffle g group) as [shuffled g1].
  rewrite IH, spec_keep_at_nonneg by exact Hi. reflexivity.
Qed.

Lemma getitem_short_negative {A : Type} (xs : list A) (i : Z) :
  (i < 0)%Z -> (Z.of_nat (List.length xs) < - i)%Z ->
  getitem xs i = Raise IndexError.
Proof.
  intros Hi Hlen. unfold getitem.
  destruct (Z.leb_spec 0 i); [lia|].
  destruct (Z.leb_spec 0 (Z.of_nat (List.length xs) + i)); [lia | reflexivity].
Qed.

(** Line 91 for a negative [divide_iter]: the test holds for every chunk,
    and a chunk that is too short is indexed all the same. *)
Lemma pick_short_negative (chunks : list (list nat)) (divide_iter : Z)
    (chunk : list nat) :
  (divide_iter < 0)%Z ->
  In chunk chunks ->
  (Z.of_nat (List.length chunk) < - divide_iter)%Z ->
  pick chunks divide_iter = Raise IndexError.
Proof.
  intros Hi. induction chunks as [|c rest IH]; intros Hin Hlen; [destruct Hin|].
  cbn [pick].
  destruct (Z.gtb_spec (Z.of_nat (List.length c)) divide_iter) as [_ | Hle];
    [|lia].
  destruct (getitem_outcome c divide_iter) as [Hc | (x & Hc)]; rewrite Hc;
    cbn [bind]; [reflexivity|].
  destruct Hin as [-> | Hin].
  - rewrite getitem_short_negative in Hc by assumption. discriminate Hc.
  - now rewrite IH.
Qed.

(** The sizes of the chunks depend on the size of the list only. *)
Lemma spec_chunks_lengths (n fuel : nat) :
  forall l l' : list nat,
    List.length l = List.length l' ->
    map (@List.length nat) (spec_chunks fuel n l)
    = map (@List.length nat) (spec_chunks fuel n l').
Proof.
  induction fuel as [|fuel IH]; intros l l' Hlen; [reflexivity|].
  destruct l as [|x l], l' as [|x' l']; try discriminate Hlen; [reflexivity|].
  cbn [spec_chunks map]. f_equal.
  - now rewrite !length_firstn, Hlen.
  - apply IH. now rewrite !length_skipn, Hlen.
Qed.

Lemma sample_ids_short_negative divide_num divide_iter st ids chunk :
  shuffle_permutes ->
  (0 < divide_num)%Z -> (divide_iter < 0)%Z ->
  In chunk (spec_chunks (List.length ids) (Z.to_nat divide_num) ids) ->
  (Z.of_nat (List.length chunk) < - divide_iter)%Z ->
  sample_ids divide_num divide_iter st ids = Raise IndexError.
Proof.
  intros Hperm Hd Hi Hin Hlen. unfold sample_ids. destruct st as [acc g].
  pose proof (Permutation_length (Hperm g ids)) as Hsame.
  destruct (random_shuffle g ids) as [shuffled g1]. cbn [fst] in Hsame.
  rewrite devide_chunks by exact Hd. cbn [bind].
  apply (in_map (@List.length nat)) in Hin.
  rewrite Hsame in Hin at 1.
  rewrite (spec_chunks_lengths (Z.to_nat divide_num) (List.length shuffled)
             ids shuffled Hsame) in Hin.
  apply in_map_iff in Hin. destruct Hin as (chunk' & Hlen' & Hin').
  rewrite (pick_short_negative _ divide_iter chunk' Hi Hin') by lia.
  reflexivity.
Qed.

Lemma foldM_raise {A S : Type} (e : exn) (body : S -> A -> result S)
    (xs : list A) (x : A) :
  (forall s z, In z xs -> body s z = Raise e \/ exists s', body s z = Ok s') ->
  In x xs ->
  (forall s, body s x = Raise e) ->
  forall s, foldM body xs s = Raise e.
Proof.
  induction xs as [|z xs IH]; intros Hall Hin Hx s; [destruct Hin|].
  cbn [foldM]. destruct Hin as [-> | Hin]; [now rewrite Hx|].
  destruct (Hall s z (or_introl eq_refl)) as [Hz | (s' & Hz)]; rewrite Hz;
    cbn [bind]; [reflexivity|].
  apply IH; [intros; apply Hall; now right | exact Hin | exact Hx].
Qed.

(** X19.  A negative [divide_iter] skips no chunk: the test of line 91
    holds for every chunk, so when the group of some anomaly type has a
    chunk with fewer than [- divide_iter] positions, the subset step raises
    [IndexError]. *)
Theorem negative_iter_short_chunk_raises :
  forall source sp classes imgs full divide_num divide_iter seed w ids chunk,
    listdir_names_valid ->
    shuffle_permutes ->
    get_image_data source sp classes = Ok (imgs, full) ->
    (0 < divide_num)%Z ->
    (divide_iter < 0)%Z ->
    In ids (spec_groups full) ->
    In chunk (spec_chunks (List.length ids) (Z.to_nat divide_num) ids) ->
    (Z.of_nat (List.length chunk) < - divide_iter)%Z ->
    sub_datasets full divide_num divide_iter seed w = Raise IndexError /\
    ((1 < divide_num)%Z ->
     init_subset full divide_num divide_iter seed w = Raise IndexError).
Proof.
  intros source sp classes imgs full divide_num divide_iter seed w ids chunk
         Hvalid Hperm Hfull Hd Hi Hids Hchunk Hlen.
  assert (Hkey : forall r, In r full ->
            getitem (split_slash (image_path r)) (-2) = Ok (anomaly r)).
  { intros r Hr. eapply index_paths_name_type; eassumption. }
  assert (Hgroups : map snd (group_dict anomaly full) = spec_groups full).
  { unfold group_dict, spec_groups. rewrite map_map. reflexivity. }
  assert (Hsub : sub_datasets full divide_num divide_iter seed w
                 = Raise IndexError).
  { unfold sub_datasets. destruct (Z.eqb_spec divide_num 0); [lia|].
    rewrite (group_fold anomaly full Hkey (List.length full)) by reflexivity.
    rewrite firstn_all. cbn [bind py_random set_py_random].
    rewrite (foldM_sample_group_values (group_dict anomaly full)
               divide_num divide_iter (group_dict anomaly full))
      by (apply dict_find_first; unfold group_dict; rewrite dict_keys_map;
          apply first_seen_NoDup).
    rewrite Hgroups.
    rewrite (foldM_raise IndexError (sample_ids divide_num divide_iter)
               (spec_groups full) ids); [reflexivity | | exact Hids |].
    - intros s z _. now apply sample_ids_outcome.
    - intros s. eapply sample_ids_short_negative; eassumption. }
  split; [exact Hsub|].
  intros Hgt. unfold init_subset.
  destruct (Z.gtb_spec divide_num 1); [exact Hsub | lia].
Qed.

End MVTec.

(** ** Two listings of one directory tree *)

Lemma same_contents_sym listdir1 listdir2 :
  same_contents listdir1 listdir2 -> same_contents listdir2 listdir1.
Proof.
  intros H p. specialize (H p).
  destruct (listdir1 p), (listdir2 p); try exact H. now symmetry.
Qed.

Lemma os_listdir_same listdir1 listdir2 p :
  same_contents listdir1 listdir2 ->
  match os_listdir listdir1 p, os_listdir listdir2 p with
  | Ok xs, Ok ys =>
      sorted xs = sorted ys /\
      sorted (nodup string_dec xs) = sorted (nodup string_dec ys)
  | Raise e1, Raise e2 => e1 = e2
  | _, _ => False
  end.
Proof.
  intros H. specialize (H p). unfold os_listdir.
  destruct (listdir1 p) as [xs|], (listdir2 p) as [ys|]; cbn [of_option];
    try exact H; [|reflexivity].
  split; [now apply sorted_of_perm|].
  apply sorted_same_members; try apply NoDup_nodup.
  intros x. rewrite !nodup_In.
  split; apply Permutation_in; [exact H | now symmetry].
Qed.

Lemma anomaly_records_same listdir1 listdir2 src sp c a :
  same_contents listdir1 listdir2 ->
  anomaly_records listdir1 src sp c a = anomaly_records listdir2 src sp c a.
Proof.
  intros H. unfold anomaly_records, entry_paths.
  pose proof (os_listdir_same _ _ (anomaly_dir src sp c a) H) as Hdir.
  destruct (os_listdir listdir1 (anomaly_dir src sp c a)) as [xs|e1],
           (os_listdir listdir2 (anomaly_dir src sp c a)) as [ys|e2];
    try contradiction; cbn [bind]; [|now subst].
  destruct Hdir as [-> _].
  destruct (wants_mask sp a); [|reflexivity].
  pose proof (os_listdir_same _ _ (mask_dir src c a) H) as Hmask.
  destruct (os_listdir listdir1 (mask_dir src c a)) as [ms|e1],
           (os_listdir listdir2 (mask_dir src c a)) as [ns|e2];
    try contradiction; cbn [bind]; [|now subst].
  destruct Hmask as [-> _]. reflexivity.
Qed.

Lemma class_records_same listdir1 listdir2 src sp c :
  same_contents listdir1 listdir2 ->
  class_records listdir1 src sp c = class_records listdir2 src sp c.
Proof.
  intros H. unfold class_records.
  pose proof (os_listdir_same _ _ (class_path src sp c) H) as Hdir.
  destruct (os_listdir listdir1 (class_path src sp c)) as [xs|e1],
           (os_listdir listdir2 (class_path src sp c)) as [ys|e2];
    try contradiction; cbn [bind]; [|now subst].
  destruct Hdir as [_ ->].
  rewrite (mapM_ext_in (anomaly_records listdir1 src sp c)
                       (anomaly_records listdir2 src sp c)); [reflexivity|].
  intros a _. now apply anomaly_records_same.
Qed.

Lemma expected_index_same listdir1 listdir2 src sp classes :
  same_contents listdir1 listdir2 ->
  expected_index listdir1 src sp classes = expected_index listdir2 src sp classes.
Proof.
  intros H. unfold expected_index.
  rewrite (mapM_ext_in (class_records listdir1 src sp)
                       (class_records listdir2 src sp)); [reflexivity|].
  intros c _. now apply class_records_same.
Qed.

Lemma listable_same listdir1 listdir2 src sp classes :
  same_contents listdir1 listdir2 ->
  listable listdir1 src sp classes -> listable listdir2 src sp classes.
Proof.
  intros H Hl c Hc. destruct (Hl c Hc) as (types & Htypes & Hall).
  pose proof (H (class_path src sp c)) as Hcp. rewrite Htypes in Hcp.
  destruct (listdir2 (class_path src sp c)) as [types2|]; [|contradiction].
  exists types2. split; [reflexivity|]. intros a Ha.
  assert (Ha1 : In a types)
    by (eapply Permutation_in; [symmetry; exact Hcp | exact Ha]).
  destruct (Hall a Ha1) as [Hdir Hmask]. split.
  - pose proof (H (anomaly_dir src sp c a)) as Hp.
    destruct (listdir1 (anomaly_dir src sp c a)); [|now elim Hdir].
    destruct (listdir2 (anomaly_dir src sp c a)); [discriminate | contradiction].
  - intros Hw. specialize (Hmask Hw).
    pose proof (H (mask_dir src c a)) as Hp.
    destruct (listdir1 (mask_dir src c a)); [|now elim Hmask].
    destruct (listdir2 (mask_dir src c a)); [discriminate | contradiction].
Qed.

Lemma get_image_data_same listdir1 listdir2 src sp classes imgs1 data :
  same_contents listdir1 listdir2 ->
  get_image_data listdir1 src sp classes = Ok (imgs1, data) ->
  exists imgs2, get_image_data listdir2 src sp classes = Ok (imgs2, data).
Proof.
  intros H Hdata. rewrite get_image_data_expected in Hdata.
  apply bind_Ok_inv in Hdata. destruct Hdata as (st1 & Hscan & Hdata).
  apply bind_Ok_inv in Hdata. destruct Hdata as (data' & Hexp & Hdata).
  injection Hdata as _ <-.
  pose proof (scanned_listable _ _ _ _ _ (scan_scanned _ _ _ _ _ Hscan)) as Hl.
  apply (listable_same _ _ _ _ _ H) in Hl.
  destruct (listable_scan _ _ _ _ Hl ([], [])) as (st2 & Hscan2).
  exists (fst st2). rewrite get_image_data_expected.
  unfold scan. rewrite Hscan2. cbn [bind].
  rewrite <- (expected_index_same _ _ _ _ _ H), Hexp. reflexivity.
Qed.

(** C6.  Two constructions with the same arguments and the same seed, on
    two listings of one directory tree and from any two states of the
    generators, build the same Index record for record, whether or not the
    subset step and the few-shot step apply; and if one construction raises,
    so does the other. *)
Theorem construction_deterministic :
  forall (listdir1 listdir2 : string -> option (list string))
         (rng : Type) (random_seed : Z -> rng)
         (random_shuffle : rng -> list nat -> list nat * rng)
         (tgen : Type) (manual_seed : Z -> tgen)
         (randint : tgen -> Z -> Z -> Z -> list Z * tgen)
         (image scalar : Type)
         (Resize : Z * Z -> image -> image) (CenterCrop : Z -> image -> image)
         (ToTensor : image -> tensor scalar)
         (Normalize : list Z -> list Z -> tensor scalar -> tensor scalar)
         src classname resize imagesize sp clip k_shot seed
         divide_num divide_iter (w1 w2 : World rng tgen),
    same_contents listdir1 listdir2 ->
    let init listdir w :=
      __init__ listdir random_seed random_shuffle manual_seed randint
               Resize CenterCrop ToTensor Normalize
               src classname resize imagesize sp clip
               k_shot seed divide_num divide_iter w in
    (forall ds1 w1',
       init listdir1 w1 = Ok (ds1, w1') ->
       exists ds2 w2',
         init listdir2 w2 = Ok (ds2, w2') /\
         data_to_iterate ds2 = data_to_iterate ds1) /\
    (forall e1, init listdir1 w1 = Raise e1 ->
                exists e2, init listdir2 w2 = Raise e2).
Proof.
  intros listdir1 listdir2 rng random_seed random_shuffle tgen manual_seed
         randint image scalar Resize CenterCrop ToTensor Normalize
         src classname resize imagesize sp clip k_shot seed
         divide_num divide_iter w1 w2 Hsame init.
  assert (Hforward : forall la lb wa wb ds wa',
            same_contents la lb ->
            init la wa = Ok (ds, wa') ->
            exists ds' wb',
              init lb wb = Ok (ds', wb') /\
              data_to_iterate ds' = data_to_iterate ds).
  { intros la lb wa wb ds wa' Hab Hinit. unfold init in *.
    apply init_Ok_inv in Hinit.
    destruct Hinit as (imgs & full & sub & wm & Hfull & Hsub & Hfew & _).
    destruct (get_image_data_same _ _ _ _ _ _ _ Hab Hfull) as (imgs2 & Hfull2).
    destruct (init_subset_any_world _ _ _ _ _ _ _ _ _ wb _ _ Hsub) as (wm2 & Hsub2).
    destruct (init_few_shot_any_world _ _ _ _ _ _ _ _ wm2 _ _ Hfew) as (wb' & Hfew2).
    destruct (init_Ok_intro lb _ random_seed random_shuffle _ manual_seed randint
                _ _ Resize CenterCrop ToTensor Normalize
                src classname resize imagesize sp clip k_shot seed
                divide_num divide_iter wb imgs2 full sub wm2
                (data_to_iterate ds) wb' Hfull2 Hsub2 Hfew2)
      as (ds' & Hinit' & Hdata & _).
    exists ds', wb'. split; assumption. }
  split.
  - intros ds1 w1'. now apply Hforward.
  - intros e1 H1. destruct (init listdir2 w2) as [[ds2 w2']|e2] eqn:H2; [|eauto].
    destruct (Hforward listdir2 listdir1 w2 w1 ds2 w2'
                (same_contents_sym _ _ Hsame) H2) as (ds & w & Hinit & _).
    congruence.
Qed.

(** ** The model run on the concrete environment *)

Abbreviation toy_world := (mk_World (0 : Toy.rng) (0 : Toy.tgen) []).

Abbreviation toy_init :=
  (__init__ Toy.listdir Toy.random_seed Toy.random_shuffle
            Toy.manual_seed Toy.randint
            Toy.Resize Toy.CenterCrop Toy.ToTensor Toy.Normalize).

Lemma mask_path_present_iff_witness :
  let r := mk_record "toy" "crack" "root/toy/test/crack/000.png"
                     (Some "root/toy/ground_truth/crack/000_mask.png") in
  (exists ds w',
     toy_init "root" (Some "toy") 256%Z 224%Z TEST None 0%Z 42%Z 1%Z 0%Z toy_world
       = Ok (ds, w') /\
     In r (data_to_iterate ds)) /\
  (mask_path r <> None <->
     TEST = TEST /\ anomaly r <> "good" /\ anomaly r <> "fail") /\
  (TEST = TRAIN \/ TEST = VAL -> mask_path r = None) /\
  (anomaly r = "good" -> mask_path r = None).
Proof.
  intro r.
  destruct (toy_init "root" (Some "toy") 256%Z 224%Z TEST None
                     0%Z 42%Z 1%Z 0%Z toy_world) as [[ds w']|e] eqn:Hinit.
  - pose proof (f_equal (fun x => match x with
                                  | Ok (d, _) => data_to_iterate d
                                  | Raise _ => []
                                  end) Hinit) as Hdata.
    vm_compute in Hdata.
    assert (Hin : In r (data_to_iterate ds))
      by (unfold data_to_iterate; rewrite <- Hdata; left; reflexivity).
    split.
    + exists ds, w'. split; [reflexivity | exact Hin].
    + eapply mask_path_present_iff; [exact Hinit | exact Hin].
  - pose proof (f_equal (fun x => match x with
                                  | Ok _ => true
                                  | Raise _ => false
                                  end) Hinit) as Hno.
    vm_compute in Hno. discriminate Hno.
Defined.

(** *** The concrete environment keeps the assumptions *)

Lemma dict_find_Forall {V : Type} (P : V -> Prop) (d : dict V) (k : string) (v : V) :
  Forall (fun kv => P (snd kv)) d -> dict_find k d = Some v -> P v.
Proof.
  induction 1 as [|[k' v'] d Hv _ IH]; cbn [dict_find]; [discriminate|].
  destruct (String.eqb k k'); [|exact IH].
  intros H. injection H as <-. exact Hv.
Qed.

Lemma toy_names_valid : listdir_names_valid Toy.listdir.
Proof.
  intros p names. unfold Toy.listdir.
  apply (dict_find_Forall (Forall valid_name)).
  unfold Toy.tree, valid_name. repeat constructor; discriminate.
Qed.

Lemma toy_shuffle_permutes : shuffle_permutes Toy.random_shuffle.
Proof.
  intros g xs. unfold Toy.random_shuffle. cbn [fst].
  rewrite Permutation_app_comm. now rewrite firstn_skipn.
Qed.

Lemma toy_randint_in_range : randint_in_range Toy.randint.
Proof.
  intros g low high n Hlow Hn. unfold Toy.randint. cbn [fst]. split.
  - now rewrite length_map, length_seq.
  - apply Forall_forall. intros i Hi. apply in_map_iff in Hi.
    destruct Hi as (j & <- & _).
    pose proof (Z.mod_pos_bound (Z.of_nat (g + 2 * j)) (high - low)). lia.
Qed.

Lemma toy_same_contents : same_contents Toy.listdir Toy.listdir'.
Proof.
  intros p. unfold Toy.listdir, Toy.listdir'.
  destruct (dict_find p Toy.tree); cbn [option_map]; [apply Permutation_rev | exact I].
Qed.

(** *** The properties on concrete inputs *)

Abbreviation toy_init' :=
  (__init__ Toy.listdir' Toy.random_seed Toy.random_shuffle
            Toy.manual_seed Toy.randint
            Toy.Resize Toy.CenterCrop Toy.ToTensor Toy.Normalize).

Abbreviation toy_subset :=
  (init_subset Toy.random_seed Toy.random_shuffle (tgen := Toy.tgen)).

Abbreviation toy_dataset :=
  (mk_MVTecDataset "root" TEST ["toy"] []
     [ mk_record "toy" "crack" "root/toy/test/crack/000.png"
                 (Some "root/toy/ground_truth/crack/000_mask.png");
       mk_record "toy" "crack" "root/toy/test/crack/001.png"
                 (Some "root/toy/ground_truth/crack/001_mask.png");
       mk_record "toy" "good" "root/toy/test/good/000.png" None;
       mk_record "toy" "good" "root/toy/test/good/001.png" None ]
     Toy.ToTensor Toy.ToTensor (3, 224, 224)%Z).

(** The Index of the class "toy" in the TEST split. *)
Example toy_index :
  match get_image_data Toy.listdir "root" TEST ["toy"] with
  | Ok (_, data) => map (fun r => (anomaly r, image_path r, mask_path r)) data
  | Raise _ => []
  end
  = [ ("crack", "root/toy/test/crack/000.png",
       Some "root/toy/ground_truth/crack/000_mask.png");
      ("crack", "root/toy/test/crack/001.png",
       Some "root/toy/ground_truth/crack/001_mask.png");
      ("good", "root/toy/test/good/000.png", None);
      ("good", "root/toy/test/good/001.png", None) ].
Proof. vm_compute. reflexivity. Qed.

(** A construction that evaluates to a result did not raise. *)
Ltac absurd_raise H :=
  let Hno := fresh in
  pose proof (f_equal (fun x => match x with
                                | Ok _ => true
                                | Raise _ => false
                                end) H) as Hno;
  vm_compute in Hno; discriminate Hno.

Lemma index_order_witness :
  exists ds w',
    toy_init "root" (Some "toy") 256%Z 224%Z TEST None 0%Z 42%Z 1%Z 0%Z toy_world
      = Ok (ds, w') /\
    exists runs : list run,
      map record_key (data_to_iterate ds)
        = flat_map (run_records "root" TEST) runs /\
      StronglySorted group_lt (map run_key runs).
Proof.
  destruct (toy_init "root" (Some "toy") 256%Z 224%Z TEST None
                     0%Z 42%Z 1%Z 0%Z toy_world) as [[ds w']|e] eqn:Hinit;
    [|absurd_raise Hinit].
  exists ds, w'. split; [reflexivity|].
  assert (Hdiv : (1 <= 1)%Z) by lia.
  destruct (index_order _ _ _ _ _ _ _ _ _ _ _ _ _ _ _ _ _ _ _ _ _ _ _ _ _ _
              Hdiv eq_refl Hinit) as (runs & Hkeys & Hsorted & _).
  exists runs. split; assumption.
Defined.

Lemma mask_pairing_by_position_witness :
  exists st,
    scan Toy.listdir "root" TEST ["many"] = Ok st /\
    exists data, get_image_data Toy.listdir "root" TEST ["many"] = Ok (fst st, data).
Proof.
  destruct (scan Toy.listdir "root" TEST ["many"]) as [st|e] eqn:Hscan;
    [|absurd_raise Hscan].
  exists st. split; [reflexivity|].
  destruct (mask_pairing_by_position Toy.listdir "root" ["many"] st Hscan)
    as (_ & Henough & _).
  apply Henough. intros c a [<- | []] Ha Hw.
  vm_compute in Ha. destruct Ha as [<- | [<- | []]]; [vm_compute; lia|].
  vm_compute in Hw. discriminate Hw.
Defined.

(** The anomaly type "crack" of the class "few" has two image files and
    one mask file, and the construction raises [IndexError]. *)
Example fewer_masks_evaluated :
  Toy.listdir "root/few/test" = Some ["crack"] /\
  wants_mask TEST "crack" = true /\
  Toy.listdir "root/few/test/crack" = Some ["000.png"; "001.png"] /\
  Toy.listdir "root/few/ground_truth/crack" = Some ["000_mask.png"] /\
  get_image_data Toy.listdir "root" TEST ["few"] = Raise IndexError /\
  toy_init "root" (Some "few") 256%Z 224%Z TEST None 0%Z 42%Z 1%Z 0%Z toy_world
    = Raise IndexError.
Proof. repeat split; vm_compute; reflexivity. Qed.

(** C2 as the specification words it fails on that class: the counts
    differ and the construction raises. *)
Lemma fewer_masks_raise_IndexError :
  ~ pairs_silently Toy.listdir "root" "few" "crack".
Proof.
  intros H.
  destruct (H ["crack"] ["000.png"; "001.png"] ["000_mask.png"])
    as (imgs & data & Hdata);
    try (vm_compute; reflexivity).
  - now left.
  - cbn [List.length]. lia.
  - vm_compute in Hdata. discriminate Hdata.
Qed.

(** The class "big" has five "good" and three "scratch" records.  With
    [divide_num = 2] and the seed 42 the shuffled "good" positions are cut
    into the chunks [[2; 3]], [[4; 0]] and [[1]], the "scratch" ones into
    [[6; 7]] and [[5]].  At [divide_iter = -2] the chunks of one position
    have no element, so the step as the specification words it keeps the
    positions 2, 4 and 6; the code raises [IndexError].  At
    [divide_iter = -1] every chunk has an element and the code returns the
    last one of each. *)
Example negative_iter_evaluated :
  match get_image_data Toy.listdir "root" TEST ["big"] with
  | Ok (_, full) =>
      spec_groups full = [[0; 1; 2; 3; 4]; [5; 6; 7]] /\
      spec_kept_at Toy.random_seed Toy.random_shuffle full 2 (-2)%Z 42%Z
        = [2; 4; 6] /\
      toy_subset full 2%Z (-2)%Z 42%Z toy_world = Raise IndexError /\
      spec_kept_at Toy.random_seed Toy.random_shuffle full 2 (-1)%Z 42%Z
        = [3; 0; 1; 7; 5] /\
      bind (toy_subset full 2%Z (-1)%Z 42%Z toy_world)
           (fun res => Ok (map image_path (fst res)))
        = Ok [ "root/big/test/good/3.png"; "root/big/test/good/0.png";
               "root/big/test/good/1.png"; "root/big/test/scratch/2.png";
               "root/big/test/scratch/0.png" ]
  | Raise _ => False
  end.
Proof. vm_compute. repeat split; reflexivity. Qed.

(** C4 as the specification words it fails on that Index at
    [divide_iter = -2]: the step returns no Index at all. *)
Lemma negative_iter_raises_IndexError :
  exists imgs full,
    get_image_data Toy.listdir "root" TEST ["big"] = Ok (imgs, full) /\
    ~ subset_as_worded Toy.random_seed Toy.random_shuffle
        full 2%Z (-2)%Z 42%Z toy_world.
Proof.
  destruct (get_image_data Toy.listdir "root" TEST ["big"]) as [[imgs full]|e]
    eqn:Hfull; [|absurd_raise Hfull].
  exists imgs, full. split; [reflexivity|].
  pose proof (f_equal (fun x => match x with
                                | Ok (_, d) => d
                                | Raise _ => []
                                end) Hfull) as Hdata.
  vm_compute in Hdata. subst full.
  intros (data & w' & Hsub & _). vm_compute in Hsub. discriminate Hsub.
Qed.

Lemma subset_step_keeps_spec_positions_witness :
  exists imgs full,
    get_image_data Toy.listdir "root" TEST ["big"] = Ok (imgs, full) /\
    exists data w',
      toy_subset full 2%Z 0%Z 42%Z toy_world = Ok (data, w') /\
      Forall2 (fun r i => nth_error full i = Some r) data
              (spec_kept Toy.random_seed Toy.random_shuffle full 2 0 42%Z).
Proof.
  destruct (get_image_data Toy.listdir "root" TEST ["big"]) as [[imgs full]|e]
    eqn:Hfull; [|absurd_raise Hfull].
  exists imgs, full. split; [reflexivity|].
  assert (Hd : (1 < 2)%Z) by lia. assert (Hi : (0 <= 0)%Z) by lia.
  destruct (subset_step_keeps_spec_positions Toy.listdir _
              Toy.random_seed Toy.random_shuffle Toy.tgen
              "root" TEST ["big"] imgs full 2%Z 0%Z 42%Z toy_world
              toy_names_valid toy_shuffle_permutes Hfull Hd Hi)
    as (data & Hsub & _ & Hkept & Hall).
  exists data. eexists. split; [exact Hsub|].
  change (Z.to_nat 2) with 2 in *. change (Z.to_nat 0) with 0 in *.
  rewrite <- Hkept. exact Hall.
Defined.

Lemma subset_iter_beyond_chunk_empty_witness :
  exists imgs full,
    get_image_data Toy.listdir "root" TEST ["big"] = Ok (imgs, full) /\
    exists g, toy_subset full 2%Z 2%Z 42%Z toy_world
              = Ok ([], set_py_random g toy_world).
Proof.
  destruct (get_image_data Toy.listdir "root" TEST ["big"]) as [[imgs full]|e]
    eqn:Hfull; [|absurd_raise Hfull].
  exists imgs, full. split; [reflexivity|].
  assert (Hd : (1 < 2)%Z) by lia. assert (Hi : (2 <= 2)%Z) by lia.
  destruct (subset_iter_beyond_chunk_empty Toy.listdir _
              Toy.random_seed Toy.random_shuffle Toy.tgen
              "root" TEST ["big"] imgs full 2%Z 2%Z 42%Z toy_world Hfull Hd Hi)
    as (g & Hsub & _).
  exists g. exact Hsub.
Defined.

Lemma few_shot_resamples_witness :
  exists imgs full,
    get_image_data Toy.listdir "root" TEST ["toy"] = Ok (imgs, full) /\
    toy_subset full 1%Z 0%Z 42%Z toy_world = Ok (full, toy_world) /\
    (0 < 3 < Z.of_nat (List.length full))%Z /\
    exists ds w',
      toy_init "root" (Some "toy") 256%Z 224%Z TEST None 3%Z 42%Z 1%Z 0%Z toy_world
        = Ok (ds, w') /\
      List.length (data_to_iterate ds) = 3.
Proof.
  destruct (get_image_data Toy.listdir "root" TEST ["toy"]) as [[imgs full]|e]
    eqn:Hfull; [|absurd_raise Hfull].
  assert (Hlen : List.length full = 4).
  { pose proof (f_equal (fun x => match x with
                                  | Ok (_, d) => List.length d
                                  | Raise _ => 0
                                  end) Hfull) as H.
    vm_compute in H. symmetry. exact H. }
  exists imgs, full. split; [reflexivity|].
  assert (Hsub : toy_subset full 1%Z 0%Z 42%Z toy_world = Ok (full, toy_world))
    by reflexivity.
  assert (Hk : (0 < 3 < Z.of_nat (List.length full))%Z) by (rewrite Hlen; lia).
  split; [exact Hsub|]. split; [exact Hk|].
  destruct (few_shot_resamples Toy.listdir _ Toy.random_seed Toy.random_shuffle _
              Toy.manual_seed Toy.randint _ _
              Toy.Resize Toy.CenterCrop Toy.ToTensor Toy.Normalize
              "root" (Some "toy") 256%Z 224%Z TEST None 3%Z 42%Z 1%Z 0%Z
              toy_world imgs full full toy_world
              toy_randint_in_range Hfull Hsub Hk)
    as (ds & Hinit & _ & Hcount & _).
  exists ds. eexists. split; [exact Hinit | exact Hcount].
Defined.

(** The few-shot Index of that construction holds one record twice. *)
Example few_shot_duplicates :
  match toy_init "root" (Some "toy") 256%Z 224%Z TEST None 3%Z 42%Z 1%Z 0%Z
                 toy_world with
  | Ok (ds, _) => map image_path (data_to_iterate ds)
  | Raise _ => []
  end
  = ["root/toy/test/good/000.png"; "root/toy/test/crack/000.png";
     "root/toy/test/good/000.png"].
Proof. vm_compute. reflexivity. Qed.

Lemma few_shot_large_count_unchanged_witness :
  exists imgs full,
    get_image_data Toy.listdir "root" TEST ["toy"] = Ok (imgs, full) /\
    toy_subset full 1%Z 0%Z 42%Z toy_world = Ok (full, toy_world) /\
    (Z.of_nat (List.length full) <= 10)%Z /\
    exists ds w',
      toy_init "root" (Some "toy") 256%Z 224%Z TEST None 10%Z 42%Z 1%Z 0%Z toy_world
        = Ok (ds, w') /\
      data_to_iterate ds = full.
Proof.
  destruct (get_image_data Toy.listdir "root" TEST ["toy"]) as [[imgs full]|e]
    eqn:Hfull; [|absurd_raise Hfull].
  assert (Hlen : List.length full = 4).
  { pose proof (f_equal (fun x => match x with
                                  | Ok (_, d) => List.length d
                                  | Raise _ => 0
                                  end) Hfull) as H.
    vm_compute in H. symmetry. exact H. }
  exists imgs, full. split; [reflexivity|].
  assert (Hsub : toy_subset full 1%Z 0%Z 42%Z toy_world = Ok (full, toy_world))
    by reflexivity.
  assert (Hpos : (0 < 10)%Z) by lia.
  assert (Hk : (Z.of_nat (List.length full) <= 10)%Z) by (rewrite Hlen; lia).
  split; [exact Hsub|]. split; [exact Hk|].
  destruct (few_shot_large_count_unchanged Toy.listdir _
              Toy.random_seed Toy.random_shuffle _
              Toy.manual_seed Toy.randint _ _
              Toy.Resize Toy.CenterCrop Toy.ToTensor Toy.Normalize
              "root" (Some "toy") 256%Z 224%Z TEST None 10%Z 42%Z 1%Z 0%Z
              toy_world imgs full full toy_world Hfull Hsub Hpos Hk)
    as (ds & Hinit & Hdata).
  exists ds. eexists. split; [exact Hinit | exact Hdata].
Defined.

Lemma is_anomaly_flag_witness :
  exists s,
    __getitem__ 0%Z Toy.Image_open Toy.convert toy_dataset 0%Z toy_world
      = Ok (s, print 0%Z toy_world) /\
    is_anomaly s = 1%Z.
Proof.
  assert (Hidx : (0 <= 0 < Z.of_nat (__len__ toy_dataset))%Z)
    by (vm_compute; split; [discriminate | reflexivity]).
  destruct (is_anomaly_flag _ _ _ _ 0%Z Toy.Image_open Toy.convert
              toy_dataset 0%Z toy_world
              (mk_record "toy" "crack" "root/toy/test/crack/000.png"
                         (Some "root/toy/ground_truth/crack/000_mask.png"))
              Hidx eq_refl)
    as (s & Hs & _ & Hone & _).
  - vm_compute. discriminate.
  - intros p _ Hp. injection Hp as <-. vm_compute. discriminate.
  - exists s. split; [exact Hs|]. apply Hone. cbn [anomaly]. discriminate.
Defined.


Lemma construction_deterministic_witness :
  same_contents Toy.listdir Toy.listdir' /\
  exists ds1 w1',
    toy_init "root" (Some "big") 256%Z 224%Z TEST None 3%Z 42%Z 2%Z 0%Z toy_world
      = Ok (ds1, w1') /\
    exists ds2 w2',
      toy_init' "root" (Some "big") 256%Z 224%Z TEST None 3%Z 42%Z 2%Z 0%Z
                (mk_World (5 : Toy.rng) (7 : Toy.tgen) [1%Z])
        = Ok (ds2, w2') /\
      data_to_iterate ds2 = data_to_iterate ds1.
Proof.
  split; [exact toy_same_contents|].
  destruct (toy_init "root" (Some "big") 256%Z 224%Z TEST None
                     3%Z 42%Z 2%Z 0%Z toy_world) as [[ds1 w1']|e] eqn:Hinit;
    [|absurd_raise Hinit].
  exists ds1, w1'. split; [reflexivity|].
  destruct (construction_deterministic Toy.listdir Toy.listdir'
              _ Toy.random_seed Toy.random_shuffle _ Toy.manual_seed Toy.randint
              _ _ Toy.Resize Toy.CenterCrop Toy.ToTensor Toy.Normalize
              "root" (Some "big") 256%Z 224%Z TEST None 3%Z 42%Z 2%Z 0%Z
              toy_world (mk_World (5 : Toy.rng) (7 : Toy.tgen) [1%Z])
              toy_same_contents) as [Hok _].
  exact (Hok ds1 w1' Hinit).
Defined.

(** *** Instances of the further properties *)

Lemma getitem_negative_index_witness :
  __getitem__ 0%Z Toy.Image_open Toy.convert toy_dataset (-1)%Z toy_world
  = bind (__getitem__ 0%Z Toy.Image_open Toy.convert toy_dataset
            (Z.of_nat (__len__ toy_dataset) + -1)%Z toy_world)
         (fun res => Ok (fst res, print (-1)%Z toy_world)).
Proof.
  apply (getitem_negative_index _ _ _ _ 0%Z Toy.Image_open Toy.convert
           toy_dataset (-1)%Z toy_world).
  vm_compute. split; [discriminate | reflexivity].
Defined.

Lemma missing_ground_truth_raises_witness :
  get_image_data Toy.listdir_bare "root" TEST ["nut"] = Raise OSError.
Proof.
  apply (missing_ground_truth_raises Toy.listdir_bare "root" ["nut"]
           "nut" ["good"; "bent"] "bent").
  - left. reflexivity.
  - reflexivity.
  - right. left. reflexivity.
  - reflexivity.
  - reflexivity.
Defined.

Lemma other_splits_need_no_ground_truth_witness :
  exists imgs data,
    get_image_data Toy.listdir_bare "root" VAL ["nut"] = Ok (imgs, data) /\
    Forall (fun r => mask_path r = None) data.
Proof.
  apply (other_splits_need_no_ground_truth Toy.listdir_bare "root" VAL ["nut"]).
  - discriminate.
  - intros c [<- | []]. exists ["bent"]. split; [reflexivity|].
    intros a [<- | []]. vm_compute. discriminate.
Defined.

Lemma index_holds_the_listed_files_witness :
  exists imgs data,
    get_image_data Toy.listdir "root" TEST ["toy"] = Ok (imgs, data) /\
    exists r,
      In r data /\ classname r = "toy" /\ anomaly r = "crack" /\
      image_path r = "root/toy/test/crack/001.png".
Proof.
  destruct (get_image_data Toy.listdir "root" TEST ["toy"]) as [[imgs data]|e]
    eqn:Hdata; [|absurd_raise Hdata].
  exists imgs, data. split; [reflexivity|].
  destruct (index_holds_the_listed_files Toy.listdir "root" TEST ["toy"]
              imgs data Hdata) as [Hall _].
  apply (Hall "toy" "crack" "001.png").
  - left. reflexivity.
  - right. left. reflexivity.
  - right. left. reflexivity.
Defined.

Lemma imgpaths_per_class_entries_witness :
  exists imgs data,
    get_image_data Toy.listdir "root" TEST ["toy"] = Ok (imgs, data) /\
    exists per_class,
      dict_get imgs "toy" = Ok per_class /\
      dict_get per_class "good"
      = Ok ["root/toy/test/good/000.png"; "root/toy/test/good/001.png"].
Proof.
  destruct (get_image_data Toy.listdir "root" TEST ["toy"]) as [[imgs data]|e]
    eqn:Hdata; [|absurd_raise Hdata].
  exists imgs, data. split; [reflexivity|].
  destruct (imgpaths_per_class_entries Toy.listdir "root" TEST ["toy"]
              imgs data Hdata) as (_ & _ & Hclass).
  destruct (Hclass "toy" (or_introl eq_refl)) as (per_class & Hget & _ & _ & Hpaths).
  exists per_class. split; [exact Hget|].
  apply (Hpaths "good"). left. reflexivity.
Defined.

Lemma index_concatenates_classes_witness :
  exists imgs data,
    get_image_data Toy.listdir "root" TEST ["toy"; "big"] = Ok (imgs, data) /\
    exists parts,
      Forall2 (fun c part =>
                 exists imgs_c,
                   get_image_data Toy.listdir "root" TEST [c] = Ok (imgs_c, part))
              ["big"; "toy"] parts /\
      data = List.concat parts.
Proof.
  destruct (get_image_data Toy.listdir "root" TEST ["toy"; "big"])
    as [[imgs data]|e] eqn:Hdata; [|absurd_raise Hdata].
  exists imgs, data. split; [reflexivity|].
  exact (index_concatenates_classes Toy.listdir "root" TEST ["toy"; "big"]
           imgs data Hdata).
Defined.

Lemma constructed_records_name_listed_files_witness :
  exists ds w',
    toy_init "root" (Some "big") 256%Z 224%Z TEST None 2%Z 42%Z 2%Z 0%Z toy_world
      = Ok (ds, w') /\
    forall r, In r (data_to_iterate ds) ->
      In (anomaly r) (listing Toy.listdir (class_path "root" TEST (classname r))).
Proof.
  destruct (toy_init "root" (Some "big") 256%Z 224%Z TEST None
                     2%Z 42%Z 2%Z 0%Z toy_world) as [[ds w']|e] eqn:Hinit;
    [|absurd_raise Hinit].
  exists ds, w'. split; [reflexivity|]. intros r Hr.
  exact (proj1 (proj2 (constructed_records_name_listed_files
                         Toy.listdir _ Toy.random_seed Toy.random_shuffle
                         _ Toy.manual_seed Toy.randint _ _
                         Toy.Resize Toy.CenterCrop Toy.ToTensor Toy.Normalize
                         "root" (Some "big") 256%Z 224%Z TEST None
                         2%Z 42%Z 2%Z 0%Z toy_world ds w' r Hinit Hr))).
Defined.

Lemma subsets_split_the_index_witness :
  exists imgs full,
    get_image_data Toy.listdir "root" TEST ["big"] = Ok (imgs, full) /\
    exists parts,
      Forall2 (fun i part =>
                 exists w',
                   sub_datasets Toy.random_seed Toy.random_shuffle (tgen := Toy.tgen)
                                full 3%Z (Z.of_nat i) 42%Z toy_world
                   = Ok (part, w'))
              (seq 0 (Z.to_nat 3)) parts /\
      Permutation (List.concat parts) full.
Proof.
  destruct (get_image_data Toy.listdir "root" TEST ["big"]) as [[imgs full]|e]
    eqn:Hfull; [|absurd_raise Hfull].
  exists imgs, full. split; [reflexivity|].
  assert (Hd : (0 < 3)%Z) by lia.
  exact (subsets_split_the_index Toy.listdir _ Toy.random_seed Toy.random_shuffle
           Toy.tgen "root" TEST ["big"] imgs full 3%Z 42%Z toy_world
           toy_shuffle_permutes Hfull Hd).
Defined.

Lemma first_subset_keeps_every_anomaly_type_witness :
  exists imgs full,
    get_image_data Toy.listdir "root" TEST ["big"] = Ok (imgs, full) /\
    exists data w',
      sub_datasets Toy.random_seed Toy.random_shuffle (tgen := Toy.tgen)
                   full 4%Z 0%Z 42%Z toy_world = Ok (data, w') /\
      forall r, In r full -> exists r', In r' data /\ anomaly r' = anomaly r.
Proof.
  destruct (get_image_data Toy.listdir "root" TEST ["big"]) as [[imgs full]|e]
    eqn:Hfull; [|absurd_raise Hfull].
  exists imgs, full. split; [reflexivity|].
  assert (Hd : (0 < 4)%Z) by lia.
  exact (first_subset_keeps_every_anomaly_type Toy.listdir _ Toy.random_seed
           Toy.random_shuffle Toy.tgen "root" TEST ["big"] imgs full 4%Z 42%Z
           toy_world toy_names_valid toy_shuffle_permutes Hfull Hd).
Defined.

Lemma sub_datasets_negative_divide_num_witness :
  exists imgs full,
    get_image_data Toy.listdir "root" TEST ["big"] = Ok (imgs, full) /\
    exists g,
      sub_datasets Toy.random_seed Toy.random_shuffle (tgen := Toy.tgen)
                   full (-2)%Z 0%Z 42%Z toy_world
      = Ok ([], set_py_random g toy_world).
Proof.
  destruct (get_image_data Toy.listdir "root" TEST ["big"]) as [[imgs full]|e]
    eqn:Hfull; [|absurd_raise Hfull].
  exists imgs, full. split; [reflexivity|].
  assert (Hd : (-2 < 0)%Z) by lia.
  exact (sub_datasets_negative_divide_num Toy.listdir _ Toy.random_seed
           Toy.random_shuffle Toy.tgen "root" TEST ["big"] imgs full
           (-2)%Z 0%Z 42%Z toy_world Hfull Hd).
Defined.

Lemma subset_takes_even_share_of_each_type_witness :
  exists imgs full,
    get_image_data Toy.listdir "root" TEST ["big"] = Ok (imgs, full) /\
    exists data w',
      sub_datasets Toy.random_seed Toy.random_shuffle (tgen := Toy.tgen)
                   full 2%Z 0%Z 42%Z toy_world = Ok (data, w') /\
      Z.of_nat (count_type "good" data)
      = (Z.of_nat (count_type "good" full) / 2
         + (if 0 <? Z.of_nat (count_type "good" full) mod 2 then 1 else 0))%Z.
Proof.
  destruct (get_image_data Toy.listdir "root" TEST ["big"]) as [[imgs full]|e]
    eqn:Hfull; [|absurd_raise Hfull].
  exists imgs, full. split; [reflexivity|].
  assert (Hi : (0 <= 0 < 2)%Z) by lia.
  exact (subset_takes_even_share_of_each_type Toy.listdir _ Toy.random_seed
           Toy.random_shuffle Toy.tgen "root" TEST ["big"] imgs full
           2%Z 0%Z 42%Z toy_world "good"
           toy_names_valid toy_shuffle_permutes Hfull Hi).
Defined.

(** The share of the five "good" records of the class "big" in the first of
    two subsets is three. *)
Example even_share_evaluated :
  match get_image_data Toy.listdir "root" TEST ["big"] with
  | Ok (_, full) =>
      match sub_datasets Toy.random_seed Toy.random_shuffle (tgen := Toy.tgen)
                         full 2%Z 0%Z 42%Z toy_world with
      | Ok (data, _) => (count_type "good" full, count_type "good" data)
      | Raise _ => (0, 0)
      end
  | Raise _ => (0, 0)
  end = (5, 3).
Proof. vm_compute. reflexivity. Qed.

Lemma construction_leaves_unused_generators_witness :
  exists ds w',
    toy_init "root" (Some "toy") 256%Z 224%Z TEST None 0%Z 42%Z 1%Z 0%Z toy_world
      = Ok (ds, w') /\
    stdout w' = stdout toy_world /\
    py_random w' = py_random toy_world /\
    torch_random w' = torch_random toy_world.
Proof.
  destruct (toy_init "root" (Some "toy") 256%Z 224%Z TEST None
                     0%Z 42%Z 1%Z 0%Z toy_world) as [[ds w']|e] eqn:Hinit;
    [|absurd_raise Hinit].
  exists ds, w'. split; [reflexivity|].
  destruct (construction_leaves_unused_generators
              Toy.listdir _ Toy.random_seed Toy.random_shuffle
              _ Toy.manual_seed Toy.randint _ _
              Toy.Resize Toy.CenterCrop Toy.ToTensor Toy.Normalize
              "root" (Some "toy") 256%Z 224%Z TEST None
              0%Z 42%Z 1%Z 0%Z toy_world ds w' Hinit) as (Hout & Hpy & Htorch).
  split; [exact Hout|]. split; [apply Hpy; lia | apply Htorch; lia].
Defined.

Lemma len_counts_the_listed_files_witness :
  exists ds w',
    toy_init "root" (Some "toy") 256%Z 224%Z TEST None 0%Z 42%Z 1%Z 0%Z toy_world
      = Ok (ds, w') /\
    __len__ ds = 4.
Proof.
  destruct (toy_init "root" (Some "toy") 256%Z 224%Z TEST None
                     0%Z 42%Z 1%Z 0%Z toy_world) as [[ds w']|e] eqn:Hinit;
    [|absurd_raise Hinit].
  exists ds, w'. split; [reflexivity|].
  assert (Hd : (1 <= 1)%Z) by lia. assert (Hk : (0 <= 0)%Z) by lia.
  rewrite (len_counts_the_listed_files
             Toy.listdir _ Toy.random_seed Toy.random_shuffle
             _ Toy.manual_seed Toy.randint _ _
             Toy.Resize Toy.CenterCrop Toy.ToTensor Toy.Normalize
             "root" (Some "toy") 256%Z 224%Z TEST None
             0%Z 42%Z 1%Z 0%Z toy_world ds w' Hd Hk Hinit).
  vm_compute. reflexivity.
Defined.

Lemma negative_iter_short_chunk_raises_witness :
  exists imgs full,
    get_image_data Toy.listdir "root" TEST ["big"] = Ok (imgs, full) /\
    toy_subset full 2%Z (-2)%Z 42%Z toy_world = Raise IndexError.
Proof.
  destruct (get_image_data Toy.listdir "root" TEST ["big"]) as [[imgs full]|e]
    eqn:Hfull; [|absurd_raise Hfull].
  exists imgs, full. split; [reflexivity|].
  assert (Hd : (0 < 2)%Z) by lia. assert (Hi : (-2 < 0)%Z) by lia.
  assert (Hgt : (1 < 2)%Z) by lia.
  assert (Hlen : (Z.of_nat (List.length [4]) < - -2)%Z) by (cbn; lia).
  pose proof (f_equal (fun x => match x with
                                | Ok (_, d) => d
                                | Raise _ => []
                                end) Hfull) as Hdata.
  vm_compute in Hdata.
  assert (Hids : In [0; 1; 2; 3; 4] (spec_groups full))
    by (rewrite <- Hdata; vm_compute; left; reflexivity).
  assert (Hchunk : In [4] (spec_chunks (List.length [0; 1; 2; 3; 4]) (Z.to_nat 2)
                                       [0; 1; 2; 3; 4]))
    by (vm_compute; right; right; left; reflexivity).
  exact (proj2 (negative_iter_short_chunk_raises
                  Toy.listdir _ Toy.random_seed Toy.random_shuffle Toy.tgen
                  "root" TEST ["big"] imgs full 2%Z (-2)%Z 42%Z toy_world
                  [0; 1; 2; 3; 4] [4]
                  toy_names_valid toy_shuffle_permutes Hfull Hd Hi
                  Hids Hchunk Hlen) Hgt).
Defined.
